(** * A cache simulator (csim.c): shallow embedding and verification

    The simulator keeps a set-associative cache as a table [cache[S][E]] of
    lines together with a handful of [int] counters, all of them process-wide
    globals.  Every trace record is decoded into a tag and a set index and
    handed to [load_cache] or [store_cache]; [main] turns the counters into
    the final statistics.

    Conventions of the embedding.

    - C integers are mathematical integers ([Z]) kept in the range of their
      type.  Arithmetic on [int] is two's complement: a result that does not
      fit wraps around ([to_int]), conversions between integer types are
      reductions modulo the width of the target.  A shift by a count that is
      not smaller than the width of the shifted operand has no defined result.
    - An access [cache[i][j]] outside the allocated table has no defined
      result either.  Both cases surface as the outcome [Undefined].
    - [exit(1)] after a diagnostic is the outcome [Exit] carrying the
      diagnostic.
    - A loop [for (i = 0; i < E; i++)] is a recursion on the number of
      iterations that are left, [E] at the start, carrying the index [i]. *)

From Stdlib Require Import ZArith NArith Lia Ascii.
From stdpp Require Import base list.

Local Open Scope Z_scope.

(** Let [lia] reason about [mod] and [/] by literals. *)
Ltac Zify.zify_post_hook ::= Z.to_euclidean_division_equations.

(** ** Machine integers *)

Module CInt.

Definition wrap_signed (w z : Z) : Z := (z + 2 ^ (w - 1)) mod 2 ^ w - 2 ^ (w - 1).

Definition INT_MAX : Z := 2147483647.
Definition INT_MIN : Z := -2147483648.

(** Conversions to [int], [long], [unsigned int], [unsigned long]. *)
Definition to_int (z : Z) : Z := wrap_signed 32 z.
Definition to_long (z : Z) : Z := wrap_signed 64 z.
Definition to_uint (z : Z) : Z := z mod 2 ^ 32.
Definition to_ulong (z : Z) : Z := z mod 2 ^ 64.

(** [x++], [x--], [x + y], [x - y], [x * y] on [int]. *)
Definition incr (x : Z) : Z := to_int (x + 1).
Definition decr (x : Z) : Z := to_int (x - 1).
Definition add_int (x y : Z) : Z := to_int (x + y).
Definition sub_int (x y : Z) : Z := to_int (x - y).
Definition mul_int (x y : Z) : Z := to_int (x * y).

End CInt.
Export CInt.

#[global] Arguments wrap_signed : simpl never.
#[global] Arguments to_int : simpl never.
#[global] Arguments to_long : simpl never.
#[global] Arguments to_uint : simpl never.
#[global] Arguments to_ulong : simpl never.
#[global] Arguments incr : simpl never.
#[global] Arguments decr : simpl never.

(** ** Outcomes of a computation *)

(** The diagnostics after which the program calls [exit(1)]. *)
Inductive fatal : Type :=
  | IncorrectInvocations   (* "Incorrect Invocations." *)
  | FailedToAllocate       (* "Failed to allocate memory." *)
  | AddressOutOfRange      (* "Address %lu is out of range" *)
  | SizeOutOfRange         (* "Size is out of range" *)
  | InvalidAction.         (* "Invalid action" *)

Inductive outcome (A : Type) : Type :=
  | Ok (a : A)
  | Exit (f : fatal)
  | Undefined.
Arguments Ok {A} a.
Arguments Exit {A} f.
Arguments Undefined {A}.

#[export] Instance outcome_ret : MRet outcome := fun A a => Ok a.
#[export] Instance outcome_bind : MBind outcome := fun A B f m =>
  match m with
  | Ok a => f a
  | Exit e => Exit e
  | Undefined => Undefined
  end.

(** [x << n] on an [int] [x]; [x >> n] on an [unsigned long] [x]. *)
Definition shl_int (x n : Z) : outcome Z :=
  if (0 <=? n) && (n <? 32) then Ok (to_int (x * 2 ^ n)) else Undefined.
Definition shr_ulong (x n : Z) : outcome Z :=
  if (0 <=? n) && (n <? 64) then Ok (Z.shiftr x n) else Undefined.

(** ** Data: lines and the globals *)

Record Line : Type := mkLine {
  valid : Z;       (* int *)
  tag : Z;         (* long *)
  dirty : Z;       (* int *)
  timeStamp : Z    (* int *)
}.

(** The globals of csim.c.  [S_] is the global [S] (the name [S] is the
    successor of [nat]). *)
Record state : Type := mkState {
  cache : list (list Line);
  hit : Z;
  miss : Z;
  eviction : Z;
  dirtyInCache : Z;
  dirtyEvicted : Z;
  time : Z;
  S_ : Z;
  B : Z;
  E : Z
}.

Definition MAX_SIZE : Z := 16.

Definition set_cache_table (st : state) (c : list (list Line)) : state :=
  mkState c (hit st) (miss st) (eviction st) (dirtyInCache st) (dirtyEvicted st) (time st)
          (S_ st) (B st) (E st).
Definition set_hit (st : state) (v : Z) : state :=
  mkState (cache st) v (miss st) (eviction st) (dirtyInCache st) (dirtyEvicted st) (time st)
          (S_ st) (B st) (E st).
Definition set_miss (st : state) (v : Z) : state :=
  mkState (cache st) (hit st) v (eviction st) (dirtyInCache st) (dirtyEvicted st) (time st)
          (S_ st) (B st) (E st).
Definition set_eviction (st : state) (v : Z) : state :=
  mkState (cache st) (hit st) (miss st) v (dirtyInCache st) (dirtyEvicted st) (time st)
          (S_ st) (B st) (E st).
Definition set_dirtyInCache (st : state) (v : Z) : state :=
  mkState (cache st) (hit st) (miss st) (eviction st) v (dirtyEvicted st) (time st)
          (S_ st) (B st) (E st).
Definition set_dirtyEvicted (st : state) (v : Z) : state :=
  mkState (cache st) (hit st) (miss st) (eviction st) (dirtyInCache st) v (time st)
          (S_ st) (B st) (E st).
Definition set_time (st : state) (v : Z) : state :=
  mkState (cache st) (hit st) (miss st) (eviction st) (dirtyInCache st) (dirtyEvicted st) v
          (S_ st) (B st) (E st).

(** Field updates of one line. *)
Definition with_dirty (v : Z) (l : Line) : Line := mkLine (valid l) (tag l) v (timeStamp l).
Definition with_timeStamp (v : Z) (l : Line) : Line := mkLine (valid l) (tag l) (dirty l) v.

(** ** Access to the table *)

(** The row [cache[setIndex]]. *)
Definition row_at (c : list (list Line)) (setIndex : Z) : outcome (list Line) :=
  if setIndex <? 0 then Undefined
  else match c !! Z.to_nat setIndex with
       | Some row => Ok row
       | None => Undefined
       end.

(** Reading [cache[setIndex][lineIndex]]. *)
Definition line_at (c : list (list Line)) (setIndex lineIndex : Z) : outcome Line :=
  row ← row_at c setIndex;
  if lineIndex <? 0 then Undefined
  else match row !! Z.to_nat lineIndex with
       | Some l => Ok l
       | None => Undefined
       end.

(** Writing fields of [cache[setIndex][lineIndex]]: the line becomes [f] of
    what it was. *)
Definition update_line (f : Line -> Line) (setIndex lineIndex : Z) (st : state) : outcome state :=
  _ ← line_at (cache st) setIndex lineIndex;
  Ok (set_cache_table st
        (alter (alter f (Z.to_nat lineIndex)) (Z.to_nat setIndex) (cache st))).

(** ** Configuration *)

(** [char t[1000]] is an array, so [!t] is false whatever the command line
    was; the test on [t] is omitted. *)
Definition checkValidInput (s b E0 : Z) : outcome unit :=
  if (s <? 0) || (b <? 0) || (E0 <=? 0) then Exit IncorrectInvocations
  else if add_int s b >? 64 then Exit FailedToAllocate
  else Ok tt.

Definition empty_line : Line := mkLine 0 0 0 0.

(** [init_cache] on the initial globals (all counters 0); [E0] is the value
    the command line gave the global [E].  Allocation is taken to succeed. *)
Definition init_cache (s b E0 : Z) : outcome state :=
  S0 ← shl_int 1 s;
  B0 ← shl_int 1 b;
  Ok (mkState (replicate (Z.to_nat S0) (replicate (Z.to_nat E0) empty_line))
              0 0 0 0 0 0 S0 B0 E0).

(** ** Searching a set *)

(** The loop [for (int i = 0; i < E; i++)] of [find_matched_line] from the
    index [i] on, with [n] iterations to go. *)
Fixpoint find_matched_loop (n : nat) (i : Z) (c : list (list Line)) (tg setIndex : Z)
  : outcome Z :=
  match n with
  | O => Ok (-1)
  | S n' =>
      l ← line_at c setIndex i;
      if (valid l =? 1) && (tag l =? tg) then Ok i
      else find_matched_loop n' (i + 1) c tg setIndex
  end.

Definition find_matched_line (tg setIndex : Z) (st : state) : outcome Z :=
  find_matched_loop (Z.to_nat (E st)) 0 (cache st) tg setIndex.

Fixpoint find_empty_loop (n : nat) (i : Z) (c : list (list Line)) (setIndex : Z)
  : outcome Z :=
  match n with
  | O => Ok (-1)
  | S n' =>
      l ← line_at c setIndex i;
      if valid l =? 0 then Ok i
      else find_empty_loop n' (i + 1) c setIndex
  end.

Definition find_empty_line (setIndex : Z) (st : state) : outcome Z :=
  find_empty_loop (Z.to_nat (E st)) 0 (cache st) setIndex.

Fixpoint find_LRU_loop (n : nat) (i : Z) (c : list (list Line)) (setIndex : Z)
    (minTime minIndex : Z) : outcome Z :=
  match n with
  | O => Ok minIndex
  | S n' =>
      l ← line_at c setIndex i;
      if timeStamp l <? minTime
      then find_LRU_loop n' (i + 1) c setIndex (timeStamp l) i
      else find_LRU_loop n' (i + 1) c setIndex minTime minIndex
  end.

Definition find_LRU (setIndex : Z) (st : state) : outcome Z :=
  find_LRU_loop (Z.to_nat (E st)) 0 (cache st) setIndex 9999999 (-1).

#[global] Arguments find_matched_line : simpl never.
#[global] Arguments find_empty_line : simpl never.
#[global] Arguments find_LRU : simpl never.

(** ** The two operations *)

Definition set_cache (tg setIndex lineIndex : Z) (st : state) : outcome state :=
  update_line (fun _ => mkLine 1 tg 0 (time st)) setIndex lineIndex st.

Definition load_cache (tg setIndex : Z) (st : state) : outcome state :=
  let st := set_time st (incr (time st)) in
  lineIndex ← find_matched_line tg setIndex st;
  if negb (lineIndex =? -1) then
    let st := set_hit st (incr (hit st)) in
    update_line (with_timeStamp (time st)) setIndex lineIndex st
  else
    let st := set_miss st (incr (miss st)) in
    newLineIndex ← find_empty_line setIndex st;
    '(st, newLineIndex) ←
      (if newLineIndex =? -1 then
         newLineIndex ← find_LRU setIndex st;
         victim ← line_at (cache st) setIndex newLineIndex;
         let st :=
           if dirty victim =? 1
           then set_dirtyInCache (set_dirtyEvicted st (incr (dirtyEvicted st)))
                                 (decr (dirtyInCache st))
           else st in
         Ok (set_eviction st (incr (eviction st)), newLineIndex)
       else Ok (st, newLineIndex));
    set_cache tg setIndex newLineIndex st.

Definition store_cache (tg setIndex : Z) (st : state) : outcome state :=
  let st := set_time st (incr (time st)) in
  lineIndex ← find_matched_line tg setIndex st;
  if negb (lineIndex =? -1) then
    let st := set_hit st (incr (hit st)) in
    st ← update_line (with_timeStamp (time st)) setIndex lineIndex st;
    l ← line_at (cache st) setIndex lineIndex;
    if dirty l =? 0 then
      update_line (with_dirty 1) setIndex lineIndex
                  (set_dirtyInCache st (incr (dirtyInCache st)))
    else Ok st
  else
    let st := set_miss st (incr (miss st)) in
    newLineIndex ← find_empty_line setIndex st;
    '(st, newLineIndex) ←
      (if newLineIndex =? -1 then
         newLineIndex ← find_LRU setIndex st;
         victim ← line_at (cache st) setIndex newLineIndex;
         let st :=
           if dirty victim =? 1
           then set_dirtyEvicted st (incr (dirtyEvicted st))
           else st in
         Ok (set_eviction st (incr (eviction st)), newLineIndex)
       else Ok (st, newLineIndex));
    chosen ← line_at (cache st) setIndex newLineIndex;
    let st :=
      if dirty chosen =? 0
      then set_dirtyInCache st (incr (dirtyInCache st))
      else st in
    st ← set_cache tg setIndex newLineIndex st;
    update_line (with_dirty 1) setIndex newLineIndex st.

(** ** Trace processing *)

(** One record of the trace as [fscanf(" %c %lx,%d")] delivers it: the
    action character, the address ([unsigned long]) and the size ([int]). *)
Record trace_line : Type := mkTraceLine {
  action : ascii;
  addr : N;
  size : Z
}.

(** The address decomposition of [process_trace_file]:
<<
    long tag = (long)(addr >> (unsigned int)(s + b));
    int setIndex = (int)((addr & ((1 << (unsigned int)(s + b)) - 1)) >> (unsigned int)b);
>>
    The literal [1] is an [int], so the mask is computed in [int] and then
    converted to [unsigned long] for the conjunction. *)
Definition decode (s b a : Z) : outcome (Z * Z) :=
  let n := to_uint (add_int s b) in
  t ← shr_ulong a n;
  let tg := to_long t in
  m ← shl_int 1 n;
  let mask := sub_int m 1 in
  si ← shr_ulong (Z.land a (to_ulong mask)) (to_uint b);
  Ok (tg, to_int si).

Definition is_L (c : ascii) : bool := Ascii.eqb c "L"%char.
Definition is_S (c : ascii) : bool := Ascii.eqb c "S"%char.

(** The loop of [process_trace_file] over the records of the opened trace.
    The parameter [E0] is not used by the function (as in the source). *)
Fixpoint process_trace_file (trace : list trace_line) (s E0 b : Z) (st : state)
  : outcome state :=
  match trace with
  | [] => Ok st
  | r :: rest =>
      if Z.of_N (addr r) <? 0 then Exit AddressOutOfRange
      else if (size r <? 0) || (size r >=? MAX_SIZE) then Exit SizeOutOfRange
      else
        '(tg, setIndex) ← decode s b (Z.of_N (addr r));
        st ← (if is_L (action r) then load_cache tg setIndex st
              else if is_S (action r) then store_cache tg setIndex st
              else Exit InvalidAction);
        process_trace_file rest s E0 b st
  end.

(** Modelled from the spec: [csim_stats_t] is declared in cachelab.h, which
    is not among the sources; its five fields are the ones [main] assigns,
    each an [unsigned long]. *)
Record csim_stats_t : Type := mkStats {
  hits : Z;
  misses : Z;
  evictions : Z;
  dirty_bytes : Z;
  dirty_evictions : Z
}.

(** The statistics [main] hands to [printSummary]. *)
Definition summary (st : state) : csim_stats_t :=
  mkStats (to_ulong (hit st)) (to_ulong (miss st)) (to_ulong (eviction st))
          (to_ulong (mul_int (dirtyInCache st) (B st)))
          (to_ulong (mul_int (dirtyEvicted st) (B st))).

(** [main] after option parsing, for a run without [-h]: [s], [b], [E0] are
    the values of the options and [trace] the records of the trace file. *)
Definition main (s b E0 : Z) (trace : list trace_line) : outcome csim_stats_t :=
  _ ← checkValidInput s b E0;
  st ← init_cache s b E0;
  st ← process_trace_file trace s E0 b st;
  Ok (summary st).

(** ** Runs of decoded accesses *)

Inductive kind : Type := Load | Store.

Record access : Type := mkAccess {
  a_kind : kind;
  a_tag : Z;
  a_set : Z
}.

Definition step (a : access) (st : state) : outcome state :=
  match a_kind a with
  | Load => load_cache (a_tag a) (a_set a) st
  | Store => store_cache (a_tag a) (a_set a) st
  end.

Fixpoint run (ops : list access) (st : state) : outcome state :=
  match ops with
  | [] => Ok st
  | a :: rest => st' ← step a st; run rest st'
  end.

(** A state the simulator can be in after some accesses. *)
Definition reachable (s b E0 : Z) (ops : list access) (st : state) : Prop :=
  exists st0, init_cache s b E0 = Ok st0 /\ run ops st0 = Ok st.

(** * Notions used in the statements *)

(** Every row of the table has [E] lines, as [init_cache] allocates it. *)
Definition table_ok (st : state) : Prop :=
  Forall (fun row => length row = Z.to_nat (E st)) (cache st).

(** The three searches as functions of a row of [E] lines, from the index
    [i] on (see [find_matched_line_row], [find_empty_line_row],
    [find_LRU_row]). *)
Fixpoint find_matched_from (i : Z) (row : list Line) (tg : Z) : Z :=
  match row with
  | [] => -1
  | l :: rest =>
      if (valid l =? 1) && (tag l =? tg) then i
      else find_matched_from (i + 1) rest tg
  end.

Fixpoint find_empty_from (i : Z) (row : list Line) : Z :=
  match row with
  | [] => -1
  | l :: rest =>
      if valid l =? 0 then i else find_empty_from (i + 1) rest
  end.

Fixpoint find_LRU_from (i : Z) (row : list Line) (minTime minIndex : Z) : Z :=
  match row with
  | [] => minIndex
  | l :: rest =>
      if timeStamp l <? minTime
      then find_LRU_from (i + 1) rest (timeStamp l) i
      else find_LRU_from (i + 1) rest minTime minIndex
  end.

(** The tests of [find_matched_line] and [find_empty_line] on one line. *)
Definition matches (tg : Z) (l : Line) : Prop := valid l = 1 /\ tag l = tg.

Definition free (l : Line) : Prop := valid l = 0.

(** [k] is the first position of [row] whose line satisfies [P]. *)
Definition first_at (P : Line -> Prop) (row : list Line) (k : nat) : Prop :=
  (exists l, row !! k = Some l /\ P l) /\
  forall k' l', (k' < k)%nat -> row !! k' = Some l' -> ~ P l'.

(** [k] holds the smallest time stamp of [row], and is the first position
    that does. *)
Definition lru_at (row : list Line) (k : nat) : Prop :=
  exists l, row !! k = Some l /\
    forall k' l', row !! k' = Some l' ->
      timeStamp l <= timeStamp l' /\ ((k' < k)%nat -> timeStamp l < timeStamp l').

(** A hit rewrites the time stamp of the matched line; a store also makes
    it dirty. *)
Definition touch (k : kind) (t : Z) (l : Line) : Line :=
  mkLine (valid l) (tag l)
         (match k with
          | Load => dirty l
          | Store => if dirty l =? 0 then 1 else dirty l
          end) t.

(** The line a miss writes. *)
Definition fill (k : kind) (tg t : Z) : Line :=
  mkLine 1 tg (match k with Load => 0 | Store => 1 end) t.

(** The globals after a hit on line [i] of the row [si], which held [l]. *)
Definition hit_state (k : kind) (si i : nat) (row : list Line) (l : Line) (st : state)
  : state :=
  mkState (<[si := <[i := touch k (incr (time st)) l]> row]> (cache st))
          (incr (hit st)) (miss st) (eviction st)
          (match k with
           | Load => dirtyInCache st
           | Store => if dirty l =? 0 then incr (dirtyInCache st) else dirtyInCache st
           end)
          (dirtyEvicted st) (incr (time st)) (S_ st) (B st) (E st).

(** The globals after a miss that overwrites line [j] of the row [si];
    [v] is the line that is overwritten, [evicting] tells whether it was
    chosen by [find_LRU]. *)
Definition miss_state (k : kind) (evicting : bool) (tg : Z) (si j : nat)
    (row : list Line) (v : Line) (st : state) : state :=
  mkState (<[si := <[j := fill k tg (incr (time st))]> row]> (cache st))
          (hit st) (incr (miss st))
          (if evicting then incr (eviction st) else eviction st)
          (match k with
           | Load => if evicting && (dirty v =? 1)
                     then decr (dirtyInCache st) else dirtyInCache st
           | Store => if dirty v =? 0
                      then incr (dirtyInCache st) else dirtyInCache st
           end)
          (if evicting && (dirty v =? 1) then incr (dirtyEvicted st) else dirtyEvicted st)
          (incr (time st)) (S_ st) (B st) (E st).

(** One access as a function of the addressed row (see [step_unfold]). *)
Definition step_on_row (a : access) (row : list Line) (st : state) : outcome state :=
  let si := Z.to_nat (a_set a) in
  let i := find_matched_from 0 row (a_tag a) in
  if negb (i =? -1) then
    match row !! Z.to_nat i with
    | Some l => Ok (hit_state (a_kind a) si (Z.to_nat i) row l st)
    | None => Undefined
    end
  else
    let j := find_empty_from 0 row in
    if negb (j =? -1) then
      match row !! Z.to_nat j with
      | Some v => Ok (miss_state (a_kind a) false (a_tag a) si (Z.to_nat j) row v st)
      | None => Undefined
      end
    else
      let j := find_LRU_from 0 row 9999999 (-1) in
      if j <? 0 then Undefined
      else match row !! Z.to_nat j with
           | Some v => Ok (miss_state (a_kind a) true (a_tag a) si (Z.to_nat j) row v st)
           | None => Undefined
           end.

(** The three ways an access can go, on the addressed row [row]:
    a hit on the first matching line, a miss that fills the first free
    line, a miss in a full set that overwrites the line [find_LRU] picks. *)
Inductive step_case (a : access) (st : state) (row : list Line) : state -> Prop :=
  | case_hit i l :
      first_at (matches (a_tag a)) row i ->
      row !! i = Some l ->
      step_case a st row (hit_state (a_kind a) (Z.to_nat (a_set a)) i row l st)
  | case_fill j v :
      Forall (fun l => ~ matches (a_tag a) l) row ->
      first_at free row j ->
      row !! j = Some v ->
      step_case a st row
        (miss_state (a_kind a) false (a_tag a) (Z.to_nat (a_set a)) j row v st)
  | case_evict j v :
      Forall (fun l => ~ matches (a_tag a) l) row ->
      Forall (fun l => ~ free l) row ->
      lru_at row j ->
      row !! j = Some v ->
      timeStamp v < 9999999 ->
      step_case a st row
        (miss_state (a_kind a) true (a_tag a) (Z.to_nat (a_set a)) j row v st).

(** The globals after [init_cache 0 0 1]: one set of one line. *)
Definition one_line_state : state :=
  mkState [[empty_line]] 0 0 0 0 0 0 1 1 1.

Definition dirty_bit (k : kind) : Z := match k with Load => 0 | Store => 1 end.

(** One set of one line after [n >= 1] accesses of kind [k] to tag 0: one
    miss, then hits. *)
Definition same_tag_state (k : kind) (n : Z) : state :=
  mkState [[mkLine 1 0 (dirty_bit k) (to_int n)]]
          (to_int (n - 1)) 1 0 (dirty_bit k) 0 (to_int n) 1 1 1.

(** One set of one line, [2^31] stores to tag 0 and then [k] stores to the
    tags 1, ..., [k]: every store of the second phase evicts the dirty line
    of its predecessor. *)
Definition evicting_state (k : Z) : state :=
  mkState [[mkLine 1 k 1 (to_int (2147483648 + k))]]
          (to_int 2147483647) (to_int (1 + k)) (to_int k) 1 (to_int k)
          (to_int (2147483648 + k)) 1 1 1.

Definition store_tag (j : nat) : access := mkAccess Store (Z.of_nat j) 0.

(** 2^31 stores to tag 0, then one store to each of the tags 1, ...,
    2^31 - 1, all in set 0. *)
Definition long_store_run : list access :=
  replicate (Z.to_nat 2147483648) (mkAccess Store 0 0)
  ++ map store_tag (seq 1 (Z.to_nat 2147483647)).

(** An outcome that is not an [exit(1)]. *)
Inductive no_exit {A : Type} : outcome A -> Prop :=
  | no_exit_Ok a : no_exit (Ok a)
  | no_exit_Undefined : no_exit Undefined.

(** A size outside 0 .. 15. *)
Definition bad_size (r : trace_line) : Prop := size r < 0 \/ 16 <= size r.

(** [n] accesses were processed, [h] of them hits and [m] misses. *)
Definition counted (n : Z) (st : state) : Prop :=
  exists h m, 0 <= h /\ 0 <= m /\ h + m = n /\
    hit st = to_int h /\ miss st = to_int m /\ time st = to_int n.

(** No two valid lines of the row carry the same time stamp. *)
Definition distinct_stamps (row : list Line) : Prop :=
  forall i j li lj,
    row !! i = Some li -> row !! j = Some lj ->
    valid li = 1 -> valid lj = 1 ->
    timeStamp li = timeStamp lj -> i = j.

(** Every valid line of the row was stamped by one of the first [n]
    accesses. *)
Definition stamped_by (n : Z) (row : list Line) : Prop :=
  forall i l, row !! i = Some l -> valid l = 1 ->
    exists k, 1 <= k <= n /\ timeStamp l = to_int k.

(** The time stamps after [n] accesses. *)
Definition stamps_ok (n : Z) (st : state) : Prop :=
  time st = to_int n /\
  Forall (fun row => stamped_by n row /\ distinct_stamps row) (cache st).

(** One set of two lines: a load of tag 0, then [n - 1] loads of tag 1. *)
Definition two_line_state (n : Z) : state :=
  mkState [[mkLine 1 0 0 1; mkLine 1 1 0 (to_int n)]]
          (to_int (n - 2)) 2 0 0 0 (to_int n) 1 1 2.

(** A line that is valid and dirty. *)
Definition is_dirty (l : Line) : bool := (valid l =? 1) && (dirty l =? 1).

(** The number of lines of a row, and of the table, that are valid and
    dirty. *)
Fixpoint dirty_lines_of_row (row : list Line) : Z :=
  match row with
  | [] => 0
  | l :: rest => (if is_dirty l then 1 else 0) + dirty_lines_of_row rest
  end.

Fixpoint dirty_lines (c : list (list Line)) : Z :=
  match c with
  | [] => 0
  | row :: rest => dirty_lines_of_row row + dirty_lines rest
  end.

(** The number of lines of the table. *)
Fixpoint total_lines (c : list (list Line)) : Z :=
  match c with
  | [] => 0
  | row :: rest => Z.of_nat (length row) + total_lines rest
  end.

(** The field values the program produces: an invalid line is clean. *)
Definition line_ok (l : Line) : Prop :=
  (valid l = 0 /\ dirty l = 0) \/ (valid l = 1 /\ (dirty l = 0 \/ dirty l = 1)).

(** The counter agrees with the table, as an [int]. *)
Definition dirty_counted (st : state) : Prop :=
  dirtyInCache st = to_int (dirty_lines (cache st)) /\
  Forall (Forall line_ok) (cache st).

(** How one access moves the counter and the count. *)
Inductive dirty_move (st st' : state) : Prop :=
  | dirty_same :
      dirtyInCache st' = dirtyInCache st ->
      dirty_lines (cache st') = dirty_lines (cache st) -> dirty_move st st'
  | dirty_up :
      dirtyInCache st' = incr (dirtyInCache st) ->
      dirty_lines (cache st') = dirty_lines (cache st) + 1 -> dirty_move st st'
  | dirty_down :
      dirtyInCache st' = decr (dirtyInCache st) ->
      dirty_lines (cache st') = dirty_lines (cache st) - 1 -> dirty_move st st'.

(** Stores to the tags [k], ..., [k + n - 1] of the set [si]. *)
Definition fill_row_ops (si : Z) (k n : nat) : list access :=
  map (fun j => mkAccess Store (Z.of_nat j) si) (seq k n).

(** The first [k] lines of a row of [E0] lines hold dirty blocks of tags
    below [k], the others are free. *)
Definition row_filled (E0 k : nat) (row : list Line) : Prop :=
  exists pre, row = pre ++ replicate (E0 - k) empty_line /\ length pre = k /\
    Forall (fun l => valid l = 1 /\ dirty l = 1 /\ 0 <= tag l < Z.of_nat k) pre.

(** No two valid lines of the row hold the same tag. *)
Definition distinct_tags (row : list Line) : Prop :=
  forall i j li lj,
    row !! i = Some li -> row !! j = Some lj ->
    valid li = 1 -> valid lj = 1 ->
    tag li = tag lj -> i = j.

(** The number of lines of a row, and of the table, with [valid == 1]. *)
Fixpoint valid_lines_of_row (row : list Line) : Z :=
  match row with
  | [] => 0
  | l :: rest => (if valid l =? 1 then 1 else 0) + valid_lines_of_row rest
  end.

Fixpoint valid_lines (c : list (list Line)) : Z :=
  match c with
  | [] => 0
  | row :: rest => valid_lines_of_row row + valid_lines rest
  end.

(** After [n] accesses: [m] misses, [e] of them with an eviction, [d] of
    these of a dirty line; the valid lines are the filled ones. *)
Definition occupied (n : Z) (st : state) : Prop :=
  exists m e d, 0 <= d <= e /\ e <= m <= n /\
    miss st = to_int m /\ eviction st = to_int e /\ dirtyEvicted st = to_int d /\
    valid_lines (cache st) = m - e /\
    Forall (Forall line_ok) (cache st).

(** A record [process_trace_file] accepts: a size within 0 .. 15, an
    address that fits [unsigned long], the action L or S. *)
Definition well_formed_record (r : trace_line) : Prop :=
  0 <= size r < 16 /\ Z.of_N (addr r) < 2 ^ 64 /\
  (action r = "L"%char \/ action r = "S"%char).

(** The state of a run that is short of the sentinel of [find_LRU]. *)
Definition safe_state (s E0 n : Z) (st : state) : Prop :=
  table_ok st /\ E st = E0 /\ Z.of_nat (length (cache st)) = 2 ^ s /\
  stamps_ok n st /\ Forall (Forall line_ok) (cache st).

(** The line [cache[si][j]], when the table has it. *)
Definition line_of (c : list (list Line)) (si j : nat) : option Line :=
  match c !! si with
  | Some row => row !! j
  | None => None
  end.

(** Nothing is dirty: the two dirty counters are 0 and no line has its
    dirty bit set. *)
Definition clean_state (st : state) : Prop :=
  dirtyInCache st = 0 /\ dirtyEvicted st = 0 /\
  Forall (Forall (fun l => dirty l = 0)) (cache st).

(** The row [si] holds the block [X] in a line stamped at [t0] or later,
    and every valid line stamped at [t0] or later holds a tag of [L]. *)
Definition keeps_recent (si X t0 : Z) (L : list Z) (st : state) : Prop :=
  exists row, row_at (cache st) si = Ok row /\
    (exists i l, row !! i = Some l /\ valid l = 1 /\ tag l = X /\ t0 <= timeStamp l) /\
    (forall i l, row !! i = Some l -> valid l = 1 -> t0 <= timeStamp l -> tag l ∈ L).

(** * Properties *)

(** ** Outcomes in sequence *)

Lemma bind_Ok {A C} (a : A) (f : A -> outcome C) : (Ok a ≫= f) = f a.
Proof. reflexivity. Qed.

Lemma bind_Exit {A C} (e : fatal) (f : A -> outcome C) : (Exit e ≫= f) = Exit e.
Proof. reflexivity. Qed.

Lemma bind_Undefined {A C} (f : A -> outcome C) : (Undefined ≫= f) = Undefined.
Proof. reflexivity. Qed.

Ltac bind_steps := rewrite ?bind_Ok, ?bind_Exit, ?bind_Undefined.

(** ** Integer facts *)

Lemma to_int_eq z : to_int z = (z + 2147483648) mod 4294967296 - 2147483648.
Proof. reflexivity. Qed.

Lemma to_int_small z : INT_MIN <= z <= INT_MAX -> to_int z = z.
Proof. rewrite to_int_eq. unfold INT_MIN, INT_MAX. lia. Qed.

Lemma to_int_range z : INT_MIN <= to_int z <= INT_MAX.
Proof. rewrite to_int_eq. unfold INT_MIN, INT_MAX. lia. Qed.

Lemma to_int_add_l a b : to_int (to_int a + b) = to_int (a + b).
Proof. rewrite !to_int_eq. lia. Qed.

Lemma to_int_sub_l a b : to_int (to_int a - b) = to_int (a - b).
Proof. rewrite !to_int_eq. lia. Qed.

Lemma to_int_inj_window a b :
  to_int a = to_int b -> -4294967296 < a - b < 4294967296 -> a = b.
Proof. rewrite !to_int_eq. lia. Qed.

Lemma incr_exact x : INT_MIN <= x < INT_MAX -> incr x = x + 1.
Proof. intros. unfold incr. apply to_int_small. lia. Qed.

Lemma incr_INT_MAX : incr INT_MAX = INT_MIN.
Proof. reflexivity. Qed.

Lemma decr_exact x : INT_MIN < x <= INT_MAX -> decr x = x - 1.
Proof. intros. unfold decr. apply to_int_small. lia. Qed.

(** ** The searches of a row *)

Lemma find_matched_from_spec row : forall i tg,
  0 <= i ->
  (find_matched_from i row tg = -1 /\ Forall (fun l => ~ matches tg l) row) \/
  (exists k, find_matched_from i row tg = i + Z.of_nat k /\ first_at (matches tg) row k).
Proof.
  induction row as [|l rest IH]; intros i tg Hi; simpl.
  - left. split; [reflexivity | constructor].
  - destruct (valid l =? 1) eqn:Hv; simpl.
    + destruct (tag l =? tg) eqn:Ht.
      * right. exists 0%nat. split; [lia|]. split.
        -- exists l. split; [reflexivity|]. split; lia.
        -- intros k' l' Hk. lia.
      * destruct (IH (i + 1) tg ltac:(lia)) as [[He Hall]|[k [He [Hf Hlt]]]].
        -- left. split; [exact He|]. constructor; [|exact Hall].
           intros [_ Hm]. lia.
        -- right. exists (S k). split; [lia|]. split; [exact Hf|].
           intros [|k'] l' Hk Hl; simpl in Hl.
           ++ inversion Hl; subst l'. intros [_ Hm]. lia.
           ++ apply (Hlt k' l'); [lia | exact Hl].
    + destruct (IH (i + 1) tg ltac:(lia)) as [[He Hall]|[k [He [Hf Hlt]]]].
      * left. split; [exact He|]. constructor; [|exact Hall].
        intros [Hm _]. lia.
      * right. exists (S k). split; [lia|]. split; [exact Hf|].
        intros [|k'] l' Hk Hl; simpl in Hl.
        -- inversion Hl; subst l'. intros [Hm _]. lia.
        -- apply (Hlt k' l'); [lia | exact Hl].
Qed.

Lemma find_empty_from_spec row : forall i,
  0 <= i ->
  (find_empty_from i row = -1 /\ Forall (fun l => ~ free l) row) \/
  (exists k, find_empty_from i row = i + Z.of_nat k /\ first_at free row k).
Proof.
  induction row as [|l rest IH]; intros i Hi; simpl.
  - left. split; [reflexivity | constructor].
  - destruct (valid l =? 0) eqn:Hv.
    + right. exists 0%nat. split; [lia|]. split.
      * exists l. split; [reflexivity|]. unfold free. lia.
      * intros k' l' Hk. lia.
    + destruct (IH (i + 1) ltac:(lia)) as [[He Hall]|[k [He [Hf Hlt]]]].
      * left. split; [exact He|]. constructor; [|exact Hall].
        unfold free. lia.
      * right. exists (S k). split; [lia|]. split; [exact Hf|].
        intros [|k'] l' Hk Hl; simpl in Hl.
        -- inversion Hl; subst l'. unfold free. lia.
        -- apply (Hlt k' l'); [lia | exact Hl].
Qed.

Lemma find_LRU_from_spec row : forall i minTime minIndex,
  (find_LRU_from i row minTime minIndex = minIndex /\
   Forall (fun l => minTime <= timeStamp l) row) \/
  (exists k l, find_LRU_from i row minTime minIndex = i + Z.of_nat k /\
     row !! k = Some l /\ timeStamp l < minTime /\ lru_at row k).
Proof.
  induction row as [|l rest IH]; intros i mT mI; simpl.
  - left. split; [reflexivity | constructor].
  - destruct (timeStamp l <? mT) eqn:Hlt.
    + right.
      destruct (IH (i + 1) (timeStamp l) i) as [[He Hall]|[k [l1 [He [Hk [Hl1 Hlru]]]]]].
      * exists 0%nat, l. split; [lia|]. split; [reflexivity|]. split; [lia|].
        exists l. split; [reflexivity|].
        intros [|k'] l' Hl'; simpl in Hl'.
        -- inversion Hl'; subst l'. lia.
        -- rewrite Forall_lookup in Hall. specialize (Hall k' l' Hl'). simpl in Hall. lia.
      * exists (S k), l1. split; [lia|]. split; [exact Hk|]. split; [lia|].
        destruct Hlru as [l2 [Hk2 Hmin]].
        assert (l2 = l1) by congruence. subst l2.
        exists l1. split; [exact Hk|].
        intros [|k'] l' Hl'; simpl in Hl'.
        -- inversion Hl'; subst l'. lia.
        -- destruct (Hmin k' l' Hl'). split; [lia|]. intros. apply H0. lia.
    + destruct (IH (i + 1) mT mI) as [[He Hall]|[k [l1 [He [Hk [Hl1 Hlru]]]]]].
      * left. split; [exact He|]. constructor; [lia | exact Hall].
      * right. exists (S k), l1. split; [lia|]. split; [exact Hk|]. split; [lia|].
        destruct Hlru as [l2 [Hk2 Hmin]].
        assert (l2 = l1) by congruence. subst l2.
        exists l1. split; [exact Hk|].
        intros [|k'] l' Hl'; simpl in Hl'.
        -- inversion Hl'; subst l'. lia.
        -- destruct (Hmin k' l' Hl'). split; [lia|]. intros. apply H0. lia.
Qed.

(** ** The table under reads and writes *)

Lemma alter_is_insert {A} (f : A -> A) (l : list A) : forall i x,
  l !! i = Some x -> alter f i l = <[i := f x]> l.
Proof.
  induction l as [|y l IH]; intros [|i] x H; simpl in *; try discriminate.
  - inversion H; reflexivity.
  - f_equal. apply IH. exact H.
Qed.

Lemma row_at_Ok c si row :
  row_at c si = Ok row <-> 0 <= si /\ c !! Z.to_nat si = Some row.
Proof.
  unfold row_at. destruct (si <? 0) eqn:Hs.
  - split; [discriminate | lia].
  - destruct (c !! Z.to_nat si) as [r|].
    + split.
      * intros H; inversion H; subst; split; [lia | reflexivity].
      * intros [_ H]; inversion H; reflexivity.
    + split; [discriminate | intros [_ H]; discriminate].
Qed.

Lemma row_at_not_Exit c si f : row_at c si <> Exit f.
Proof.
  unfold row_at. destruct (si <? 0); [discriminate|].
  destruct (c !! Z.to_nat si); discriminate.
Qed.

Lemma row_at_insert c si row row' :
  row_at c si = Ok row -> row_at (<[Z.to_nat si := row']> c) si = Ok row'.
Proof.
  intros H. apply row_at_Ok in H as [Hs H]. apply row_at_Ok. split; [exact Hs|].
  apply list_lookup_insert_eq. eapply lookup_lt_Some; exact H.
Qed.

Lemma line_at_Ok c si li row l :
  row_at c si = Ok row -> 0 <= li -> row !! Z.to_nat li = Some l ->
  line_at c si li = Ok l.
Proof.
  intros Hr Hli Hl. unfold line_at. rewrite Hr. simpl.
  destruct (li <? 0) eqn:H; [lia|]. rewrite Hl. reflexivity.
Qed.

Lemma update_line_Ok f si li st row l :
  row_at (cache st) si = Ok row -> 0 <= li -> row !! Z.to_nat li = Some l ->
  update_line f si li st =
  Ok (set_cache_table st (<[Z.to_nat si := <[Z.to_nat li := f l]> row]> (cache st))).
Proof.
  intros Hr Hli Hl. unfold update_line.
  rewrite (line_at_Ok _ _ _ _ _ Hr Hli Hl). simpl.
  apply row_at_Ok in Hr as [_ Hr].
  rewrite (alter_is_insert _ _ _ _ Hr), (alter_is_insert _ _ _ _ Hl). reflexivity.
Qed.

(** ** What one access does, by cases on the addressed row *)

Lemma find_matched_from_bounds row tg :
  find_matched_from 0 row tg = -1 \/
  (0 <= find_matched_from 0 row tg /\
   exists l, row !! Z.to_nat (find_matched_from 0 row tg) = Some l).
Proof.
  destruct (find_matched_from_spec row 0 tg ltac:(lia)) as [[H _]|[k [H [[l [Hl _]] _]]]].
  - left; exact H.
  - right. rewrite H. split; [lia|]. exists l.
    replace (Z.to_nat (0 + Z.of_nat k)) with k by lia. exact Hl.
Qed.

Lemma find_empty_from_bounds row :
  find_empty_from 0 row = -1 \/
  (0 <= find_empty_from 0 row /\
   exists l, row !! Z.to_nat (find_empty_from 0 row) = Some l).
Proof.
  destruct (find_empty_from_spec row 0 ltac:(lia)) as [[H _]|[k [H [[l [Hl _]] _]]]].
  - left; exact H.
  - right. rewrite H. split; [lia|]. exists l.
    replace (Z.to_nat (0 + Z.of_nat k)) with k by lia. exact Hl.
Qed.

(** On a row of [n] lines the loops are the searches of the row. *)
Lemma find_matched_loop_row c si tg rest : forall pre i,
  row_at c si = Ok (pre ++ rest) -> i = Z.of_nat (length pre) ->
  find_matched_loop (length rest) i c tg si = Ok (find_matched_from i rest tg).
Proof.
  induction rest as [|l rest IH]; intros pre i Hr Hi; simpl; [reflexivity|].
  rewrite (line_at_Ok c si i (pre ++ l :: rest) l Hr) by
    (try lia; subst i; rewrite Nat2Z.id; apply list_lookup_middle; reflexivity).
  bind_steps. destruct ((valid l =? 1) && (tag l =? tg)); [reflexivity|].
  apply (IH (pre ++ [l])).
  - rewrite <- app_assoc. exact Hr.
  - rewrite length_app. simpl. lia.
Qed.

Lemma find_empty_loop_row c si rest : forall pre i,
  row_at c si = Ok (pre ++ rest) -> i = Z.of_nat (length pre) ->
  find_empty_loop (length rest) i c si = Ok (find_empty_from i rest).
Proof.
  induction rest as [|l rest IH]; intros pre i Hr Hi; simpl; [reflexivity|].
  rewrite (line_at_Ok c si i (pre ++ l :: rest) l Hr) by
    (try lia; subst i; rewrite Nat2Z.id; apply list_lookup_middle; reflexivity).
  bind_steps. destruct (valid l =? 0); [reflexivity|].
  apply (IH (pre ++ [l])).
  - rewrite <- app_assoc. exact Hr.
  - rewrite length_app. simpl. lia.
Qed.

Lemma find_LRU_loop_row c si rest : forall pre i minTime minIndex,
  row_at c si = Ok (pre ++ rest) -> i = Z.of_nat (length pre) ->
  find_LRU_loop (length rest) i c si minTime minIndex
  = Ok (find_LRU_from i rest minTime minIndex).
Proof.
  induction rest as [|l rest IH]; intros pre i mT mI Hr Hi; simpl; [reflexivity|].
  rewrite (line_at_Ok c si i (pre ++ l :: rest) l Hr) by
    (try lia; subst i; rewrite Nat2Z.id; apply list_lookup_middle; reflexivity).
  bind_steps. destruct (timeStamp l <? mT).
  - apply (IH (pre ++ [l])).
    + rewrite <- app_assoc. exact Hr.
    + rewrite length_app. simpl. lia.
  - apply (IH (pre ++ [l])).
    + rewrite <- app_assoc. exact Hr.
    + rewrite length_app. simpl. lia.
Qed.

Lemma find_matched_line_row tg si st row :
  row_at (cache st) si = Ok row -> length row = Z.to_nat (E st) ->
  find_matched_line tg si st = Ok (find_matched_from 0 row tg).
Proof.
  intros Hr Hlen. unfold find_matched_line. rewrite <- Hlen.
  apply (find_matched_loop_row _ _ _ row []); [exact Hr | reflexivity].
Qed.

Lemma find_empty_line_row si st row :
  row_at (cache st) si = Ok row -> length row = Z.to_nat (E st) ->
  find_empty_line si st = Ok (find_empty_from 0 row).
Proof.
  intros Hr Hlen. unfold find_empty_line. rewrite <- Hlen.
  apply (find_empty_loop_row _ _ row []); [exact Hr | reflexivity].
Qed.

Lemma find_LRU_row si st row :
  row_at (cache st) si = Ok row -> length row = Z.to_nat (E st) ->
  find_LRU si st = Ok (find_LRU_from 0 row 9999999 (-1)).
Proof.
  intros Hr Hlen. unfold find_LRU. rewrite <- Hlen.
  apply (find_LRU_loop_row _ _ row []); [exact Hr | reflexivity].
Qed.

Lemma step_unfold a st row :
  row_at (cache st) (a_set a) = Ok row -> length row = Z.to_nat (E st) ->
  step a st = step_on_row a row st.
Proof.
  intros Hr Hlen. destruct a as [k tg si]. simpl in Hr.
  unfold step, step_on_row, miss_state, hit_state, touch, fill; simpl.
  assert (forall st1, cache st1 = cache st -> E st1 = E st ->
            find_matched_line tg si st1 = Ok (find_matched_from 0 row tg)) as Hfm.
  { intros st1 Hc HE. apply find_matched_line_row; [rewrite Hc | rewrite HE]; assumption. }
  assert (forall st1, cache st1 = cache st -> E st1 = E st ->
            find_empty_line si st1 = Ok (find_empty_from 0 row)) as Hfe.
  { intros st1 Hc HE. apply find_empty_line_row; [rewrite Hc | rewrite HE]; assumption. }
  assert (forall st1, cache st1 = cache st -> E st1 = E st ->
            find_LRU si st1 = Ok (find_LRU_from 0 row 9999999 (-1))) as Hfl.
  { intros st1 Hc HE. apply find_LRU_row; [rewrite Hc | rewrite HE]; assumption. }
  assert (forall (f g : Line -> Line) j v st1,
    cache st1 = cache st -> 0 <= j -> row !! Z.to_nat j = Some v ->
    (st2 ← update_line f si j st1; update_line g si j st2) =
    Ok (set_cache_table st1 (<[Z.to_nat si := <[Z.to_nat j := g (f v)]> row]> (cache st))))
    as Htwice.
  { intros f g j v st1 Hc Hj Hv.
    rewrite (update_line_Ok f si j st1 row v) by (rewrite ?Hc; auto). simpl.
    rewrite (update_line_Ok g si j _ (<[Z.to_nat j := f v]> row) (f v));
      [ | simpl; eapply row_at_insert; rewrite Hc; exact Hr | exact Hj
        | apply list_lookup_insert_eq; eapply lookup_lt_Some; exact Hv ].
    unfold set_cache_table; simpl. rewrite Hc, !list_insert_insert_eq. reflexivity. }
  destruct (find_matched_from_bounds row tg) as [Hm|[Hm0 [l Hl]]].
  - (* miss *)
    destruct (find_empty_from_bounds row) as [He|[He0 [v Hv]]].
    + (* full set *)
      destruct (find_LRU_from 0 row 9999999 (-1) <? 0) eqn:Hneg.
      * destruct k; unfold load_cache, store_cache; simpl;
          rewrite Hfm by reflexivity; simpl; rewrite Hm; simpl;
          rewrite Hfe by reflexivity; simpl; rewrite He; simpl;
          rewrite Hfl by reflexivity; simpl;
          unfold line_at; rewrite Hr; simpl; rewrite Hneg; reflexivity.
      * destruct (row !! Z.to_nat (find_LRU_from 0 row 9999999 (-1))) as [v|] eqn:Hv.
        -- assert (0 <= find_LRU_from 0 row 9999999 (-1)) as Hj by lia.
           destruct k; unfold load_cache, store_cache; simpl;
             rewrite Hfm by reflexivity; simpl; rewrite Hm; simpl;
             rewrite Hfe by reflexivity; simpl; rewrite He; simpl;
             rewrite Hfl by reflexivity; simpl.
           ++ rewrite (line_at_Ok _ _ _ _ _ Hr Hj Hv); simpl.
              unfold set_cache.
              destruct (dirty v =? 1); simpl;
                rewrite (update_line_Ok _ si _ _ row v) by auto; reflexivity.
           ++ rewrite (line_at_Ok _ _ _ _ _ Hr Hj Hv); simpl.
              unfold set_cache.
              destruct (dirty v =? 1) eqn:Hd1; simpl;
                rewrite (line_at_Ok _ _ _ _ _ Hr Hj Hv); simpl;
                destruct (dirty v =? 0) eqn:Hd0; try lia;
                rewrite (Htwice _ _ _ v) by auto; reflexivity.
        -- destruct k; unfold load_cache, store_cache; simpl;
             rewrite Hfm by reflexivity; simpl; rewrite Hm; simpl;
             rewrite Hfe by reflexivity; simpl; rewrite He; simpl;
             rewrite Hfl by reflexivity; simpl;
             unfold line_at; rewrite Hr; simpl; rewrite Hneg, Hv; reflexivity.
    + (* a free line *)
      assert (negb (find_empty_from 0 row =? -1) = true) as Hne by lia.
      assert ((find_empty_from 0 row =? -1) = false) as Hne' by lia.
      destruct k; unfold load_cache, store_cache; simpl;
        rewrite Hfm by reflexivity; simpl; rewrite Hm; simpl;
        rewrite Hfe by reflexivity; simpl; rewrite Hne, Hne', Hv; simpl.
      * unfold set_cache. rewrite (update_line_Ok _ si _ _ row v) by auto. reflexivity.
      * rewrite (line_at_Ok _ _ _ _ _ Hr He0 Hv); simpl.
        unfold set_cache.
        destruct (dirty v =? 0) eqn:Hd0; rewrite (Htwice _ _ _ v) by auto; reflexivity.
  - (* hit *)
    assert (negb (find_matched_from 0 row tg =? -1) = true) as Hne by lia.
    rewrite Hne, Hl.
    destruct k; unfold load_cache, store_cache; simpl;
      rewrite Hfm by reflexivity; simpl; rewrite Hne.
    + rewrite (update_line_Ok _ si _ _ row l) by auto. reflexivity.
    + rewrite (update_line_Ok _ si _ _ row l) by auto. simpl.
      set (i := find_matched_from 0 row tg) in *.
      set (l1 := with_timeStamp (incr (time st)) l).
      rewrite (line_at_Ok _ si i (<[Z.to_nat i := l1]> row) l1);
        [ | eapply row_at_insert; exact Hr | exact Hm0
          | apply list_lookup_insert_eq; eapply lookup_lt_Some; exact Hl ].
      simpl. destruct (dirty l =? 0) eqn:Hd0.
      * rewrite (update_line_Ok _ si i _ (<[Z.to_nat i := l1]> row) l1);
          [ | simpl; eapply row_at_insert; exact Hr | exact Hm0
            | apply list_lookup_insert_eq; eapply lookup_lt_Some; exact Hl ].
        unfold set_cache_table; simpl.
        rewrite !list_insert_insert_eq. reflexivity.
      * reflexivity.
Qed.

Lemma line_at_no_row c si li :
  (forall row, row_at c si <> Ok row) -> line_at c si li = Undefined.
Proof.
  intros H. unfold line_at. destruct (row_at c si) as [row|f|] eqn:Hr.
  - exfalso. exact (H row eq_refl).
  - exfalso. exact (row_at_not_Exit _ _ _ Hr).
  - reflexivity.
Qed.

(** Without the addressed row no access has a defined outcome. *)
Lemma step_no_row a st :
  (forall row, row_at (cache st) (a_set a) <> Ok row) -> step a st = Undefined.
Proof.
  intros H. destruct a as [k tg si]. simpl in H.
  pose proof (fun li => line_at_no_row (cache st) si li H) as Hl.
  unfold step; simpl.
  destruct k; unfold load_cache, store_cache, find_matched_line, find_empty_line, find_LRU;
    simpl; destruct (Z.to_nat (E st)); simpl; rewrite ?Hl; reflexivity.
Qed.

Lemma first_at_unique P row k1 k2 : first_at P row k1 -> first_at P row k2 -> k1 = k2.
Proof.
  intros [[l1 [H1 P1]] L1] [[l2 [H2 P2]] L2].
  destruct (Nat.lt_trichotomy k1 k2) as [H|[H|H]]; [|exact H|].
  - exfalso. exact (L2 k1 l1 H H1 P1).
  - exfalso. exact (L1 k2 l2 H H2 P2).
Qed.

Lemma first_at_not_Forall P row k : first_at P row k -> ~ Forall (fun l => ~ P l) row.
Proof.
  intros [[l [H HP]] _] Hall. rewrite Forall_lookup in Hall. exact (Hall k l H HP).
Qed.

Lemma lru_at_unique row k1 k2 : lru_at row k1 -> lru_at row k2 -> k1 = k2.
Proof.
  intros [l1 [H1 M1]] [l2 [H2 M2]].
  destruct (M1 k2 l2 H2) as [A1 B1]. destruct (M2 k1 l1 H1) as [A2 B2].
  destruct (Nat.lt_trichotomy k1 k2) as [H|[H|H]]; [|exact H|]; lia.
Qed.

Lemma find_matched_from_first row tg k :
  first_at (matches tg) row k -> find_matched_from 0 row tg = Z.of_nat k.
Proof.
  intros Hk. destruct (find_matched_from_spec row 0 tg ltac:(lia)) as [[_ Hall]|[k' [He Hk']]].
  - exfalso. exact (first_at_not_Forall _ _ _ Hk Hall).
  - rewrite He, (first_at_unique _ _ _ _ Hk Hk'). lia.
Qed.

Lemma find_matched_from_none row tg :
  Forall (fun l => ~ matches tg l) row -> find_matched_from 0 row tg = -1.
Proof.
  intros Hall. destruct (find_matched_from_spec row 0 tg ltac:(lia)) as [[He _]|[k' [_ Hk']]].
  - exact He.
  - exfalso. exact (first_at_not_Forall _ _ _ Hk' Hall).
Qed.

Lemma find_empty_from_first row k :
  first_at free row k -> find_empty_from 0 row = Z.of_nat k.
Proof.
  intros Hk. destruct (find_empty_from_spec row 0 ltac:(lia)) as [[_ Hall]|[k' [He Hk']]].
  - exfalso. exact (first_at_not_Forall _ _ _ Hk Hall).
  - rewrite He, (first_at_unique _ _ _ _ Hk Hk'). lia.
Qed.

Lemma find_empty_from_none row :
  Forall (fun l => ~ free l) row -> find_empty_from 0 row = -1.
Proof.
  intros Hall. destruct (find_empty_from_spec row 0 ltac:(lia)) as [[He _]|[k' [_ Hk']]].
  - exact He.
  - exfalso. exact (first_at_not_Forall _ _ _ Hk' Hall).
Qed.

(** [find_LRU] on a row that has a time stamp below the sentinel 9999999. *)
Lemma find_LRU_from_lru row k v :
  lru_at row k -> row !! k = Some v -> timeStamp v < 9999999 ->
  find_LRU_from 0 row 9999999 (-1) = Z.of_nat k.
Proof.
  intros Hk Hv Hlt.
  destruct (find_LRU_from_spec row 0 9999999 (-1)) as [[_ Hall]|[k' [l' [He [_ [_ Hk']]]]]].
  - exfalso. rewrite Forall_lookup in Hall. specialize (Hall k v Hv). simpl in Hall. lia.
  - rewrite He, (lru_at_unique _ _ _ Hk Hk'). lia.
Qed.

(** [find_LRU] on a row whose time stamps all reach the sentinel. *)
Lemma find_LRU_from_sentinel row :
  Forall (fun l => 9999999 <= timeStamp l) row ->
  find_LRU_from 0 row 9999999 (-1) = -1.
Proof.
  intros Hall.
  destruct (find_LRU_from_spec row 0 9999999 (-1)) as [[He _]|[k' [l' [_ [Hl [Hlt _]]]]]].
  - exact He.
  - exfalso. rewrite Forall_lookup in Hall. specialize (Hall k' l' Hl). simpl in Hall. lia.
Qed.

Lemma table_ok_row st si row :
  table_ok st -> row_at (cache st) si = Ok row -> length row = Z.to_nat (E st).
Proof.
  intros Hok Hr. apply row_at_Ok in Hr as [_ Hr].
  unfold table_ok in Hok. rewrite Forall_lookup in Hok. exact (Hok _ _ Hr).
Qed.

(** An access with a defined outcome is one of the three cases. *)
Lemma step_Ok_cases a st st' :
  table_ok st -> step a st = Ok st' ->
  exists row, row_at (cache st) (a_set a) = Ok row /\ step_case a st row st'.
Proof.
  intros Hok H. destruct (row_at (cache st) (a_set a)) as [row|f|] eqn:Hr.
  - exists row. split; [reflexivity|].
    rewrite (step_unfold _ _ _ Hr (table_ok_row _ _ _ Hok Hr)) in H.
    unfold step_on_row in H.
    destruct (find_matched_from_spec row 0 (a_tag a) ltac:(lia))
      as [[Hm Hnone]|[i [Hm Hi]]].
    + rewrite Hm in H. simpl in H.
      destruct (find_empty_from_spec row 0 ltac:(lia)) as [[He Hfull]|[j [He Hj]]].
      * rewrite He in H. simpl in H.
        destruct (find_LRU_from_spec row 0 9999999 (-1))
          as [[Hl _]|[j [v [Hl [Hv [Hlt Hj]]]]]].
        -- rewrite Hl in H. simpl in H. discriminate.
        -- rewrite Hl in H.
           replace (Z.to_nat (0 + Z.of_nat j)) with j in H by lia.
           destruct (0 + Z.of_nat j <? 0) eqn:Hn; [lia|].
           rewrite Hv in H. inversion H; subst st'.
           apply case_evict; assumption.
      * rewrite He in H.
        replace (Z.to_nat (0 + Z.of_nat j)) with j in H by lia.
        destruct (negb (0 + Z.of_nat j =? -1)) eqn:Hn; [|lia].
        destruct Hj as [[v [Hv Hfree]] Hlow]. rewrite Hv in H.
        inversion H; subst st'.
        apply case_fill; [assumption | | assumption].
        split; [exists v; split; assumption | exact Hlow].
    + rewrite Hm in H.
      replace (Z.to_nat (0 + Z.of_nat i)) with i in H by lia.
      destruct (negb (0 + Z.of_nat i =? -1)) eqn:Hn; [|lia].
      destruct Hi as [[l [Hl Hmatch]] Hlow]. rewrite Hl in H.
      inversion H; subst st'.
      apply case_hit; [|assumption].
      split; [exists l; split; assumption | exact Hlow].
  - exfalso. exact (row_at_not_Exit _ _ _ Hr).
  - rewrite step_no_row in H; [discriminate|]. intros row. rewrite Hr. discriminate.
Qed.

(** Each of the three cases is the outcome of the access, on a row of [E]
    lines. *)
Lemma step_case_Ok a st st' row :
  row_at (cache st) (a_set a) = Ok row -> length row = Z.to_nat (E st) ->
  step_case a st row st' -> step a st = Ok st'.
Proof.
  intros Hr Hlen Hc. rewrite (step_unfold _ _ _ Hr Hlen). unfold step_on_row.
  destruct Hc as [i l Hi Hl | j v Hnone Hj Hv | j v Hnone Hfull Hj Hv Hlt];
    [pose proof (Nat2Z.is_nonneg i) | pose proof (Nat2Z.is_nonneg j)
     | pose proof (Nat2Z.is_nonneg j)].
  - rewrite (find_matched_from_first _ _ _ Hi).
    destruct (negb (Z.of_nat i =? -1)) eqn:Hn; [|exfalso; lia].
    rewrite Nat2Z.id, Hl. reflexivity.
  - rewrite (find_matched_from_none _ _ Hnone). simpl.
    rewrite (find_empty_from_first _ _ Hj).
    destruct (negb (Z.of_nat j =? -1)) eqn:Hn; [|exfalso; lia].
    rewrite Nat2Z.id, Hv. reflexivity.
  - rewrite (find_matched_from_none _ _ Hnone). simpl.
    rewrite (find_empty_from_none _ Hfull). simpl.
    rewrite (find_LRU_from_lru _ _ _ Hj Hv Hlt).
    destruct (Z.of_nat j <? 0) eqn:Hn; [exfalso; lia|].
    rewrite Nat2Z.id, Hv. reflexivity.
Qed.

(** An access keeps the shape of the table and the configuration. *)
Lemma step_table_ok a st st' : table_ok st -> step a st = Ok st' -> table_ok st'.
Proof.
  intros Hok H. pose proof Hok as Hok0.
  destruct (step_Ok_cases _ _ _ Hok H) as [row [Hr Hc]].
  pose proof (table_ok_row _ _ _ Hok Hr) as Hlen.
  unfold table_ok in *.
  destruct Hc; simpl; (apply Forall_insert; [exact Hok | rewrite length_insert; exact Hlen]).
Qed.

Lemma init_table_ok s b E0 st : init_cache s b E0 = Ok st -> table_ok st.
Proof.
  unfold init_cache, shl_int.
  destruct ((0 <=? s) && (s <? 32)); simpl; [|discriminate].
  destruct ((0 <=? b) && (b <? 32)); simpl; [|discriminate].
  intros H. inversion H; subst. unfold table_ok; simpl.
  apply Forall_replicate. apply length_replicate.
Qed.


(** ** Sequencing *)

Lemma run_cons a ops st : run (a :: ops) st = (st' ← step a st; run ops st').
Proof. reflexivity. Qed.

Lemma run_app ops1 : forall ops2 st,
  run (ops1 ++ ops2) st = (st' ← run ops1 st; run ops2 st').
Proof.
  induction ops1 as [|a ops1 IH]; intros ops2 st; simpl.
  - reflexivity.
  - destruct (step a st); simpl; [apply IH | reflexivity | reflexivity].
Qed.

Lemma run_table_ok ops : forall st st',
  table_ok st -> run ops st = Ok st' -> table_ok st'.
Proof.
  induction ops as [|a ops IH]; intros st st' Hok Hrun.
  - simpl in Hrun. inversion Hrun; subst. exact Hok.
  - rewrite run_cons in Hrun. destruct (step a st) as [st1| |] eqn:Hs; try discriminate.
    rewrite bind_Ok in Hrun. exact (IH _ _ (step_table_ok _ _ _ Hok Hs) Hrun).
Qed.

Lemma reachable_table_ok s b E0 ops st : reachable s b E0 ops st -> table_ok st.
Proof.
  intros [st0 [Hinit Hrun]]. exact (run_table_ok _ _ _ (init_table_ok _ _ _ _ Hinit) Hrun).
Qed.

(** ** Traces and runs *)

(** What [process_trace_file] does is a run of decoded accesses: a trace
    that is processed to the end leaves the globals in a state that as many
    accesses reach. *)
Lemma process_trace_file_runs trace : forall s E0 b st st',
  process_trace_file trace s E0 b st = Ok st' ->
  exists ops, length ops = length trace /\ run ops st = Ok st'.
Proof.
  induction trace as [|r trace IH]; intros s E0 b st st' H.
  - exists []. split; [reflexivity | exact H].
  - simpl in H.
    destruct (Z.of_N (addr r) <? 0); [discriminate|].
    destruct ((size r <? 0) || (size r >=? MAX_SIZE)); [discriminate|].
    destruct (decode s b (Z.of_N (addr r))) as [[tg si]| |]; simpl in H; try discriminate.
    destruct (is_L (action r)).
    + destruct (load_cache tg si st) as [st1| |] eqn:Hs; simpl in H; try discriminate.
      destruct (IH _ _ _ _ _ H) as [ops [Hlen Hrun]].
      exists (mkAccess Load tg si :: ops). split; [simpl; lia|].
      rewrite run_cons. unfold step; simpl. rewrite Hs. exact Hrun.
    + destruct (is_S (action r)); [|discriminate].
      destruct (store_cache tg si st) as [st1| |] eqn:Hs; simpl in H; try discriminate.
      destruct (IH _ _ _ _ _ H) as [ops [Hlen Hrun]].
      exists (mkAccess Store tg si :: ops). split; [simpl; lia|].
      rewrite run_cons. unfold step; simpl. rewrite Hs. exact Hrun.
Qed.

Lemma process_trace_file_reachable s b E0 trace st0 st :
  init_cache s b E0 = Ok st0 ->
  process_trace_file trace s E0 b st0 = Ok st ->
  exists ops, length ops = length trace /\ reachable s b E0 ops st.
Proof.
  intros Hinit H. destruct (process_trace_file_runs _ _ _ _ _ _ H) as [ops [Hlen Hrun]].
  exists ops. split; [exact Hlen|]. exists st0. split; assumption.
Qed.

(** With s = 0 and b = 0 an address below 2^63 is its own tag, in set 0. *)
Lemma decode_0_0 a : 0 <= a < 2 ^ 63 -> decode 0 0 a = Ok (a, 0).
Proof.
  intros Ha. unfold decode, shr_ulong, shl_int.
  change (to_uint (add_int 0 0)) with 0. change (to_uint 0) with 0.
  simpl. rewrite Z.land_0_r. f_equal. f_equal.
  unfold to_long, wrap_signed.
  change (2 ^ (64 - 1)) with 9223372036854775808.
  change (2 ^ 64) with 18446744073709551616.
  change (2 ^ 63) with 9223372036854775808 in Ha.
  rewrite Z.shiftr_0_r. lia.
Qed.

(** ** A miss with a free line in the set *)

Lemma Exists_first_free row : Exists free row -> exists j, first_at free row j.
Proof.
  intros Hex. destruct (find_empty_from_spec row 0 ltac:(lia)) as [[_ Hall]|[j [_ Hj]]].
  - exfalso. apply Exists_exists in Hex as [l [Hin Hl]].
    rewrite Forall_forall in Hall. exact (Hall l Hin Hl).
  - exists j. exact Hj.
Qed.

Lemma Exists_first_match tg row : Exists (matches tg) row -> exists i, first_at (matches tg) row i.
Proof.
  intros Hex.
  destruct (find_matched_from_spec row 0 tg ltac:(lia)) as [[_ Hall]|[j [_ Hj]]].
  - exfalso. apply Exists_exists in Hex as [l [Hin Hl]].
    rewrite Forall_forall in Hall. exact (Hall l Hin Hl).
  - exists j. exact Hj.
Qed.

(** C10.  A load or a store that misses while the addressed set (a row of
    [E] lines) has a free line (valid = 0) fills the free line of lowest
    index: the table changes at that line only, which receives the new tag
    and the new clock value; [eviction] and [dirtyEvicted] keep their
    values. *)
Theorem miss_fills_first_free (tg si : Z) (st : state) (row : list Line) :
  row_at (cache st) si = Ok row ->
  length row = Z.to_nat (E st) ->
  Forall (fun l => ~ matches tg l) row ->
  Exists free row ->
  exists j : nat,
    first_at free row j /\
    (exists st', load_cache tg si st = Ok st' /\
       cache st' = <[Z.to_nat si := <[j := mkLine 1 tg 0 (time st')]> row]> (cache st) /\
       eviction st' = eviction st /\ dirtyEvicted st' = dirtyEvicted st) /\
    (exists st', store_cache tg si st = Ok st' /\
       cache st' = <[Z.to_nat si := <[j := mkLine 1 tg 1 (time st')]> row]> (cache st) /\
       eviction st' = eviction st /\ dirtyEvicted st' = dirtyEvicted st).
Proof.
  intros Hr Hlen Hmiss Hfree.
  destruct (Exists_first_free row Hfree) as [j Hj].
  destruct Hj as [[v [Hv Hvf]] Hlow].
  assert (first_at free row j) as Hj by (split; [exists v; split; assumption | exact Hlow]).
  exists j. split; [exact Hj|].
  split.
  - exists (miss_state Load false tg (Z.to_nat si) j row v st). split; [|repeat split].
    apply (step_case_Ok (mkAccess Load tg si) st _ row Hr Hlen).
    apply (case_fill (mkAccess Load tg si)); assumption.
  - exists (miss_state Store false tg (Z.to_nat si) j row v st). split; [|repeat split].
    apply (step_case_Ok (mkAccess Store tg si) st _ row Hr Hlen).
    apply (case_fill (mkAccess Store tg si)); assumption.
Qed.

Lemma init_cache_0_0_1 : init_cache 0 0 1 = Ok one_line_state.
Proof. reflexivity. Qed.

Lemma miss_fills_first_free_witness :
  exists j : nat,
    first_at free [empty_line] j /\
    (exists st', load_cache 5 0 one_line_state = Ok st' /\
       cache st' = <[Z.to_nat 0 := <[j := mkLine 1 5 0 (time st')]> [empty_line]]>
                     (cache one_line_state) /\
       eviction st' = eviction one_line_state /\
       dirtyEvicted st' = dirtyEvicted one_line_state) /\
    (exists st', store_cache 5 0 one_line_state = Ok st' /\
       cache st' = <[Z.to_nat 0 := <[j := mkLine 1 5 1 (time st')]> [empty_line]]>
                     (cache one_line_state) /\
       eviction st' = eviction one_line_state /\
       dirtyEvicted st' = dirtyEvicted one_line_state).
Proof.
  apply (miss_fills_first_free 5 0 one_line_state [empty_line]).
  - reflexivity.
  - reflexivity.
  - constructor; [|constructor]. unfold matches; simpl. lia.
  - constructor. reflexivity.
Defined.

(** ** A load that hits *)

(** C7, as the code has it.  A load that hits in the addressed set (a row
    of [E] lines) rewrites the time stamp of the first matching line with
    the new clock value and leaves the rest of the table alone; [hit] and
    [time] are incremented as [int]s, which is an increase by one except at
    [INT_MAX], where the counter wraps to [INT_MIN]; [miss], [eviction],
    [dirtyInCache], [dirtyEvicted] and the configuration keep their
    values. *)
Theorem load_hit_effect (tg si : Z) (st : state) (row : list Line) :
  row_at (cache st) si = Ok row ->
  length row = Z.to_nat (E st) ->
  Exists (matches tg) row ->
  exists (i : nat) (l : Line) (st' : state),
    first_at (matches tg) row i /\ row !! i = Some l /\
    load_cache tg si st = Ok st' /\
    cache st' =
      <[Z.to_nat si := <[i := mkLine (valid l) (tag l) (dirty l) (time st')]> row]>
        (cache st) /\
    time st' = incr (time st) /\
    hit st' = incr (hit st) /\
    (INT_MIN <= hit st < INT_MAX -> hit st' = hit st + 1) /\
    (hit st = INT_MAX -> hit st' = INT_MIN) /\
    miss st' = miss st /\ eviction st' = eviction st /\
    dirtyInCache st' = dirtyInCache st /\ dirtyEvicted st' = dirtyEvicted st /\
    S_ st' = S_ st /\ B st' = B st /\ E st' = E st.
Proof.
  intros Hr Hlen Hex.
  destruct (Exists_first_match tg row Hex) as [i Hi].
  destruct Hi as [[l [Hl Hm]] Hlow].
  assert (first_at (matches tg) row i) as Hi
    by (split; [exists l; split; assumption | exact Hlow]).
  exists i, l, (hit_state Load (Z.to_nat si) i row l st).
  split; [exact Hi|]. split; [exact Hl|]. split.
  { apply (step_case_Ok (mkAccess Load tg si) st _ row Hr Hlen).
    apply (case_hit (mkAccess Load tg si)); assumption. }
  simpl. repeat split.
  - apply incr_exact.
  - intros ->. reflexivity.
Qed.

Lemma load_hit_effect_witness :
  exists (i : nat) (l : Line) (st' : state),
    first_at (matches 7) [mkLine 1 7 0 1] i /\ [mkLine 1 7 0 1] !! i = Some l /\
    load_cache 7 0 (mkState [[mkLine 1 7 0 1]] 0 1 0 0 0 1 1 1 1) = Ok st' /\
    cache st' =
      <[Z.to_nat 0 := <[i := mkLine (valid l) (tag l) (dirty l) (time st')]> [mkLine 1 7 0 1]]>
        [[mkLine 1 7 0 1]] /\
    time st' = incr 1 /\
    hit st' = incr 0 /\
    (INT_MIN <= 0 < INT_MAX -> hit st' = 0 + 1) /\
    (0 = INT_MAX -> hit st' = INT_MIN) /\
    miss st' = 1 /\ eviction st' = 0 /\
    dirtyInCache st' = 0 /\ dirtyEvicted st' = 0 /\
    S_ st' = 1 /\ B st' = 1 /\ E st' = 1.
Proof.
  apply (load_hit_effect 7 0 (mkState [[mkLine 1 7 0 1]] 0 1 0 0 0 1 1 1 1) [mkLine 1 7 0 1]).
  - reflexivity.
  - reflexivity.
  - constructor. split; reflexivity.
Defined.

(** ** Long runs on one line *)

Lemma incr_to_int n : incr (to_int n) = to_int (n + 1).
Proof. unfold incr. apply to_int_add_l. Qed.

Lemma decr_to_int n : decr (to_int n) = to_int (n - 1).
Proof. unfold decr. apply to_int_sub_l. Qed.

Lemma step_same_tag k m :
  step (mkAccess k 0 0) (same_tag_state k m) = Ok (same_tag_state k (m + 1)).
Proof.
  rewrite (step_unfold _ _ [mkLine 1 0 (dirty_bit k) (to_int m)]) by reflexivity.
  unfold step_on_row, hit_state, same_tag_state, touch. simpl.
  rewrite !incr_to_int. replace (m + 1 - 1) with (m - 1 + 1) by lia.
  destruct k; reflexivity.
Qed.

Lemma run_same_tag_from k (n : nat) : forall m,
  run (replicate n (mkAccess k 0 0)) (same_tag_state k m)
  = Ok (same_tag_state k (m + Z.of_nat n)).
Proof.
  induction n as [|n IH]; intros m.
  - simpl. rewrite Z.add_0_r. reflexivity.
  - simpl replicate. simpl run. rewrite step_same_tag. simpl.
    rewrite IH. f_equal. f_equal. lia.
Qed.

Lemma run_same_tag k (n : Z) :
  1 <= n ->
  run (replicate (Z.to_nat n) (mkAccess k 0 0)) one_line_state = Ok (same_tag_state k n).
Proof.
  intros Hn. replace (Z.to_nat n) with (S (Z.to_nat (n - 1))) by lia.
  simpl replicate. simpl run.
  assert (step (mkAccess k 0 0) one_line_state = Ok (same_tag_state k 1)) as ->
    by (destruct k; reflexivity).
  simpl. rewrite run_same_tag_from. f_equal. f_equal. lia.
Qed.

(** After 2^31 loads of one address the hit counter stands at [INT_MAX] and
    the clock has wrapped to [INT_MIN]; the next load, a hit, takes the hit
    counter to [INT_MIN]. *)
Lemma load_hit_wraps_hit_counter :
  exists st st',
    reachable 0 0 1 (replicate (Z.to_nat 2147483648) (mkAccess Load 0 0)) st /\
    row_at (cache st) 0 = Ok [mkLine 1 0 0 (-2147483648)] /\
    matches 0 (mkLine 1 0 0 (-2147483648)) /\
    load_cache 0 0 st = Ok st' /\
    hit st = 2147483647 /\ hit st' = -2147483648 /\ hit st' <> hit st + 1.
Proof.
  exists (same_tag_state Load 2147483648), (same_tag_state Load 2147483649).
  split.
  { exists one_line_state. split; [reflexivity|]. apply run_same_tag. lia. }
  split; [reflexivity|]. split; [split; reflexivity|].
  split; [exact (step_same_tag Load 2147483648)|].
  split; [reflexivity|]. split; [reflexivity|].
  vm_compute. discriminate.
Qed.

(** ** A store that evicts a dirty line *)

(** C3, as the code has it.  A store that misses in a full set (a row of
    [E] lines, none free) and whose victim, the line [find_LRU] picks, is
    dirty increments [dirtyEvicted] and [eviction] as [int]s (an increase by
    one except at [INT_MAX], where the counter wraps) and leaves
    [dirtyInCache] unchanged.  Scenario D: with s = 0, b = 0, E = 1 the
    stream Store(0,1), Store(1,1) is reported as evictions = 1,
    dirty_evictions = 1, dirty_bytes = 1. *)
Theorem store_evicts_dirty (tg si : Z) (st : state) (row : list Line) (j : Z) (v : Line) :
  row_at (cache st) si = Ok row ->
  length row = Z.to_nat (E st) ->
  Forall (fun l => ~ matches tg l) row ->
  Forall (fun l => ~ free l) row ->
  find_LRU si st = Ok j ->
  line_at (cache st) si j = Ok v ->
  dirty v = 1 ->
  (exists st', store_cache tg si st = Ok st' /\
     dirtyEvicted st' = incr (dirtyEvicted st) /\
     eviction st' = incr (eviction st) /\
     dirtyInCache st' = dirtyInCache st /\
     (INT_MIN <= dirtyEvicted st < INT_MAX -> dirtyEvicted st' = dirtyEvicted st + 1) /\
     (INT_MIN <= eviction st < INT_MAX -> eviction st' = eviction st + 1)) /\
  main 0 0 1 [mkTraceLine "S" 0 1; mkTraceLine "S" 1 1]
  = Ok (mkStats 0 2 1 1 1).
Proof.
  intros Hr Hlen Hmiss Hfull Hlru Hv Hd. split; [|reflexivity].
  rewrite (find_LRU_row _ _ _ Hr Hlen) in Hlru.
  inversion Hlru as [Hj]. clear Hlru.
  unfold line_at in Hv. rewrite Hr in Hv. simpl in Hv.
  destruct (j <? 0) eqn:Hneg; [discriminate|].
  destruct (row !! Z.to_nat j) as [v'|] eqn:Hrow; [|discriminate].
  inversion Hv; subst v'. clear Hv.
  exists (miss_state Store true tg (Z.to_nat si) (Z.to_nat j) row v st).
  split.
  - change (step (mkAccess Store tg si) st =
            Ok (miss_state Store true tg (Z.to_nat si) (Z.to_nat j) row v st)).
    rewrite (step_unfold (mkAccess Store tg si) st row Hr Hlen). unfold step_on_row. simpl.
    rewrite (find_matched_from_none _ _ Hmiss). simpl.
    rewrite (find_empty_from_none _ Hfull). simpl.
    rewrite Hj, Hneg, Hrow. reflexivity.
  - simpl. rewrite Hd. simpl. repeat split; apply incr_exact.
Qed.

Lemma store_evicts_dirty_witness :
  (exists st', store_cache 1 0 (mkState [[mkLine 1 0 1 1]] 0 1 0 1 0 1 1 1 1) = Ok st' /\
     dirtyEvicted st' = incr 0 /\
     eviction st' = incr 0 /\
     dirtyInCache st' = 1 /\
     (INT_MIN <= 0 < INT_MAX -> dirtyEvicted st' = 0 + 1) /\
     (INT_MIN <= 0 < INT_MAX -> eviction st' = 0 + 1)) /\
  main 0 0 1 [mkTraceLine "S" 0 1; mkTraceLine "S" 1 1]
  = Ok (mkStats 0 2 1 1 1).
Proof.
  apply (store_evicts_dirty 1 0 (mkState [[mkLine 1 0 1 1]] 0 1 0 1 0 1 1 1 1)
           [mkLine 1 0 1 1] 0 (mkLine 1 0 1 1)).
  - reflexivity.
  - reflexivity.
  - constructor; [|constructor]. unfold matches; simpl. lia.
  - constructor; [|constructor]. unfold free; simpl. lia.
  - reflexivity.
  - reflexivity.
  - reflexivity.
Defined.

Lemma step_evicting k :
  0 <= k < 2147483648 ->
  step (mkAccess Store (k + 1) 0) (evicting_state k) = Ok (evicting_state (k + 1)).
Proof.
  intros Hk.
  set (v := mkLine 1 k 1 (to_int (2147483648 + k))).
  assert (timeStamp v < 9999999) as Hts by (simpl; rewrite to_int_eq; lia).
  assert (Forall (fun l => ~ matches (k + 1) l) [v]) as Hmiss.
  { constructor; [|constructor]. unfold matches; simpl. lia. }
  assert (Forall (fun l => ~ free l) [v]) as Hfull.
  { constructor; [|constructor]. unfold free; simpl. lia. }
  rewrite (step_unfold _ _ [v]) by reflexivity.
  unfold step_on_row. simpl a_tag.
  rewrite (find_matched_from_none _ _ Hmiss).
  change (negb (-1 =? -1)) with false. cbv iota zeta.
  rewrite (find_empty_from_none _ Hfull).
  change (negb (-1 =? -1)) with false. cbv iota zeta.
  assert (find_LRU_from 0 [v] 9999999 (-1) = 0) as ->.
  { simpl. destruct (to_int (2147483648 + k) <? 9999999) eqn:H; [reflexivity|].
    simpl in Hts. lia. }
  simpl. unfold miss_state, evicting_state. simpl.
  rewrite !incr_to_int.
  replace (2147483648 + k + 1) with (2147483648 + (k + 1)) by lia.
  replace (1 + k + 1) with (1 + (k + 1)) by lia.
  reflexivity.
Qed.

Lemma run_evicting (n : nat) : forall m : nat,
  Z.of_nat m + Z.of_nat n <= 2147483648 ->
  run (map store_tag (seq (S m) n)) (evicting_state (Z.of_nat m))
  = Ok (evicting_state (Z.of_nat m + Z.of_nat n)).
Proof.
  induction n as [|n IH]; intros m Hm.
  - simpl. rewrite Z.add_0_r. reflexivity.
  - simpl seq. simpl map. rewrite run_cons.
    replace (store_tag (S m)) with (mkAccess Store (Z.of_nat m + 1) 0)
      by (unfold store_tag; f_equal; lia).
    rewrite step_evicting by lia. simpl mbind.
    replace (Z.of_nat m + 1) with (Z.of_nat (S m)) by lia.
    rewrite IH by lia. f_equal. f_equal. lia.
Qed.

Lemma run_two_phases (m n : Z) :
  m = 2147483648 -> 0 <= n <= 2147483648 ->
  run (replicate (Z.to_nat m) (mkAccess Store 0 0) ++ map store_tag (seq 1 (Z.to_nat n)))
      one_line_state
  = Ok (evicting_state n).
Proof.
  intros Hm Hn. rewrite run_app, run_same_tag by lia. rewrite bind_Ok. subst m.
  change (same_tag_state Store 2147483648) with (evicting_state (Z.of_nat 0)).
  rewrite run_evicting by lia. f_equal. f_equal. lia.
Qed.

Lemma run_long_store_run :
  run long_store_run one_line_state = Ok (evicting_state 2147483647).
Proof. unfold long_store_run. apply run_two_phases; lia. Qed.

(** After [long_store_run] both eviction counters stand at [INT_MAX]; one
    more store that evicts the dirty line takes them to [INT_MIN]. *)
Lemma store_evict_wraps_eviction_counters :
  exists st st',
    reachable 0 0 1 long_store_run st /\
    row_at (cache st) 0 = Ok [mkLine 1 2147483647 1 (-1)] /\
    ~ matches 2147483648 (mkLine 1 2147483647 1 (-1)) /\
    ~ free (mkLine 1 2147483647 1 (-1)) /\
    find_LRU 0 st = Ok 0 /\
    store_cache 2147483648 0 st = Ok st' /\
    eviction st = 2147483647 /\ dirtyEvicted st = 2147483647 /\
    eviction st' = -2147483648 /\ dirtyEvicted st' = -2147483648 /\
    eviction st' <> eviction st + 1 /\ dirtyEvicted st' <> dirtyEvicted st + 1 /\
    dirtyInCache st' = dirtyInCache st.
Proof.
  exists (evicting_state 2147483647), (evicting_state 2147483648).
  split.
  { exists one_line_state. split; [reflexivity | exact run_long_store_run]. }
  split; [reflexivity|].
  split; [unfold matches; simpl; lia|].
  split; [unfold free; simpl; lia|].
  split; [reflexivity|].
  split; [exact (step_evicting 2147483647 ltac:(lia))|].
  repeat split; try reflexivity; vm_compute; discriminate.
Qed.

(** ** The victim search *)

(** When some line of the row carries a time stamp below the sentinel
    9999999, [find_LRU] returns the first position of the smallest time
    stamp. *)
Lemma find_LRU_below_sentinel row :
  Exists (fun l => timeStamp l < 9999999) row ->
  exists k, find_LRU_from 0 row 9999999 (-1) = Z.of_nat k /\ lru_at row k.
Proof.
  intros Hex.
  destruct (find_LRU_from_spec row 0 9999999 (-1)) as [[_ Hall]|[k [l [He [_ [_ Hk]]]]]].
  - exfalso. apply Exists_exists in Hex as [l [Hin Hl]].
    rewrite Forall_forall in Hall. specialize (Hall l Hin). simpl in Hall. lia.
  - exists k. split; [rewrite He; lia | exact Hk].
Qed.

(** A miss in a full set that has a time stamp below the sentinel
    overwrites the line of smallest time stamp, the first one among equals. *)
Lemma miss_in_full_set_overwrites_lru a st row :
  row_at (cache st) (a_set a) = Ok row ->
  length row = Z.to_nat (E st) ->
  Forall (fun l => ~ matches (a_tag a) l) row ->
  Forall (fun l => ~ free l) row ->
  Exists (fun l => timeStamp l < 9999999) row ->
  exists j v, lru_at row j /\ row !! j = Some v /\
    step a st = Ok (miss_state (a_kind a) true (a_tag a) (Z.to_nat (a_set a)) j row v st).
Proof.
  intros Hr Hlen Hmiss Hfull Hex.
  destruct (find_LRU_from_spec row 0 9999999 (-1)) as [[_ Hall]|[j [v [_ [Hv [Hlt Hj]]]]]].
  - exfalso. apply Exists_exists in Hex as [l [Hin Hl]].
    rewrite Forall_forall in Hall. specialize (Hall l Hin). simpl in Hall. lia.
  - exists j, v. split; [exact Hj|]. split; [exact Hv|].
    apply (step_case_Ok _ _ _ row Hr Hlen).
    apply case_evict; assumption.
Qed.

(** C2 at the failing input.  One set of one line (s = 0, b = 0, E = 1) and
    9999999 loads of address 0: the only line is valid with time stamp
    9999999, which is not below the initial [minTime] of [find_LRU].  A load
    or store of another tag misses in the full set; [find_LRU] returns -1,
    not the index 0 of the valid line with the smallest time stamp, and the
    access goes on to [cache[0][-1]]. *)
Theorem find_LRU_misses_late_lines :
  exists st,
    reachable 0 0 1 (replicate (Z.to_nat 9999999) (mkAccess Load 0 0)) st /\
    cache st = [[mkLine 1 0 0 9999999]] /\
    find_matched_line 1 0 st = Ok (-1) /\
    find_empty_line 0 st = Ok (-1) /\
    lru_at [mkLine 1 0 0 9999999] 0 /\
    find_LRU 0 st = Ok (-1) /\
    load_cache 1 0 st = Undefined /\
    store_cache 1 0 st = Undefined.
Proof.
  exists (same_tag_state Load 9999999).
  split.
  { exists one_line_state. split; [reflexivity|]. apply run_same_tag. lia. }
  split; [reflexivity|]. split; [reflexivity|]. split; [reflexivity|].
  split.
  { exists (mkLine 1 0 0 9999999). split; [reflexivity|].
    intros [|k'] l' Hl'; simpl in Hl'; [|discriminate].
    inversion Hl'; subst l'. simpl. lia. }
  split; [reflexivity|]. split; reflexivity.
Qed.

(** ** Address decomposition *)

Lemma to_uint_small z : 0 <= z < 4294967296 -> to_uint z = z.
Proof. intros. unfold to_uint. apply Z.mod_small. lia. Qed.

Lemma to_ulong_small z : 0 <= z < 18446744073709551616 -> to_ulong z = z.
Proof. intros. unfold to_ulong. apply Z.mod_small. lia. Qed.

Lemma pow2_le_31 n : 0 <= n <= 31 -> 1 <= 2 ^ n <= 2147483648.
Proof.
  intros Hn. split.
  - pose proof (Z.pow_pos_nonneg 2 n ltac:(lia) ltac:(lia)). lia.
  - change 2147483648 with (2 ^ 31). apply Z.pow_le_mono_r; lia.
Qed.

Lemma mask_int n : 0 <= n <= 31 -> sub_int (to_int (1 * 2 ^ n)) 1 = 2 ^ n - 1.
Proof.
  intros Hn. unfold sub_int. rewrite to_int_sub_l, Z.mul_1_l.
  pose proof (pow2_le_31 n Hn). apply to_int_small. unfold INT_MIN, INT_MAX. lia.
Qed.

Lemma index_bits a s b :
  0 <= s -> 0 <= b ->
  Z.shiftr (Z.land a (2 ^ (s + b) - 1)) b = (Z.shiftr a b) mod 2 ^ s.
Proof.
  intros Hs Hb.
  replace (2 ^ (s + b) - 1) with (Z.ones (s + b)) by (rewrite Z.ones_equiv; lia).
  rewrite Z.land_ones by lia. rewrite <- (Z.land_ones (Z.shiftr a b) s) by lia.
  rewrite <- (Z.land_ones a (s + b)) by lia.
  apply Z.bits_inj'. intros i Hi.
  rewrite Z.shiftr_spec, !Z.land_spec, Z.shiftr_spec by lia.
  f_equal. rewrite !Z.testbit_ones_nonneg by lia.
  destruct (i + b <? s + b) eqn:H1, (i <? s) eqn:H2; try reflexivity; lia.
Qed.

(** With at most 31 index and offset bits the decomposition is the intended
    one; the tag is the [long] holding the bits of [a >> (s + b)]. *)
Lemma decode_narrow s b a :
  0 <= s -> 0 <= b -> s + b <= 31 -> 0 <= a < 2 ^ 64 ->
  decode s b a = Ok (to_long (Z.shiftr a (s + b)), (Z.shiftr a b) mod 2 ^ s).
Proof.
  intros Hs Hb Hsb Ha. unfold decode, add_int.
  rewrite (to_int_small (s + b)) by (unfold INT_MIN, INT_MAX; lia).
  rewrite (to_uint_small (s + b)), (to_uint_small b) by lia.
  unfold shr_ulong, shl_int.
  destruct ((0 <=? s + b) && (s + b <? 64)) eqn:H1; [|lia].
  destruct ((0 <=? s + b) && (s + b <? 32)) eqn:H2; [|lia].
  destruct ((0 <=? b) && (b <? 64)) eqn:H3; [|lia].
  simpl. rewrite mask_int by lia.
  pose proof (pow2_le_31 (s + b) ltac:(lia)).
  rewrite to_ulong_small by lia.
  rewrite index_bits by lia.
  f_equal. f_equal. apply to_int_small.
  pose proof (pow2_le_31 s ltac:(lia)).
  pose proof (Z.mod_pos_bound (Z.shiftr a b) (2 ^ s) ltac:(lia)).
  unfold INT_MIN, INT_MAX. lia.
Qed.

(** From 32 index and offset bits on the mask [1 << (s + b)] is a shift of
    an [int] by at least its width. *)
Lemma decode_wide s b a :
  0 <= s -> 0 <= b -> 32 <= s + b <= 64 -> decode s b a = Undefined.
Proof.
  intros Hs Hb Hsb. unfold decode, add_int.
  rewrite (to_int_small (s + b)) by (unfold INT_MIN, INT_MAX; lia).
  rewrite (to_uint_small (s + b)) by lia.
  unfold shr_ulong, shl_int.
  destruct ((0 <=? s + b) && (s + b <? 64)) eqn:H1;
    destruct ((0 <=? s + b) && (s + b <? 32)) eqn:H2; try reflexivity; lia.
Qed.

(** C4 at the failing input.  s = 16 and b = 16 pass [checkValidInput]
    (s + b = 32 <= 64).  For the address 0x10000 the claimed decomposition
    is tag 0 and set index 1; the code shifts the [int] 1 by 32, which has
    no defined result. *)
Theorem decode_16_16_undefined :
  checkValidInput 16 16 1 = Ok tt /\
  Z.shiftr 65536 (16 + 16) = 0 /\
  (Z.shiftr 65536 16) mod 2 ^ 16 = 1 /\
  shl_int 1 (to_uint (add_int 16 16)) = Undefined /\
  decode 16 16 65536 = Undefined.
Proof. repeat split; reflexivity. Qed.

(** ** Sizes out of range *)

Lemma process_bad_size r rest s E0 b st :
  bad_size r -> process_trace_file (r :: rest) s E0 b st = Exit SizeOutOfRange.
Proof.
  intros Hbad. unfold bad_size in Hbad. simpl.
  pose proof (N2Z.is_nonneg (addr r)) as Hnn.
  destruct (Z.of_N (addr r) <? 0) eqn:Ha; [exfalso; lia|].
  destruct ((size r <? 0) || (size r >=? MAX_SIZE)) eqn:Hs; [reflexivity|].
  exfalso. unfold MAX_SIZE in Hs. lia.
Qed.

Lemma process_app pre : forall post s E0 b st,
  process_trace_file (pre ++ post) s E0 b st
  = (st' ← process_trace_file pre s E0 b st; process_trace_file post s E0 b st').
Proof.
  induction pre as [|r pre IH]; intros post s E0 b st.
  - reflexivity.
  - simpl.
    destruct (Z.of_N (addr r) <? 0); [reflexivity|].
    destruct ((size r <? 0) || (size r >=? MAX_SIZE)); [reflexivity|].
    destruct (decode s b (Z.of_N (addr r))) as [[tg si]| |]; simpl; try reflexivity.
    destruct (if is_L (action r) then load_cache tg si st
              else if is_S (action r) then store_cache tg si st
              else Exit InvalidAction); simpl; [apply IH | reflexivity | reflexivity].
Qed.

Lemma no_exit_bind {A C} (m : outcome A) (k : A -> outcome C) :
  no_exit m -> (forall a, no_exit (k a)) -> no_exit (m ≫= k).
Proof. intros [a|] Hk; [apply Hk | constructor]. Qed.

Lemma no_exit_row_at c si : no_exit (row_at c si).
Proof.
  unfold row_at. destruct (si <? 0); [constructor|].
  destruct (c !! Z.to_nat si); constructor.
Qed.

Lemma no_exit_line_at c si li : no_exit (line_at c si li).
Proof.
  unfold line_at. apply no_exit_bind; [apply no_exit_row_at|]. intros row.
  destruct (li <? 0); [constructor|]. destruct (row !! Z.to_nat li); constructor.
Qed.

Lemma no_exit_update_line f si li st : no_exit (update_line f si li st).
Proof.
  unfold update_line. apply no_exit_bind; [apply no_exit_line_at|]. intros _. constructor.
Qed.

Lemma no_exit_find_matched_loop n : forall i c tg si,
  no_exit (find_matched_loop n i c tg si).
Proof.
  induction n as [|n IH]; intros i c tg si; simpl; [constructor|].
  apply no_exit_bind; [apply no_exit_line_at|]. intros l.
  destruct ((valid l =? 1) && (tag l =? tg)); [constructor | apply IH].
Qed.

Lemma no_exit_find_empty_loop n : forall i c si, no_exit (find_empty_loop n i c si).
Proof.
  induction n as [|n IH]; intros i c si; simpl; [constructor|].
  apply no_exit_bind; [apply no_exit_line_at|]. intros l.
  destruct (valid l =? 0); [constructor | apply IH].
Qed.

Lemma no_exit_find_LRU_loop n : forall i c si minTime minIndex,
  no_exit (find_LRU_loop n i c si minTime minIndex).
Proof.
  induction n as [|n IH]; intros i c si mT mI; simpl; [constructor|].
  apply no_exit_bind; [apply no_exit_line_at|]. intros l.
  destruct (timeStamp l <? mT); apply IH.
Qed.

Ltac no_exit_step :=
  first
    [ apply no_exit_Ok
    | apply no_exit_Undefined
    | apply no_exit_line_at
    | apply no_exit_update_line
    | apply no_exit_find_matched_loop
    | apply no_exit_find_empty_loop
    | apply no_exit_find_LRU_loop
    | apply no_exit_bind; [|intros ?]
    | match goal with
      | |- no_exit (if ?c then _ else _) => destruct c
      | |- no_exit (let '(_, _) := ?p in _) => destruct p
      end ].

Lemma no_exit_load_cache tg si st : no_exit (load_cache tg si st).
Proof.
  unfold load_cache, set_cache, find_matched_line, find_empty_line, find_LRU.
  cbv zeta. repeat no_exit_step.
Qed.

Lemma no_exit_store_cache tg si st : no_exit (store_cache tg si st).
Proof.
  unfold store_cache, set_cache, find_matched_line, find_empty_line, find_LRU.
  cbv zeta. repeat no_exit_step.
Qed.

Lemma step_not_Exit a st f : step a st <> Exit f.
Proof.
  intros H.
  assert (no_exit (step a st)) as Hne
    by (unfold step; destruct (a_kind a); [apply no_exit_load_cache | apply no_exit_store_cache]).
  rewrite H in Hne. inversion Hne.
Qed.

Lemma decode_not_Exit s b a f : decode s b a <> Exit f.
Proof.
  unfold decode, shr_ulong, shl_int.
  repeat match goal with
         | |- context [if ?c then _ else _] => destruct c; simpl
         end; discriminate.
Qed.

Lemma process_in_range trace : forall s E0 b st,
  Forall (fun r => 0 <= size r < 16) trace ->
  process_trace_file trace s E0 b st <> Exit SizeOutOfRange.
Proof.
  induction trace as [|r trace IH]; intros s E0 b st Hall.
  - discriminate.
  - inversion Hall as [|r' t' Hr Hrest]; subst. simpl.
    destruct (Z.of_N (addr r) <? 0); [discriminate|].
    destruct ((size r <? 0) || (size r >=? MAX_SIZE)) eqn:Hs;
      [exfalso; unfold MAX_SIZE in Hs; lia|].
    destruct (decode s b (Z.of_N (addr r))) as [[tg si]|f|] eqn:Hd; simpl;
      [| exfalso; exact (decode_not_Exit _ _ _ _ Hd) | discriminate].
    destruct (is_L (action r)).
    + pose proof (step_not_Exit (mkAccess Load tg si) st) as Hne. unfold step in Hne.
      simpl in Hne. destruct (load_cache tg si st); simpl;
        [apply IH; exact Hrest | intros H; inversion H; subst; exact (Hne _ eq_refl)
         | discriminate].
    + destruct (is_S (action r)).
      * pose proof (step_not_Exit (mkAccess Store tg si) st) as Hne. unfold step in Hne.
        simpl in Hne. destruct (store_cache tg si st); simpl;
          [apply IH; exact Hrest | intros H; inversion H; subst; exact (Hne _ eq_refl)
           | discriminate].
      * simpl. discriminate.
Qed.

(** C6.  A record whose size is negative or at least 16 ends the run with
    the diagnostic "Size is out of range" before it is decoded or applied to
    the cache: [process_trace_file] on that record is [Exit SizeOutOfRange]
    whatever follows it, and so is a run whose earlier records were
    processed; no run of [main] over a trace holding such a record returns
    statistics.  A trace whose sizes are all within 0 .. 15 never ends with
    that diagnostic. *)
Theorem size_out_of_range_is_fatal :
  (forall r rest s E0 b st,
     bad_size r -> process_trace_file (r :: rest) s E0 b st = Exit SizeOutOfRange) /\
  (forall pre r post s E0 b st st1,
     bad_size r ->
     process_trace_file pre s E0 b st = Ok st1 ->
     process_trace_file (pre ++ r :: post) s E0 b st = Exit SizeOutOfRange) /\
  (forall pre r post s b E0 st st1,
     bad_size r ->
     checkValidInput s b E0 = Ok tt ->
     init_cache s b E0 = Ok st ->
     process_trace_file pre s E0 b st = Ok st1 ->
     main s b E0 (pre ++ r :: post) = Exit SizeOutOfRange) /\
  (forall pre r post s b E0 stats,
     bad_size r -> main s b E0 (pre ++ r :: post) <> Ok stats) /\
  (forall trace s b E0,
     Forall (fun r => 0 <= size r < 16) trace ->
     main s b E0 trace <> Exit SizeOutOfRange).
Proof.
  split; [exact process_bad_size|].
  split.
  { intros pre r post s E0 b st st1 Hbad Hpre.
    rewrite process_app, Hpre. bind_steps. apply process_bad_size. exact Hbad. }
  split.
  { intros pre r post s b E0 st st1 Hbad Hcheck Hinit Hpre. unfold main.
    rewrite Hcheck, Hinit. bind_steps. rewrite process_app, Hpre. bind_steps.
    rewrite (process_bad_size r post s E0 b st1 Hbad). reflexivity. }
  split.
  { intros pre r post s b E0 stats Hbad. unfold main.
    destruct (checkValidInput s b E0) as [[]|f|]; bind_steps; try discriminate.
    destruct (init_cache s b E0) as [st|f|]; bind_steps; try discriminate.
    rewrite process_app.
    destruct (process_trace_file pre s E0 b st) as [st1|f|]; bind_steps; try discriminate.
    rewrite (process_bad_size r post s E0 b st1 Hbad). bind_steps. discriminate. }
  { intros trace s b E0 Hall. unfold main.
    destruct (checkValidInput s b E0) as [[]|f|] eqn:Hcheck; bind_steps;
      [ | | discriminate].
    - destruct (init_cache s b E0) as [st|f|] eqn:Hinit; bind_steps;
        [ | | discriminate].
      + pose proof (process_in_range trace s E0 b st Hall) as Hne.
        destruct (process_trace_file trace s E0 b st) as [st1|f|]; bind_steps;
          try discriminate.
        intros H. inversion H; subst. apply Hne. reflexivity.
      + exfalso. unfold init_cache, shl_int in Hinit.
        destruct ((0 <=? s) && (s <? 32)); simpl in Hinit; [|discriminate].
        destruct ((0 <=? b) && (b <? 32)); simpl in Hinit; discriminate.
    - unfold checkValidInput in Hcheck.
      destruct ((s <? 0) || (b <? 0) || (E0 <=? 0)); [inversion Hcheck; discriminate|].
      destruct (add_int s b >? 64); [inversion Hcheck; discriminate | discriminate]. }
Qed.

Lemma size_out_of_range_is_fatal_witness :
  main 0 0 1 ([mkTraceLine "S" 0 1] ++ mkTraceLine "S" 1 16 :: [mkTraceLine "L" 2 1])
  = Exit SizeOutOfRange /\
  main 0 0 1 ([mkTraceLine "S" 0 1] ++ mkTraceLine "L" 1 (-1) :: [])
  = Exit SizeOutOfRange /\
  main 0 0 1 [mkTraceLine "S" 0 0; mkTraceLine "L" 1 15] <> Exit SizeOutOfRange.
Proof.
  destruct size_out_of_range_is_fatal as [_ [_ [Hmain [_ Hin]]]].
  split; [|split].
  - apply (Hmain [mkTraceLine "S" 0 1] (mkTraceLine "S" 1 16) [mkTraceLine "L" 2 1]
             0 0 1 one_line_state (mkState [[mkLine 1 0 1 1]] 0 1 0 1 0 1 1 1 1)).
    + right. simpl. lia.
    + reflexivity.
    + reflexivity.
    + reflexivity.
  - apply (Hmain [mkTraceLine "S" 0 1] (mkTraceLine "L" 1 (-1)) []
             0 0 1 one_line_state (mkState [[mkLine 1 0 1 1]] 0 1 0 1 0 1 1 1 1)).
    + left. simpl. lia.
    + reflexivity.
    + reflexivity.
    + reflexivity.
  - apply Hin. repeat constructor; simpl; lia.
Defined.

(** ** The reported byte counts *)

Lemma pow2_le_30 n : 0 <= n <= 30 -> 1 <= 2 ^ n <= 1073741824.
Proof.
  intros Hn. split.
  - pose proof (Z.pow_pos_nonneg 2 n ltac:(lia) ltac:(lia)). lia.
  - change 1073741824 with (2 ^ 30). apply Z.pow_le_mono_r; lia.
Qed.

(** [init_cache] sets [B] to 2^b for b up to 30. *)
Lemma init_cache_B s b E0 st :
  0 <= b <= 30 -> init_cache s b E0 = Ok st -> B st = 2 ^ b.
Proof.
  intros Hb. unfold init_cache, shl_int.
  destruct ((0 <=? s) && (s <? 32)); simpl; [|discriminate].
  destruct ((0 <=? b) && (b <? 32)) eqn:H; simpl; [|exfalso; lia].
  intros Heq. inversion Heq; subst; simpl.
  rewrite Z.mul_1_l. apply to_int_small.
  pose proof (pow2_le_30 b Hb). unfold INT_MIN, INT_MAX. lia.
Qed.

(** The reported byte counts are the products when these fit an [int]. *)
Lemma summary_bytes st b :
  B st = 2 ^ b ->
  0 <= dirtyInCache st * 2 ^ b <= INT_MAX ->
  0 <= dirtyEvicted st * 2 ^ b <= INT_MAX ->
  dirty_bytes (summary st) = dirtyInCache st * 2 ^ b /\
  dirty_evictions (summary st) = dirtyEvicted st * 2 ^ b.
Proof.
  intros HB H1 H2. unfold summary, mul_int. simpl. rewrite HB.
  unfold INT_MAX in *.
  rewrite !to_int_small by (unfold INT_MIN, INT_MAX; lia).
  split; apply to_ulong_small; lia.
Qed.

(** C8 at the failing inputs.  With s = 0, b = 30, E = 2 two stores to
    different blocks leave two dirty lines; the product 2 * 2^30 is formed
    in [int], wraps to -2^31 and is reported, converted to [unsigned long],
    as 18446744071562067968 instead of 2147483648.  With b = 31 the block
    size [1 << b] itself is -2^31, and one dirty line is reported as the
    same value. *)
Theorem dirty_bytes_overflow :
  (exists st,
     checkValidInput 0 30 2 = Ok tt /\
     init_cache 0 30 2 ≫= process_trace_file
       [mkTraceLine "S" 0 1; mkTraceLine "S" 1073741824 1] 0 2 30 = Ok st /\
     dirtyInCache st = 2 /\ B st = 2 ^ 30 /\
     main 0 30 2 [mkTraceLine "S" 0 1; mkTraceLine "S" 1073741824 1] = Ok (summary st) /\
     dirty_bytes (summary st) = 18446744071562067968 /\
     dirty_bytes (summary st) <> dirtyInCache st * 2 ^ 30) /\
  (exists st,
     checkValidInput 0 31 1 = Ok tt /\
     init_cache 0 31 1 ≫= process_trace_file [mkTraceLine "S" 0 1] 0 1 31 = Ok st /\
     dirtyInCache st = 1 /\ B st = -2147483648 /\
     main 0 31 1 [mkTraceLine "S" 0 1] = Ok (summary st) /\
     dirty_bytes (summary st) = 18446744071562067968 /\
     dirty_bytes (summary st) <> dirtyInCache st * 2 ^ 31).
Proof.
  split.
  - eexists. split; [reflexivity|]. split; [vm_compute; reflexivity|].
    repeat split; try reflexivity. vm_compute. discriminate.
  - eexists. split; [reflexivity|]. split; [vm_compute; reflexivity|].
    repeat split; try reflexivity. vm_compute. discriminate.
Qed.

(** ** The clock and the hit and miss counters *)

Lemma to_int_add a b : to_int (to_int a + to_int b) = to_int (a + b).
Proof. rewrite !to_int_eq. lia. Qed.

Lemma step_counters a st st' :
  table_ok st -> step a st = Ok st' ->
  time st' = incr (time st) /\
  ((hit st' = incr (hit st) /\ miss st' = miss st) \/
   (hit st' = hit st /\ miss st' = incr (miss st))).
Proof.
  intros Hok H. apply (step_Ok_cases _ _ _ Hok) in H as [row [_ Hc]].
  destruct Hc; simpl; split; auto.
Qed.

Lemma step_counted n a st st' :
  table_ok st -> counted n st -> step a st = Ok st' -> counted (n + 1) st'.
Proof.
  intros Hok [h [m [Hh [Hm [Hn [Hhit [Hmiss Htime]]]]]]] Hstep.
  destruct (step_counters _ _ _ Hok Hstep) as [Ht [[H1 H2]|[H1 H2]]].
  - exists (h + 1), m. rewrite Ht, H1, H2, Hhit, Hmiss, Htime, !incr_to_int.
    repeat split; try lia.
  - exists h, (m + 1). rewrite Ht, H1, H2, Hhit, Hmiss, Htime, !incr_to_int.
    repeat split; try lia.
Qed.

Lemma run_counted ops : forall n st st',
  table_ok st -> counted n st -> run ops st = Ok st' ->
  counted (n + Z.of_nat (length ops)) st'.
Proof.
  induction ops as [|a ops IH]; intros n st st' Hok Hc Hrun.
  - simpl in *. inversion Hrun; subst. rewrite Z.add_0_r. exact Hc.
  - rewrite run_cons in Hrun. destruct (step a st) as [st1| |] eqn:Hs; try discriminate.
    simpl in Hrun.
    pose proof (IH _ _ _ (step_table_ok _ _ _ Hok Hs) (step_counted _ _ _ _ Hok Hc Hs) Hrun)
      as H.
    replace (n + Z.of_nat (length (a :: ops))) with (n + 1 + Z.of_nat (length ops))
      by (simpl length; lia).
    exact H.
Qed.

Lemma init_cache_counters s b E0 st :
  init_cache s b E0 = Ok st ->
  hit st = 0 /\ miss st = 0 /\ eviction st = 0 /\ dirtyInCache st = 0 /\
  dirtyEvicted st = 0 /\ time st = 0 /\
  cache st = replicate (Z.to_nat (S_ st)) (replicate (Z.to_nat E0) empty_line).
Proof.
  unfold init_cache, shl_int.
  destruct ((0 <=? s) && (s <? 32)); simpl; [|discriminate].
  destruct ((0 <=? b) && (b <? 32)); simpl; [|discriminate].
  intros H. inversion H; subst; simpl. repeat split; reflexivity.
Qed.

Lemma reachable_counted s b E0 ops st :
  reachable s b E0 ops st -> counted (Z.of_nat (length ops)) st.
Proof.
  intros [st0 [Hinit Hrun]].
  destruct (init_cache_counters _ _ _ _ Hinit) as [Hh [Hm [_ [_ [_ [Ht _]]]]]].
  apply (run_counted ops 0 st0 st); [exact (init_table_ok _ _ _ _ Hinit) | | exact Hrun].
  exists 0, 0. rewrite Hh, Hm, Ht. repeat split; try lia; reflexivity.
Qed.

(** C9, as the code has it.  After any sequence of accesses the clock is
    the [int] sum of [hit] and [miss] and the [int] image of the number of
    accesses processed; every access increments the clock and exactly one of
    [hit] and [miss].  While at most [INT_MAX] accesses have been processed
    the counters have not wrapped: the clock equals [hit + miss], which is
    the number of accesses processed. *)
Theorem clock_counts_hits_and_misses (s b E0 : Z) (ops : list access) (st : state) :
  reachable s b E0 ops st ->
  time st = add_int (hit st) (miss st) /\
  time st = to_int (Z.of_nat (length ops)) /\
  (forall a st', step a st = Ok st' ->
     time st' = incr (time st) /\
     ((hit st' = incr (hit st) /\ miss st' = miss st) \/
      (hit st' = hit st /\ miss st' = incr (miss st)))) /\
  (Z.of_nat (length ops) <= INT_MAX ->
     0 <= hit st /\ 0 <= miss st /\
     time st = hit st + miss st /\
     hit st + miss st = Z.of_nat (length ops)).
Proof.
  intros Hreach.
  destruct (reachable_counted _ _ _ _ _ Hreach)
    as [h [m [Hh [Hm [Hn [Hhit [Hmiss Htime]]]]]]].
  split.
  { unfold add_int. rewrite Hhit, Hmiss, Htime, to_int_add, Hn. reflexivity. }
  split; [exact Htime|].
  split; [intros a st'; apply step_counters; exact (reachable_table_ok _ _ _ _ _ Hreach)|].
  intros Hle.
  rewrite Hhit, Hmiss, Htime.
  rewrite !to_int_small by (unfold INT_MIN, INT_MAX in *; lia). lia.
Qed.

Lemma clock_counts_hits_and_misses_witness :
  time (same_tag_state Load 3)
  = add_int (hit (same_tag_state Load 3)) (miss (same_tag_state Load 3)) /\
  time (same_tag_state Load 3) = to_int (Z.of_nat (length (replicate 3 (mkAccess Load 0 0)))) /\
  (forall a st', step a (same_tag_state Load 3) = Ok st' ->
     time st' = incr (time (same_tag_state Load 3)) /\
     ((hit st' = incr (hit (same_tag_state Load 3)) /\
       miss st' = miss (same_tag_state Load 3)) \/
      (hit st' = hit (same_tag_state Load 3) /\
       miss st' = incr (miss (same_tag_state Load 3))))) /\
  (Z.of_nat (length (replicate 3 (mkAccess Load 0 0))) <= INT_MAX ->
     0 <= hit (same_tag_state Load 3) /\ 0 <= miss (same_tag_state Load 3) /\
     time (same_tag_state Load 3)
     = hit (same_tag_state Load 3) + miss (same_tag_state Load 3) /\
     hit (same_tag_state Load 3) + miss (same_tag_state Load 3)
     = Z.of_nat (length (replicate 3 (mkAccess Load 0 0)))).
Proof.
  apply (clock_counts_hits_and_misses 0 0 1 (replicate 3 (mkAccess Load 0 0))).
  exists one_line_state. split; reflexivity.
Defined.

(** After 2^31 loads of one address to one set of one line the clock has
    wrapped to [INT_MIN] while [hit + miss] is 2^31, the number of accesses
    processed; formed in [int], [hit + miss] is [INT_MIN] as well. *)
Lemma clock_differs_from_hit_plus_miss :
  exists st,
    reachable 0 0 1 (replicate (Z.to_nat 2147483648) (mkAccess Load 0 0)) st /\
    Z.of_nat (length (replicate (Z.to_nat 2147483648) (mkAccess Load 0 0))) = 2147483648 /\
    hit st = 2147483647 /\ miss st = 1 /\ time st = -2147483648 /\
    time st <> hit st + miss st /\
    add_int (hit st) (miss st) = -2147483648.
Proof.
  exists (same_tag_state Load 2147483648).
  split.
  { exists one_line_state. split; [reflexivity|]. apply run_same_tag. lia. }
  split; [rewrite length_replicate; lia|].
  repeat split; try reflexivity. vm_compute. discriminate.
Qed.

(** ** Time stamps within a set *)

(** An access rewrites one line of the addressed row; that line is valid
    afterwards, holds the tag of the access and the new clock value. *)
Lemma step_shape a st st' :
  table_ok st -> step a st = Ok st' ->
  exists row i l',
    row_at (cache st) (a_set a) = Ok row /\ (i < length row)%nat /\
    cache st' = <[Z.to_nat (a_set a) := <[i := l']> row]> (cache st) /\
    valid l' = 1 /\ tag l' = a_tag a /\
    timeStamp l' = time st' /\ time st' = incr (time st).
Proof.
  intros Hok H. apply (step_Ok_cases _ _ _ Hok) in H as [row [Hr Hc]].
  destruct Hc as [i l Hi Hl | j v Hnone Hj Hv | j v Hnone Hfull Hj Hv Hlt].
  - destruct Hi as [[l0 [Hl0 [Hval Htag]]] _].
    assert (l0 = l) by congruence. subst l0.
    exists row, i, (touch (a_kind a) (incr (time st)) l).
    split; [exact Hr|]. split; [eapply lookup_lt_Some; exact Hl|].
    simpl. repeat split; assumption.
  - exists row, j, (fill (a_kind a) (a_tag a) (incr (time st))).
    split; [exact Hr|]. split; [eapply lookup_lt_Some; exact Hv|].
    simpl. repeat split.
  - exists row, j, (fill (a_kind a) (a_tag a) (incr (time st))).
    split; [exact Hr|]. split; [eapply lookup_lt_Some; exact Hv|].
    simpl. repeat split.
Qed.

Lemma stamped_by_mono n n' row : n <= n' -> stamped_by n row -> stamped_by n' row.
Proof.
  intros Hle H i l Hl Hv. destruct (H i l Hl Hv) as [k [Hk Hts]].
  exists k. split; [lia | exact Hts].
Qed.

Lemma step_stamps_ok n a st st' :
  0 <= n -> n + 1 < 4294967296 -> table_ok st ->
  stamps_ok n st -> step a st = Ok st' -> stamps_ok (n + 1) st'.
Proof.
  intros Hn0 Hn Hok [Htime Hrows] Hstep.
  destruct (step_shape _ _ _ Hok Hstep) as [row [i [l' [Hr [Hi [Hc [Hval [_ [Hts Ht]]]]]]]]].
  rewrite Ht, Htime, incr_to_int in Hts.
  split; [rewrite Ht, Htime; apply incr_to_int|].
  rewrite Hc. apply row_at_Ok in Hr as [_ Hr].
  assert (stamped_by n row /\ distinct_stamps row) as [Hst Hdist].
  { rewrite Forall_lookup in Hrows. exact (Hrows _ _ Hr). }
  apply Forall_insert.
  - eapply Forall_impl; [exact Hrows|]. intros r [H1 H2].
    split; [|exact H2]. apply (stamped_by_mono n); [lia | exact H1].
  - split.
    + intros j l Hl Hv. apply list_lookup_insert_Some in Hl as [[-> [-> _]]|[Hne Hl]].
      * exists (n + 1). split; [lia | exact Hts].
      * destruct (Hst j l Hl Hv) as [k [Hk Hk']]. exists k. split; [lia | exact Hk'].
    + intros j1 j2 l1 l2 H1 H2 Hv1 Hv2 Heq.
      apply list_lookup_insert_Some in H1 as [[-> [-> _]]|[Hne1 H1]];
        apply list_lookup_insert_Some in H2 as [[-> [-> _]]|[Hne2 H2]].
      * reflexivity.
      * exfalso. destruct (Hst j2 l2 H2 Hv2) as [k [Hk Hk']].
        rewrite Hts, Hk' in Heq. apply to_int_inj_window in Heq; lia.
      * exfalso. destruct (Hst j1 l1 H1 Hv1) as [k [Hk Hk']].
        rewrite Hts, Hk' in Heq. apply to_int_inj_window in Heq; lia.
      * exact (Hdist j1 j2 l1 l2 H1 H2 Hv1 Hv2 Heq).
Qed.

Lemma run_stamps_ok ops : forall n st st',
  0 <= n -> n + Z.of_nat (length ops) < 4294967296 -> table_ok st ->
  stamps_ok n st -> run ops st = Ok st' -> stamps_ok (n + Z.of_nat (length ops)) st'.
Proof.
  induction ops as [|a ops IH]; intros n st st' Hn0 Hn Htab Hok Hrun.
  - simpl in *. inversion Hrun; subst. rewrite Z.add_0_r. exact Hok.
  - rewrite run_cons in Hrun. destruct (step a st) as [st1| |] eqn:Hs; try discriminate.
    simpl in Hrun. simpl length in *.
    replace (n + Z.of_nat (S (length ops))) with (n + 1 + Z.of_nat (length ops)) by lia.
    apply (IH (n + 1) st1 st');
      [lia | lia | exact (step_table_ok _ _ _ Htab Hs) | | exact Hrun].
    apply (step_stamps_ok n a st st1); [lia | lia | exact Htab | exact Hok | exact Hs].
Qed.

Lemma init_stamps_ok s b E0 st : init_cache s b E0 = Ok st -> stamps_ok 0 st.
Proof.
  intros Hinit.
  destruct (init_cache_counters _ _ _ _ Hinit) as [_ [_ [_ [_ [_ [Ht Hc]]]]]].
  split; [rewrite Ht; reflexivity|].
  rewrite Hc. apply Forall_replicate. split.
  - intros i l Hl Hv. apply lookup_replicate in Hl as [-> _]. discriminate.
  - intros i j li lj Hi Hj Hv. apply lookup_replicate in Hi as [-> _]. discriminate.
Qed.

(** C5, as the code has it.  Every access increments the clock before
    anything else, as an [int]: the clock is the [int] image of the number
    of accesses processed, the line an access touches carries the new clock
    value, and the increment is an increase by one except at [INT_MAX],
    where the clock wraps to [INT_MIN].  Through the first 2^32 - 1
    accesses no two accesses share a clock value and no two valid lines of
    a set share a time stamp. *)
Theorem clock_ticks_and_stamps_differ (s b E0 : Z) (ops : list access) (st : state) :
  reachable s b E0 ops st ->
  time st = to_int (Z.of_nat (length ops)) /\
  (Z.of_nat (length ops) <= INT_MAX -> time st = Z.of_nat (length ops)) /\
  (forall a st', step a st = Ok st' ->
     time st' = incr (time st) /\
     (time st < INT_MAX -> time st' = time st + 1) /\
     (time st = INT_MAX -> time st' = INT_MIN) /\
     exists row l, row_at (cache st') (a_set a) = Ok row /\ l ∈ row /\
       valid l = 1 /\ tag l = a_tag a /\ timeStamp l = time st') /\
  (forall ops' st', reachable s b E0 ops' st' ->
     Z.of_nat (length ops) < 4294967296 -> Z.of_nat (length ops') < 4294967296 ->
     time st' = time st -> length ops' = length ops) /\
  (Z.of_nat (length ops) < 4294967296 -> Forall distinct_stamps (cache st)).
Proof.
  intros Hreach.
  assert (forall ops1 st1, reachable s b E0 ops1 st1 ->
            time st1 = to_int (Z.of_nat (length ops1))) as Hclock.
  { intros ops1 st1 H1. destruct (reachable_counted _ _ _ _ _ H1)
      as [h [m [_ [_ [_ [_ [_ Htime]]]]]]]. exact Htime. }
  pose proof (Hclock _ _ Hreach) as Htime.
  split; [exact Htime|].
  split.
  { intros Hle. rewrite Htime. apply to_int_small. unfold INT_MIN, INT_MAX in *. lia. }
  split.
  { intros a st' Hstep.
    destruct (step_shape _ _ _ (reachable_table_ok _ _ _ _ _ Hreach) Hstep)
      as [row [i [l' [Hr [Hi [Hc [Hval [Htag [Hts Ht]]]]]]]]].
    split; [exact Ht|]. split; [|split].
    - intros Hlt. rewrite Ht. apply incr_exact.
      pose proof (to_int_range (Z.of_nat (length ops))) as Hrange.
      rewrite <- Htime in Hrange. lia.
    - intros Hmax. rewrite Ht, Hmax. reflexivity.
    - exists (<[i := l']> row), l'. split.
      + rewrite Hc. eapply row_at_insert. exact Hr.
      + split; [|repeat split; assumption].
        apply list_elem_of_lookup. exists i. apply list_lookup_insert_eq. exact Hi. }
  split.
  { intros ops' st' Hreach' Hlen Hlen' Heq.
    rewrite (Hclock _ _ Hreach'), Htime in Heq.
    apply to_int_inj_window in Heq; lia. }
  intros Hlen. destruct Hreach as [st0 [Hinit Hrun]].
  pose proof (run_stamps_ok ops 0 st0 st ltac:(lia) ltac:(lia)
                (init_table_ok _ _ _ _ Hinit) (init_stamps_ok _ _ _ _ Hinit) Hrun)
    as [_ Hrows].
  eapply Forall_impl; [exact Hrows|]. intros r [_ H]. exact H.
Qed.

Lemma clock_ticks_and_stamps_differ_witness :
  time (same_tag_state Store 2) = to_int (Z.of_nat (length (replicate 2 (mkAccess Store 0 0)))) /\
  (Z.of_nat (length (replicate 2 (mkAccess Store 0 0))) <= INT_MAX ->
   time (same_tag_state Store 2) = Z.of_nat (length (replicate 2 (mkAccess Store 0 0)))) /\
  (forall a st', step a (same_tag_state Store 2) = Ok st' ->
     time st' = incr (time (same_tag_state Store 2)) /\
     (time (same_tag_state Store 2) < INT_MAX ->
      time st' = time (same_tag_state Store 2) + 1) /\
     (time (same_tag_state Store 2) = INT_MAX -> time st' = INT_MIN) /\
     exists row l, row_at (cache st') (a_set a) = Ok row /\ l ∈ row /\
       valid l = 1 /\ tag l = a_tag a /\ timeStamp l = time st') /\
  (forall ops' st', reachable 0 0 1 ops' st' ->
     Z.of_nat (length (replicate 2 (mkAccess Store 0 0))) < 4294967296 ->
     Z.of_nat (length ops') < 4294967296 ->
     time st' = time (same_tag_state Store 2) ->
     length ops' = length (replicate 2 (mkAccess Store 0 0))) /\
  (Z.of_nat (length (replicate 2 (mkAccess Store 0 0))) < 4294967296 ->
   Forall distinct_stamps (cache (same_tag_state Store 2))).
Proof.
  apply (clock_ticks_and_stamps_differ 0 0 1 (replicate 2 (mkAccess Store 0 0))).
  exists one_line_state. split; reflexivity.
Defined.

Lemma step_two_line n :
  step (mkAccess Load 1 0) (two_line_state n) = Ok (two_line_state (n + 1)).
Proof.
  rewrite (step_unfold _ _ [mkLine 1 0 0 1; mkLine 1 1 0 (to_int n)]) by reflexivity.
  unfold step_on_row, hit_state, two_line_state, touch. simpl.
  rewrite !incr_to_int. replace (n + 1 - 2) with (n - 2 + 1) by lia.
  reflexivity.
Qed.

Lemma run_two_line_from (n : nat) : forall m,
  run (replicate n (mkAccess Load 1 0)) (two_line_state m)
  = Ok (two_line_state (m + Z.of_nat n)).
Proof.
  induction n as [|n IH]; intros m.
  - simpl. rewrite Z.add_0_r. reflexivity.
  - simpl replicate. rewrite run_cons, step_two_line. simpl mbind.
    rewrite IH. f_equal. f_equal. lia.
Qed.

Lemma run_two_line (n : Z) :
  1 <= n ->
  run (mkAccess Load 0 0 :: replicate (Z.to_nat n) (mkAccess Load 1 0))
      (mkState [[empty_line; empty_line]] 0 0 0 0 0 0 1 1 2)
  = Ok (two_line_state (n + 1)).
Proof.
  intros Hn. replace (Z.to_nat n) with (S (Z.to_nat (n - 1))) by lia.
  simpl replicate. rewrite !run_cons.
  assert (step (mkAccess Load 0 0) (mkState [[empty_line; empty_line]] 0 0 0 0 0 0 1 1 2)
          ≫= (fun st' => step (mkAccess Load 1 0) st') = Ok (two_line_state 2)) as H
    by reflexivity.
  destruct (step (mkAccess Load 0 0) (mkState [[empty_line; empty_line]] 0 0 0 0 0 0 1 1 2))
    as [st1| |]; simpl in H; try discriminate.
  simpl mbind. rewrite H. simpl mbind.
  rewrite run_two_line_from. f_equal. f_equal. lia.
Qed.

(** The clock does not increase at [INT_MAX]: the access number 2^31 takes
    it to [INT_MIN].  After 2^32 + 1 accesses clock values have repeated:
    in a set of two lines the line loaded first and never touched again and
    the line touched by every later access both carry the time stamp 1. *)
Lemma clock_wraps_and_stamps_collide :
  (exists st st',
     reachable 0 0 1 (replicate (Z.to_nat 2147483647) (mkAccess Load 0 0)) st /\
     step (mkAccess Load 0 0) st = Ok st' /\
     time st = 2147483647 /\ time st' = -2147483648 /\ time st' <> time st + 1) /\
  (exists st,
     reachable 0 0 2
       (mkAccess Load 0 0 :: replicate (Z.to_nat 4294967296) (mkAccess Load 1 0)) st /\
     cache st = [[mkLine 1 0 0 1; mkLine 1 1 0 1]] /\
     ~ Forall distinct_stamps (cache st)).
Proof.
  split.
  - exists (same_tag_state Load 2147483647), (same_tag_state Load 2147483648).
    split.
    { exists one_line_state. split; [reflexivity|]. apply run_same_tag. lia. }
    split; [exact (step_same_tag Load 2147483647)|].
    repeat split; try reflexivity. vm_compute. discriminate.
  - exists (two_line_state 4294967297).
    split.
    { exists (mkState [[empty_line; empty_line]] 0 0 0 0 0 0 1 1 2).
      split; [reflexivity|]. exact (run_two_line 4294967296 ltac:(lia)). }
    split; [reflexivity|].
    intros Hall. inversion Hall as [|row rest Hd _]; subst.
    specialize (Hd 0%nat 1%nat (mkLine 1 0 0 1) (mkLine 1 1 0 (to_int 4294967297))
                  eq_refl eq_refl eq_refl eq_refl eq_refl).
    discriminate.
Qed.

(** ** The count of dirty lines *)

Lemma dirty_lines_of_row_insert row : forall i l l',
  row !! i = Some l ->
  dirty_lines_of_row (<[i := l']> row)
  = dirty_lines_of_row row - (if is_dirty l then 1 else 0) + (if is_dirty l' then 1 else 0).
Proof.
  induction row as [|x row IH]; intros [|i] l l' H; simpl in *; try discriminate.
  - inversion H; subst. lia.
  - rewrite (IH i l l' H). lia.
Qed.

Lemma dirty_lines_insert c : forall si row row',
  c !! si = Some row ->
  dirty_lines (<[si := row']> c)
  = dirty_lines c - dirty_lines_of_row row + dirty_lines_of_row row'.
Proof.
  induction c as [|x c IH]; intros [|si] row row' H; simpl in *; try discriminate.
  - inversion H; subst. lia.
  - rewrite (IH si row row' H). lia.
Qed.

Lemma dirty_lines_of_row_bounds row : 0 <= dirty_lines_of_row row <= Z.of_nat (length row).
Proof.
  induction row as [|l row IH]; simpl; [lia|]. destruct (is_dirty l); lia.
Qed.

Lemma dirty_lines_bounds c : 0 <= dirty_lines c <= total_lines c.
Proof.
  induction c as [|row c IH]; simpl; [lia|].
  pose proof (dirty_lines_of_row_bounds row). lia.
Qed.

(** The change of the dirty count when line [i] of row [si] is replaced. *)
Lemma dirty_lines_replace c si row i l l' :
  c !! si = Some row -> row !! i = Some l ->
  dirty_lines (<[si := <[i := l']> row]> c)
  = dirty_lines c - (if is_dirty l then 1 else 0) + (if is_dirty l' then 1 else 0).
Proof.
  intros Hr Hl. rewrite (dirty_lines_insert c si row _ Hr).
  rewrite (dirty_lines_of_row_insert row i l l' Hl). lia.
Qed.

Lemma lines_ok_replace c si row i l' :
  Forall (Forall line_ok) c -> c !! si = Some row -> line_ok l' ->
  Forall (Forall line_ok) (<[si := <[i := l']> row]> c).
Proof.
  intros Hall Hr Hl'. apply Forall_insert; [exact Hall|].
  apply Forall_insert; [|exact Hl'].
  rewrite Forall_lookup in Hall. exact (Hall _ _ Hr).
Qed.

Lemma step_dirty_move a st st' :
  table_ok st ->
  Forall (Forall line_ok) (cache st) ->
  step a st = Ok st' ->
  dirty_move st st' /\ Forall (Forall line_ok) (cache st').
Proof.
  intros Htab Hok H. apply (step_Ok_cases _ _ _ Htab) in H as [row [Hr Hc]].
  apply row_at_Ok in Hr as [_ Hr].
  assert (Forall line_ok row) as Hrow_ok.
  { rewrite Forall_lookup in Hok. exact (Hok _ _ Hr). }
  rewrite Forall_lookup in Hrow_ok.
  destruct Hc as [i l Hi Hl | j v Hnone Hj Hv | j v Hnone Hfull Hj Hv Hlt].
  - (* hit *)
    destruct Hi as [[l0 [Hl0 [Hval Htag]]] _].
    assert (l0 = l) by congruence. subst l0.
    pose proof (Hrow_ok _ _ Hl) as [[Hv0 _]|[_ Hd]]; [lia|].
    split.
    + unfold hit_state; destruct (a_kind a); simpl.
      * apply dirty_same; simpl; [reflexivity|].
        rewrite (dirty_lines_replace _ _ _ _ _ _ Hr Hl).
        unfold is_dirty, touch; simpl. lia.
      * destruct Hd as [Hd|Hd].
        -- apply dirty_up; simpl; [rewrite Hd; reflexivity|].
           rewrite (dirty_lines_replace _ _ _ _ _ _ Hr Hl).
           unfold is_dirty, touch; simpl. rewrite Hval, Hd. simpl. lia.
        -- apply dirty_same; simpl; [rewrite Hd; reflexivity|].
           rewrite (dirty_lines_replace _ _ _ _ _ _ Hr Hl).
           unfold is_dirty, touch; simpl. rewrite Hval, Hd. simpl. lia.
    + unfold hit_state; simpl. apply lines_ok_replace; [exact Hok | exact Hr |].
      right. unfold touch; simpl. split; [exact Hval|].
      destruct (a_kind a); [exact Hd|]. destruct Hd as [Hd|Hd]; rewrite Hd; simpl; auto.
  - (* a free line is filled *)
    destruct Hj as [[v0 [Hv0 Hfree]] _].
    assert (v0 = v) by congruence. subst v0. unfold free in Hfree.
    pose proof (Hrow_ok _ _ Hv) as [[_ Hd]|[Hv1 _]]; [|lia].
    split.
    + unfold miss_state; destruct (a_kind a); simpl.
      * apply dirty_same; simpl; [reflexivity|].
        rewrite (dirty_lines_replace _ _ _ _ _ _ Hr Hv).
        unfold is_dirty, fill; simpl. rewrite Hfree. simpl. lia.
      * apply dirty_up; simpl; [rewrite Hd; reflexivity|].
        rewrite (dirty_lines_replace _ _ _ _ _ _ Hr Hv).
        unfold is_dirty, fill; simpl. rewrite Hfree. simpl. lia.
    + unfold miss_state; simpl. apply lines_ok_replace; [exact Hok | exact Hr |].
      right. unfold fill; simpl. split; [reflexivity|]. destruct (a_kind a); auto.
  - (* a line is evicted *)
    assert (~ free v) as Hnf.
    { rewrite Forall_lookup in Hfull. exact (Hfull _ _ Hv). }
    unfold free in Hnf.
    pose proof (Hrow_ok _ _ Hv) as [[Hv0 _]|[Hv1 Hd]]; [lia|].
    split.
    + unfold miss_state; destruct (a_kind a); simpl; destruct Hd as [Hd|Hd].
      * apply dirty_same; simpl; [rewrite Hd; reflexivity|].
        rewrite (dirty_lines_replace _ _ _ _ _ _ Hr Hv).
        unfold is_dirty, fill; simpl. rewrite Hv1, Hd. simpl. lia.
      * apply dirty_down; simpl; [rewrite Hd; reflexivity|].
        rewrite (dirty_lines_replace _ _ _ _ _ _ Hr Hv).
        unfold is_dirty, fill; simpl. rewrite Hv1, Hd. simpl. lia.
      * apply dirty_up; simpl; [rewrite Hd; reflexivity|].
        rewrite (dirty_lines_replace _ _ _ _ _ _ Hr Hv).
        unfold is_dirty, fill; simpl. rewrite Hv1, Hd. simpl. lia.
      * apply dirty_same; simpl; [rewrite Hd; reflexivity|].
        rewrite (dirty_lines_replace _ _ _ _ _ _ Hr Hv).
        unfold is_dirty, fill; simpl. rewrite Hv1, Hd. simpl. lia.
    + unfold miss_state; simpl. apply lines_ok_replace; [exact Hok | exact Hr |].
      right. unfold fill; simpl. split; [reflexivity|]. destruct (a_kind a); auto.
Qed.

Lemma step_dirty_counted a st st' :
  table_ok st -> dirty_counted st -> step a st = Ok st' -> dirty_counted st'.
Proof.
  intros Htab [Hd Hok] Hstep.
  destruct (step_dirty_move _ _ _ Htab Hok Hstep) as [Hmove Hok'].
  split; [|exact Hok'].
  destruct Hmove as [H1 H2|H1 H2|H1 H2]; rewrite H1, H2, Hd.
  - reflexivity.
  - apply incr_to_int.
  - apply decr_to_int.
Qed.

Lemma run_dirty_counted ops : forall st st',
  table_ok st -> dirty_counted st -> run ops st = Ok st' -> dirty_counted st'.
Proof.
  induction ops as [|a ops IH]; intros st st' Htab Hd Hrun.
  - simpl in Hrun. inversion Hrun; subst. exact Hd.
  - rewrite run_cons in Hrun. destruct (step a st) as [st1| |] eqn:Hs; try discriminate.
    simpl in Hrun.
    exact (IH _ _ (step_table_ok _ _ _ Htab Hs) (step_dirty_counted _ _ _ Htab Hd Hs) Hrun).
Qed.

Lemma dirty_lines_replicate_empty n m :
  dirty_lines (replicate n (replicate m empty_line)) = 0.
Proof.
  assert (dirty_lines_of_row (replicate m empty_line) = 0) as Hrow
    by (induction m as [|m IHm]; simpl; [reflexivity | exact IHm]).
  induction n as [|n IH]; simpl; [reflexivity|]. rewrite Hrow, IH. reflexivity.
Qed.

Lemma init_dirty_counted s b E0 st : init_cache s b E0 = Ok st -> dirty_counted st.
Proof.
  intros Hinit.
  destruct (init_cache_counters _ _ _ _ Hinit) as [_ [_ [_ [Hd [_ [_ Hc]]]]]].
  split.
  - rewrite Hd, Hc, dirty_lines_replicate_empty. reflexivity.
  - rewrite Hc. apply Forall_replicate, Forall_replicate.
    left. split; reflexivity.
Qed.

Lemma reachable_dirty_counted s b E0 ops st :
  reachable s b E0 ops st -> dirty_counted st.
Proof.
  intros [st0 [Hinit Hrun]].
  exact (run_dirty_counted _ _ _ (init_table_ok _ _ _ _ Hinit)
           (init_dirty_counted _ _ _ _ Hinit) Hrun).
Qed.

(** C1, as the code has it.  After any sequence of accesses [dirtyInCache]
    is the [int] image of the number of lines that are valid and dirty, and
    it is that number whenever the table has at most [INT_MAX] lines.  An
    access changes the counter by the one step that matches the change of
    the number of dirty lines: up when a clean or free line becomes dirty,
    down when a dirty line is replaced by a clean one, not at all
    otherwise. *)
Theorem dirtyInCache_counts_dirty_lines (s b E0 : Z) (ops : list access) (st : state) :
  reachable s b E0 ops st ->
  dirtyInCache st = to_int (dirty_lines (cache st)) /\
  (total_lines (cache st) <= INT_MAX -> dirtyInCache st = dirty_lines (cache st)) /\
  (forall a st', step a st = Ok st' -> dirty_move st st').
Proof.
  intros Hreach. destruct (reachable_dirty_counted _ _ _ _ _ Hreach) as [Hd Hok].
  split; [exact Hd|]. split.
  - intros Hcap. rewrite Hd. apply to_int_small.
    pose proof (dirty_lines_bounds (cache st)). unfold INT_MIN, INT_MAX in *. lia.
  - intros a st' Hstep.
    exact (proj1 (step_dirty_move _ _ _ (reachable_table_ok _ _ _ _ _ Hreach) Hok Hstep)).
Qed.

Lemma dirtyInCache_counts_dirty_lines_witness :
  dirtyInCache (same_tag_state Store 2)
  = to_int (dirty_lines (cache (same_tag_state Store 2))) /\
  (total_lines (cache (same_tag_state Store 2)) <= INT_MAX ->
   dirtyInCache (same_tag_state Store 2) = dirty_lines (cache (same_tag_state Store 2))) /\
  (forall a st', step a (same_tag_state Store 2) = Ok st' ->
     dirty_move (same_tag_state Store 2) st').
Proof.
  apply (dirtyInCache_counts_dirty_lines 0 0 1 (replicate 2 (mkAccess Store 0 0))).
  exists one_line_state. split; reflexivity.
Defined.

(** *** A table of 2^31 lines *)

Lemma row_filled_length E0 k row : (k <= E0)%nat -> row_filled E0 k row -> length row = E0.
Proof.
  intros Hk [pre [Hrow [Hlen _]]]. subst row.
  rewrite length_app, length_replicate. lia.
Qed.

Lemma step_fill_row E0 k si st row :
  0 <= si -> Z.to_nat (E st) = E0 ->
  cache st !! Z.to_nat si = Some row -> row_filled E0 k row -> (k < E0)%nat ->
  exists st' row',
    step (mkAccess Store (Z.of_nat k) si) st = Ok st' /\ E st' = E st /\
    cache st' = <[Z.to_nat si := row']> (cache st) /\ row_filled E0 (S k) row'.
Proof.
  intros Hsi HE Hr Hfill Hk.
  pose proof (row_filled_length E0 k row ltac:(lia) Hfill) as Hlen.
  destruct Hfill as [pre [Hrow [Hpl Hpre]]].
  assert (row !! k = Some empty_line) as Hv.
  { rewrite Hrow, lookup_app_r by lia. apply lookup_replicate. split; [reflexivity | lia]. }
  exists (miss_state Store false (Z.of_nat k) (Z.to_nat si) k row empty_line st).
  exists (<[k := fill Store (Z.of_nat k) (incr (time st))]> row).
  split; [|split; [|split]].
  - apply (step_case_Ok _ _ _ row);
      [apply row_at_Ok; split; assumption | rewrite HE; exact Hlen |].
    apply (case_fill (mkAccess Store (Z.of_nat k) si)); simpl.
    + rewrite Hrow. apply Forall_app. split.
      * eapply Forall_impl; [exact Hpre|]. intros l [_ [_ Ht]] [_ Hm]. lia.
      * apply Forall_replicate. intros [Hm _]. discriminate.
    + split; [exists empty_line; split; [exact Hv | reflexivity]|].
      intros k' l' Hk' Hl'. rewrite Hrow, lookup_app_l in Hl' by lia.
      rewrite Forall_lookup in Hpre. destruct (Hpre _ _ Hl') as [Hval _].
      unfold free. lia.
    + exact Hv.
  - reflexivity.
  - reflexivity.
  - exists (pre ++ [fill Store (Z.of_nat k) (incr (time st))]).
    split; [|split].
    + rewrite Hrow, insert_app_r_alt by lia. rewrite <- app_assoc. f_equal.
      replace (k - length pre)%nat with 0%nat by lia.
      replace (E0 - k)%nat with (S (E0 - S k)) by lia. reflexivity.
    + rewrite length_app. simpl. lia.
    + apply Forall_app. split.
      * eapply Forall_impl; [exact Hpre|]. intros l [H1 [H2 H3]]. repeat split; lia.
      * constructor; [|constructor]. simpl. repeat split; lia.
Qed.

Lemma run_fill_row E0 si (n : nat) : forall k st row,
  0 <= si -> Z.to_nat (E st) = E0 ->
  cache st !! Z.to_nat si = Some row -> row_filled E0 k row ->
  (k + n <= E0)%nat ->
  exists st' row',
    run (fill_row_ops si k n) st = Ok st' /\ E st' = E st /\
    cache st' = <[Z.to_nat si := row']> (cache st) /\ row_filled E0 (k + n) row'.
Proof.
  induction n as [|n IH]; intros k st row Hsi HE Hr Hfill Hk.
  - exists st, row. split; [reflexivity|]. split; [reflexivity|]. split.
    + symmetry. apply list_insert_id. exact Hr.
    + replace (k + 0)%nat with k by lia. exact Hfill.
  - destruct (step_fill_row E0 k si st row Hsi HE Hr Hfill ltac:(lia))
      as [st1 [row1 [Hstep [HE1 [Hc1 Hfill1]]]]].
    assert (cache st1 !! Z.to_nat si = Some row1) as Hr1.
    { rewrite Hc1. apply list_lookup_insert_eq. eapply lookup_lt_Some. exact Hr. }
    destruct (IH (S k) st1 row1 Hsi ltac:(rewrite HE1; exact HE) Hr1 Hfill1 ltac:(lia))
      as [st2 [row2 [Hrun [HE2 [Hc2 Hfill2]]]]].
    exists st2, row2. split; [|split; [|split]].
    + unfold fill_row_ops. simpl seq. simpl map. rewrite run_cons, Hstep. exact Hrun.
    + rewrite HE2. exact HE1.
    + rewrite Hc2, Hc1. apply list_insert_insert_eq.
    + replace (k + S n)%nat with (S k + n)%nat by lia. exact Hfill2.
Qed.

Lemma row_filled_full E0 row :
  row_filled E0 E0 row -> dirty_lines_of_row row = Z.of_nat E0.
Proof.
  intros [pre [Hrow [Hlen Hpre]]].
  replace (E0 - E0)%nat with 0%nat in Hrow by lia. simpl in Hrow.
  rewrite app_nil_r in Hrow. subst row. rewrite <- Hlen. clear Hlen.
  induction Hpre as [|l pre [Hv [Hd _]] _ IH]; [reflexivity|].
  simpl dirty_lines_of_row. unfold is_dirty. rewrite Hv, Hd, IH.
  change ((1 =? 1) && (1 =? 1)) with true. cbv iota. simpl length. lia.
Qed.

Lemma row_filled_empty E0 : row_filled E0 0 (replicate E0 empty_line).
Proof.
  exists []. split; [|split].
  - simpl. f_equal. lia.
  - reflexivity.
  - constructor.
Qed.

Lemma init_cache_two_rows E0 :
  init_cache 1 0 E0
  = Ok (mkState [replicate (Z.to_nat E0) empty_line; replicate (Z.to_nat E0) empty_line]
                0 0 0 0 0 0 2 1 E0).
Proof. reflexivity. Qed.

Lemma run_fill_two_rows (E0 : Z) :
  exists st,
    reachable 1 0 E0
      (fill_row_ops 0 0 (Z.to_nat E0) ++ fill_row_ops 1 0 (Z.to_nat E0)) st /\
    dirty_lines (cache st) = 2 * Z.of_nat (Z.to_nat E0).
Proof.
  set (n := Z.to_nat E0).
  set (st0 := mkState [replicate n empty_line; replicate n empty_line]
                      0 0 0 0 0 0 2 1 E0).
  destruct (run_fill_row n 0 n 0%nat st0 (replicate n empty_line) ltac:(lia) eq_refl eq_refl
              (row_filled_empty n) ltac:(lia)) as [st1 [row1 [Hrun1 [HE1 [Hc1 Hfill1]]]]].
  simpl in Hc1.
  assert (cache st1 !! Z.to_nat 1 = Some (replicate n empty_line)) as Hr1
    by (rewrite Hc1; reflexivity).
  destruct (run_fill_row n 1 n 0%nat st1 (replicate n empty_line) ltac:(lia)
              ltac:(rewrite HE1; reflexivity) Hr1
              (row_filled_empty n) ltac:(lia)) as [st2 [row2 [Hrun2 [HE2 [Hc2 Hfill2]]]]].
  rewrite Hc1 in Hc2. simpl in Hc2.
  exists st2. split.
  - exists st0. split; [apply init_cache_two_rows|].
    rewrite run_app, Hrun1. exact Hrun2.
  - rewrite Hc2. simpl.
    rewrite (row_filled_full n row1 Hfill1), (row_filled_full n row2 Hfill2). lia.
Qed.

(** Two sets of 2^30 lines each (s = 1, b = 0, E = 2^30) and one store to
    every line: 2^31 lines are valid and dirty, and [dirtyInCache] has
    wrapped to [INT_MIN]. *)
Lemma dirtyInCache_wraps_in_large_table :
  exists st,
    reachable 1 0 1073741824
      (fill_row_ops 0 0 (Z.to_nat 1073741824) ++ fill_row_ops 1 0 (Z.to_nat 1073741824))
      st /\
    dirty_lines (cache st) = 2147483648 /\
    dirtyInCache st = -2147483648 /\
    dirtyInCache st <> dirty_lines (cache st).
Proof.
  destruct (run_fill_two_rows 1073741824) as [st [Hreach Hcount]].
  rewrite Z2Nat.id in Hcount by lia.
  exists st. split; [exact Hreach|].
  destruct (reachable_dirty_counted _ _ _ _ _ Hreach) as [Hd _].
  rewrite Hcount in Hd. change (2 * 1073741824) with 2147483648 in *.
  split; [exact Hcount|]. split; [exact Hd|].
  rewrite Hd, Hcount. discriminate.
Qed.

(** * Further properties of the code *)

(** ** Configuration *)

(** [checkValidInput] accepts exactly the non-negative [s] and [b] with a
    positive [E] whose [int] sum [s + b] is at most 64; it reports a
    negative [s] or [b] or a non-positive [E] as "Incorrect Invocations."
    and, these being fine, a sum above 64 as "Failed to allocate memory.".
    The sum is formed in [int]: for [s] and [b] within [int] it passes the
    test when it is at most 64 and also when it exceeds [INT_MAX]. *)
Theorem checkValidInput_cases (s b E0 : Z) :
  (checkValidInput s b E0 = Ok tt <->
     0 <= s /\ 0 <= b /\ 0 < E0 /\ add_int s b <= 64) /\
  (checkValidInput s b E0 = Exit IncorrectInvocations <-> s < 0 \/ b < 0 \/ E0 <= 0) /\
  (checkValidInput s b E0 = Exit FailedToAllocate <->
     0 <= s /\ 0 <= b /\ 0 < E0 /\ 64 < add_int s b) /\
  checkValidInput s b E0 <> Undefined /\
  (0 <= s <= INT_MAX -> 0 <= b <= INT_MAX ->
   (add_int s b <= 64 <-> s + b <= 64 \/ INT_MAX < s + b)).
Proof.
  assert (0 <= s <= INT_MAX -> 0 <= b <= INT_MAX ->
          (add_int s b <= 64 <-> s + b <= 64 \/ INT_MAX < s + b)) as Hsum.
  { intros Hs Hb. unfold add_int. rewrite to_int_eq. unfold INT_MAX in *. lia. }
  unfold checkValidInput.
  destruct ((s <? 0) || (b <? 0) || (E0 <=? 0)) eqn:H1;
    [|destruct (add_int s b >? 64) eqn:H2];
    (split; [|split; [|split; [|split; [discriminate | exact Hsum]]]]);
    (split; [try discriminate; try (intros _; lia)
            | try reflexivity; try (intros; exfalso; lia)]).
Qed.

(** [init_cache] has a defined result exactly for [s] and [b] within
    0 .. 31.  Up to 30 bits it sets [S] to 2^s and [B] to 2^b and builds 2^s
    rows of [E] lines each, every line invalid and clean with tag 0 and
    time stamp 0, all counters at 0.  With s = 31 the row count [1 << 31]
    is [INT_MIN]: no row is built and no access has a defined outcome. *)
Theorem init_cache_table (s b E0 : Z) :
  ((exists st, init_cache s b E0 = Ok st) <-> 0 <= s < 32 /\ 0 <= b < 32) /\
  (0 <= s <= 30 -> 0 <= b <= 30 ->
   exists st, init_cache s b E0 = Ok st /\
     S_ st = 2 ^ s /\ B st = 2 ^ b /\ E st = E0 /\
     Z.of_nat (length (cache st)) = 2 ^ s /\
     Forall (fun row => row = replicate (Z.to_nat E0) empty_line) (cache st) /\
     hit st = 0 /\ miss st = 0 /\ eviction st = 0 /\
     dirtyInCache st = 0 /\ dirtyEvicted st = 0 /\ time st = 0) /\
  (s = 31 -> 0 <= b < 32 ->
   exists st, init_cache s b E0 = Ok st /\ S_ st = INT_MIN /\ cache st = [] /\
     forall a, step a st = Undefined).
Proof.
  unfold init_cache, shl_int. split; [|split].
  - destruct ((0 <=? s) && (s <? 32)) eqn:Hs; simpl.
    + destruct ((0 <=? b) && (b <? 32)) eqn:Hb; simpl.
      * split; [lia | intros _; eexists; reflexivity].
      * split; [intros [st H]; discriminate | lia].
    + split; [intros [st H]; discriminate | lia].
  - intros Hs Hb.
    destruct ((0 <=? s) && (s <? 32)) eqn:Hs'; [|lia].
    destruct ((0 <=? b) && (b <? 32)) eqn:Hb'; [|lia].
    simpl. eexists. split; [reflexivity|]. simpl.
    pose proof (pow2_le_30 s Hs). pose proof (pow2_le_30 b Hb).
    rewrite !Z.mul_1_l.
    rewrite !to_int_small by (unfold INT_MIN, INT_MAX; lia).
    repeat split.
    + rewrite length_replicate. lia.
    + apply Forall_replicate. reflexivity.
  - intros -> Hb.
    destruct ((0 <=? b) && (b <? 32)) eqn:Hb'; [|lia].
    simpl. eexists. split; [reflexivity|]. simpl.
    split; [reflexivity|]. split; [reflexivity|].
    intros a. apply step_no_row. intros row Hrow.
    apply row_at_Ok in Hrow as [_ Hrow]. simpl in Hrow.
    change (Z.to_nat (to_int (1 * 2 ^ 31))) with 0%nat in Hrow.
    simpl in Hrow. rewrite lookup_nil in Hrow. discriminate.
Qed.

Lemma init_cache_table_witness :
  exists st, init_cache 2 3 4 = Ok st /\
     S_ st = 2 ^ 2 /\ B st = 2 ^ 3 /\ E st = 4 /\
     Z.of_nat (length (cache st)) = 2 ^ 2 /\
     Forall (fun row => row = replicate (Z.to_nat 4) empty_line) (cache st) /\
     hit st = 0 /\ miss st = 0 /\ eviction st = 0 /\
     dirtyInCache st = 0 /\ dirtyEvicted st = 0 /\ time st = 0.
Proof.
  apply (proj1 (proj2 (init_cache_table 2 3 4))); lia.
Defined.

(** ** The searches of a set *)

(** On a row of [E] lines [find_matched_line] returns the index of the
    first line that is valid and holds the tag, and -1 exactly when no
    line does. *)
Theorem find_matched_line_first (tg si : Z) (st : state) (row : list Line) :
  row_at (cache st) si = Ok row ->
  length row = Z.to_nat (E st) ->
  (find_matched_line tg si st = Ok (-1) /\ Forall (fun l => ~ matches tg l) row) \/
  (exists k, find_matched_line tg si st = Ok (Z.of_nat k) /\
             first_at (matches tg) row k).
Proof.
  intros Hr Hlen. rewrite (find_matched_line_row _ _ _ _ Hr Hlen).
  destruct (find_matched_from_spec row 0 tg ltac:(lia)) as [[He Hall]|[k [He Hk]]].
  - left. rewrite He. split; [reflexivity | exact Hall].
  - right. exists k. rewrite He. split; [f_equal; lia | exact Hk].
Qed.

Lemma find_matched_line_first_witness :
  (find_matched_line 7 0 (mkState [[mkLine 1 3 0 1; mkLine 1 7 0 2]] 0 2 0 0 0 2 1 1 2)
   = Ok (-1) /\
   Forall (fun l => ~ matches 7 l) [mkLine 1 3 0 1; mkLine 1 7 0 2]) \/
  (exists k,
     find_matched_line 7 0 (mkState [[mkLine 1 3 0 1; mkLine 1 7 0 2]] 0 2 0 0 0 2 1 1 2)
     = Ok (Z.of_nat k) /\
     first_at (matches 7) [mkLine 1 3 0 1; mkLine 1 7 0 2] k).
Proof.
  apply (find_matched_line_first 7 0
           (mkState [[mkLine 1 3 0 1; mkLine 1 7 0 2]] 0 2 0 0 0 2 1 1 2)
           [mkLine 1 3 0 1; mkLine 1 7 0 2]); reflexivity.
Defined.

(** On a row of [E] lines [find_empty_line] returns the index of the first
    line with [valid == 0], and -1 exactly when the row has none. *)
Theorem find_empty_line_first (si : Z) (st : state) (row : list Line) :
  row_at (cache st) si = Ok row ->
  length row = Z.to_nat (E st) ->
  (find_empty_line si st = Ok (-1) /\ Forall (fun l => ~ free l) row) \/
  (exists k, find_empty_line si st = Ok (Z.of_nat k) /\ first_at free row k).
Proof.
  intros Hr Hlen. rewrite (find_empty_line_row _ _ _ Hr Hlen).
  destruct (find_empty_from_spec row 0 ltac:(lia)) as [[He Hall]|[k [He Hk]]].
  - left. rewrite He. split; [reflexivity | exact Hall].
  - right. exists k. rewrite He. split; [f_equal; lia | exact Hk].
Qed.

Lemma find_empty_line_first_witness :
  (find_empty_line 0 (mkState [[mkLine 1 3 0 1; empty_line]] 0 1 0 0 0 1 1 1 2) = Ok (-1) /\
   Forall (fun l => ~ free l) [mkLine 1 3 0 1; empty_line]) \/
  (exists k,
     find_empty_line 0 (mkState [[mkLine 1 3 0 1; empty_line]] 0 1 0 0 0 1 1 1 2)
     = Ok (Z.of_nat k) /\
     first_at free [mkLine 1 3 0 1; empty_line] k).
Proof.
  apply (find_empty_line_first 0
           (mkState [[mkLine 1 3 0 1; empty_line]] 0 1 0 0 0 1 1 1 2)
           [mkLine 1 3 0 1; empty_line]); reflexivity.
Defined.

(** On a row of [E] lines of which one has a time stamp below 9999999,
    [find_LRU] returns the first index that holds the smallest time stamp
    of the row.  On a row whose time stamps all reach 9999999 (an empty row
    among them) it returns -1. *)
Theorem find_LRU_oldest (si : Z) (st : state) (row : list Line) :
  row_at (cache st) si = Ok row ->
  length row = Z.to_nat (E st) ->
  (Exists (fun l => timeStamp l < 9999999) row ->
   exists k, find_LRU si st = Ok (Z.of_nat k) /\ lru_at row k) /\
  (Forall (fun l => 9999999 <= timeStamp l) row -> find_LRU si st = Ok (-1)).
Proof.
  intros Hr Hlen. rewrite (find_LRU_row _ _ _ Hr Hlen). split.
  - intros Hex. destruct (find_LRU_below_sentinel row Hex) as [k [He Hk]].
    exists k. rewrite He. split; [reflexivity | exact Hk].
  - intros Hall. rewrite (find_LRU_from_sentinel row Hall). reflexivity.
Qed.

Lemma find_LRU_oldest_witness :
  (Exists (fun l => timeStamp l < 9999999) [mkLine 1 3 0 5; mkLine 1 7 0 2] ->
   exists k,
     find_LRU 0 (mkState [[mkLine 1 3 0 5; mkLine 1 7 0 2]] 3 2 0 0 0 5 1 1 2)
     = Ok (Z.of_nat k) /\
     lru_at [mkLine 1 3 0 5; mkLine 1 7 0 2] k) /\
  (Forall (fun l => 9999999 <= timeStamp l) [mkLine 1 3 0 5; mkLine 1 7 0 2] ->
   find_LRU 0 (mkState [[mkLine 1 3 0 5; mkLine 1 7 0 2]] 3 2 0 0 0 5 1 1 2) = Ok (-1)).
Proof.
  apply (find_LRU_oldest 0 (mkState [[mkLine 1 3 0 5; mkLine 1 7 0 2]] 3 2 0 0 0 5 1 1 2)
           [mkLine 1 3 0 5; mkLine 1 7 0 2]); reflexivity.
Defined.

(** ** The remaining paths of the two operations *)

(** A load that misses in a full set (a row of [E] lines, none free)
    overwrites the line [find_LRU] picks with a valid clean line of the new
    tag and the new clock value, and increments [miss] and [eviction]; when
    the victim is dirty it also increments [dirtyEvicted] and decrements
    [dirtyInCache], otherwise both keep their values.  [hit] is unchanged. *)
Theorem load_evicts (tg si : Z) (st : state) (row : list Line) (j : Z) (v : Line) :
  row_at (cache st) si = Ok row ->
  length row = Z.to_nat (E st) ->
  Forall (fun l => ~ matches tg l) row ->
  Forall (fun l => ~ free l) row ->
  find_LRU si st = Ok j ->
  line_at (cache st) si j = Ok v ->
  exists st', load_cache tg si st = Ok st' /\
    cache st' = <[Z.to_nat si := <[Z.to_nat j := mkLine 1 tg 0 (time st')]> row]> (cache st) /\
    time st' = incr (time st) /\ hit st' = hit st /\
    miss st' = incr (miss st) /\ eviction st' = incr (eviction st) /\
    (dirty v = 1 ->
       dirtyEvicted st' = incr (dirtyEvicted st) /\
       dirtyInCache st' = decr (dirtyInCache st)) /\
    (dirty v <> 1 ->
       dirtyEvicted st' = dirtyEvicted st /\ dirtyInCache st' = dirtyInCache st).
Proof.
  intros Hr Hlen Hmiss Hfull Hlru Hv.
  rewrite (find_LRU_row _ _ _ Hr Hlen) in Hlru.
  inversion Hlru as [Hj]. clear Hlru.
  unfold line_at in Hv. rewrite Hr in Hv. simpl in Hv.
  destruct (j <? 0) eqn:Hneg; [discriminate|].
  destruct (row !! Z.to_nat j) as [v'|] eqn:Hrow; [|discriminate].
  inversion Hv; subst v'. clear Hv.
  exists (miss_state Load true tg (Z.to_nat si) (Z.to_nat j) row v st).
  split.
  - change (step (mkAccess Load tg si) st =
            Ok (miss_state Load true tg (Z.to_nat si) (Z.to_nat j) row v st)).
    rewrite (step_unfold (mkAccess Load tg si) st row Hr Hlen). unfold step_on_row. simpl.
    rewrite (find_matched_from_none _ _ Hmiss). simpl.
    rewrite (find_empty_from_none _ Hfull). simpl.
    rewrite Hj, Hneg, Hrow. reflexivity.
  - simpl. rewrite Hj. repeat (split; [reflexivity|]). split.
    + intros Hd. rewrite Hd. split; reflexivity.
    + intros Hd. destruct (dirty v =? 1) eqn:Hd1; [lia | split; reflexivity].
Qed.

Lemma load_evicts_witness :
  exists st', load_cache 1 0 (mkState [[mkLine 1 0 1 1]] 0 1 0 1 0 1 1 1 1) = Ok st' /\
    cache st' = <[Z.to_nat 0 := <[Z.to_nat 0 := mkLine 1 1 0 (time st')]> [mkLine 1 0 1 1]]>
                  [[mkLine 1 0 1 1]] /\
    time st' = incr 1 /\ hit st' = 0 /\
    miss st' = incr 1 /\ eviction st' = incr 0 /\
    (dirty (mkLine 1 0 1 1) = 1 ->
       dirtyEvicted st' = incr 0 /\ dirtyInCache st' = decr 1) /\
    (dirty (mkLine 1 0 1 1) <> 1 -> dirtyEvicted st' = 0 /\ dirtyInCache st' = 1).
Proof.
  apply (load_evicts 1 0 (mkState [[mkLine 1 0 1 1]] 0 1 0 1 0 1 1 1 1)
           [mkLine 1 0 1 1] 0 (mkLine 1 0 1 1)).
  - reflexivity.
  - reflexivity.
  - constructor; [|constructor]. unfold matches; simpl. lia.
  - constructor; [|constructor]. unfold free; simpl. lia.
  - reflexivity.
  - reflexivity.
Defined.

(** A store that hits in the addressed set (a row of [E] lines) rewrites
    the time stamp of the first matching line with the new clock value and
    increments [hit]; a line whose dirty field is 0 becomes dirty and
    [dirtyInCache] is incremented, a line that is dirty already keeps its
    field and the counter.  The rest of the table, [miss], [eviction] and
    [dirtyEvicted] are unchanged. *)
Theorem store_hit_effect (tg si : Z) (st : state) (row : list Line) :
  row_at (cache st) si = Ok row ->
  length row = Z.to_nat (E st) ->
  Exists (matches tg) row ->
  exists (i : nat) (l : Line) (st' : state),
    first_at (matches tg) row i /\ row !! i = Some l /\
    store_cache tg si st = Ok st' /\
    time st' = incr (time st) /\ hit st' = incr (hit st) /\
    miss st' = miss st /\ eviction st' = eviction st /\
    dirtyEvicted st' = dirtyEvicted st /\
    (dirty l = 0 ->
       cache st' = <[Z.to_nat si := <[i := mkLine (valid l) (tag l) 1 (time st')]> row]>
                     (cache st) /\
       dirtyInCache st' = incr (dirtyInCache st)) /\
    (dirty l <> 0 ->
       cache st' =
         <[Z.to_nat si := <[i := mkLine (valid l) (tag l) (dirty l) (time st')]> row]>
           (cache st) /\
       dirtyInCache st' = dirtyInCache st).
Proof.
  intros Hr Hlen Hex.
  destruct (Exists_first_match tg row Hex) as [i Hi].
  destruct Hi as [[l [Hl Hm]] Hlow].
  assert (first_at (matches tg) row i) as Hi
    by (split; [exists l; split; assumption | exact Hlow]).
  exists i, l, (hit_state Store (Z.to_nat si) i row l st).
  split; [exact Hi|]. split; [exact Hl|]. split.
  { apply (step_case_Ok (mkAccess Store tg si) st _ row Hr Hlen).
    apply (case_hit (mkAccess Store tg si)); assumption. }
  unfold hit_state, touch; simpl. repeat (split; [reflexivity|]). split.
  - intros Hd. rewrite Hd. split; reflexivity.
  - intros Hd. destruct (dirty l =? 0) eqn:Hd0; [lia | split; reflexivity].
Qed.

Lemma store_hit_effect_witness :
  exists (i : nat) (l : Line) (st' : state),
    first_at (matches 7) [mkLine 1 7 0 1] i /\ [mkLine 1 7 0 1] !! i = Some l /\
    store_cache 7 0 (mkState [[mkLine 1 7 0 1]] 0 1 0 0 0 1 1 1 1) = Ok st' /\
    time st' = incr 1 /\ hit st' = incr 0 /\
    miss st' = 1 /\ eviction st' = 0 /\ dirtyEvicted st' = 0 /\
    (dirty l = 0 ->
       cache st' = <[Z.to_nat 0 := <[i := mkLine (valid l) (tag l) 1 (time st')]>
                                     [mkLine 1 7 0 1]]> [[mkLine 1 7 0 1]] /\
       dirtyInCache st' = incr 0) /\
    (dirty l <> 0 ->
       cache st' =
         <[Z.to_nat 0 := <[i := mkLine (valid l) (tag l) (dirty l) (time st')]>
                           [mkLine 1 7 0 1]]> [[mkLine 1 7 0 1]] /\
       dirtyInCache st' = 0).
Proof.
  apply (store_hit_effect 7 0 (mkState [[mkLine 1 7 0 1]] 0 1 0 0 0 1 1 1 1)
           [mkLine 1 7 0 1]).
  - reflexivity.
  - reflexivity.
  - constructor. split; reflexivity.
Defined.

(** ** What an access leaves alone *)

Lemma step_config a st st' :
  table_ok st -> step a st = Ok st' ->
  S_ st' = S_ st /\ B st' = B st /\ E st' = E st.
Proof.
  intros Hok H. destruct (step_Ok_cases _ _ _ Hok H) as [row [_ Hc]].
  destruct Hc; simpl; repeat split.
Qed.

Lemma line_of_insert c si i row l' si' j :
  c !! si = Some row ->
  line_of (<[si := <[i := l']> row]> c) si' j =
  if decide (si = si' /\ i = j /\ (j < length row)%nat) then Some l' else line_of c si' j.
Proof.
  intros Hr. unfold line_of.
  destruct (decide (si = si')) as [<-|Hne].
  - rewrite list_lookup_insert_eq by (eapply lookup_lt_Some; exact Hr). rewrite Hr.
    destruct (decide (i = j)) as [<-|Hij].
    + destruct (decide (i < length row)%nat) as [Hlt|Hge].
      * rewrite list_lookup_insert_eq by exact Hlt.
        destruct (decide (si = si /\ i = i /\ (i < length row)%nat)) as [_|Hn];
          [reflexivity | exfalso; apply Hn; auto].
      * rewrite list_insert_ge by lia.
        destruct (decide (si = si /\ i = i /\ (i < length row)%nat)) as [[_ [_ H]]|_];
          [exfalso; lia | reflexivity].
    + rewrite list_lookup_insert_ne by exact Hij.
      destruct (decide (si = si /\ i = j /\ (j < length row)%nat)) as [[_ [H _]]|_];
        [exfalso; exact (Hij H) | reflexivity].
  - rewrite list_lookup_insert_ne by exact Hne.
    destruct (decide (si = si' /\ i = j /\ (j < length row)%nat)) as [[H _]|_];
      [exfalso; exact (Hne H) | reflexivity].
Qed.

(** An access with a defined outcome, on a table whose rows have [E]
    lines, rewrites one line of the addressed row and nothing else of the
    table; it keeps [S], [B], [E] and the number of rows; and a line that
    was valid is valid afterwards: no line is ever invalidated. *)
Theorem access_rewrites_one_line (a : access) (st st' : state) :
  table_ok st ->
  step a st = Ok st' ->
  S_ st' = S_ st /\ B st' = B st /\ E st' = E st /\
  length (cache st') = length (cache st) /\
  (exists i : nat, forall si' j,
     (si' <> Z.to_nat (a_set a) \/ j <> i) ->
     line_of (cache st') si' j = line_of (cache st) si' j) /\
  (forall si' j l,
     line_of (cache st) si' j = Some l -> valid l = 1 ->
     exists l', line_of (cache st') si' j = Some l' /\ valid l' = 1).
Proof.
  intros Hok Hstep.
  destruct (step_config _ _ _ Hok Hstep) as [HS [HB HE]].
  destruct (step_shape _ _ _ Hok Hstep) as [row [i [l' [Hr [Hi [Hc [Hval _]]]]]]].
  apply row_at_Ok in Hr as [_ Hr].
  split; [exact HS|]. split; [exact HB|]. split; [exact HE|].
  split; [rewrite Hc; apply length_insert|].
  split.
  - exists i. intros si' j Hne. rewrite Hc, (line_of_insert _ _ _ _ _ _ _ Hr).
    destruct (decide (Z.to_nat (a_set a) = si' /\ i = j /\ (j < length row)%nat))
      as [[H1 [H2 _]]|_]; [|reflexivity].
    exfalso. destruct Hne as [Hne|Hne]; [exact (Hne (eq_sym H1)) | exact (Hne (eq_sym H2))].
  - intros si' j l Hl Hv. rewrite Hc, (line_of_insert _ _ _ _ _ _ _ Hr).
    destruct (decide (Z.to_nat (a_set a) = si' /\ i = j /\ (j < length row)%nat)) as [_|_].
    + exists l'. split; [reflexivity | exact Hval].
    + exists l. split; [exact Hl | exact Hv].
Qed.

Lemma access_rewrites_one_line_witness :
  S_ (same_tag_state Load 2) = S_ (same_tag_state Load 1) /\
  B (same_tag_state Load 2) = B (same_tag_state Load 1) /\
  E (same_tag_state Load 2) = E (same_tag_state Load 1) /\
  length (cache (same_tag_state Load 2)) = length (cache (same_tag_state Load 1)) /\
  (exists i : nat, forall si' j,
     (si' <> Z.to_nat (a_set (mkAccess Load 0 0)) \/ j <> i) ->
     line_of (cache (same_tag_state Load 2)) si' j
     = line_of (cache (same_tag_state Load 1)) si' j) /\
  (forall si' j l,
     line_of (cache (same_tag_state Load 1)) si' j = Some l -> valid l = 1 ->
     exists l', line_of (cache (same_tag_state Load 2)) si' j = Some l' /\ valid l' = 1).
Proof.
  apply (access_rewrites_one_line (mkAccess Load 0 0)).
  - repeat constructor.
  - reflexivity.
Defined.

(** ** One line for a block *)

Lemma distinct_tags_insert row i l l' :
  distinct_tags row -> row !! i = Some l ->
  (valid l' = 1 ->
   (valid l = 1 /\ tag l' = tag l) \/
   Forall (fun x => ~ matches (tag l') x) row) ->
  distinct_tags (<[i := l']> row).
Proof.
  intros Hd Hl Hnew j1 j2 l1 l2 H1 H2 Hv1 Hv2 Heq.
  apply list_lookup_insert_Some in H1 as [[<- [<- _]]|[Hne1 H1]];
    apply list_lookup_insert_Some in H2 as [[<- [<- _]]|[Hne2 H2]].
  - reflexivity.
  - destruct (Hnew Hv1) as [[Hvl Htl]|Hfresh].
    + apply (Hd i j2 l l2 Hl H2 Hvl Hv2). congruence.
    + exfalso. rewrite Forall_lookup in Hfresh.
      apply (Hfresh _ _ H2). split; [exact Hv2 | congruence].
  - destruct (Hnew Hv2) as [[Hvl Htl]|Hfresh].
    + apply (Hd j1 i l1 l H1 Hl Hv1 Hvl). congruence.
    + exfalso. rewrite Forall_lookup in Hfresh.
      apply (Hfresh _ _ H1). split; [exact Hv1 | congruence].
  - exact (Hd j1 j2 l1 l2 H1 H2 Hv1 Hv2 Heq).
Qed.

Lemma step_distinct_tags a st st' :
  table_ok st -> Forall distinct_tags (cache st) -> step a st = Ok st' ->
  Forall distinct_tags (cache st').
Proof.
  intros Hok Hd H. destruct (step_Ok_cases _ _ _ Hok H) as [row [Hr Hc]].
  apply row_at_Ok in Hr as [_ Hr].
  assert (distinct_tags row) as Hrow by (rewrite Forall_lookup in Hd; exact (Hd _ _ Hr)).
  destruct Hc as [i l Hi Hl | j v Hnone Hj Hv | j v Hnone Hfull Hj Hv Hlt]; simpl;
    (apply Forall_insert; [exact Hd|]).
  - destruct Hi as [[l0 [Hl0 [Hval Htag]]] _].
    assert (l0 = l) by congruence. subst l0.
    apply (distinct_tags_insert row i l); [exact Hrow | exact Hl |].
    intros _. left. split; [exact Hval | reflexivity].
  - apply (distinct_tags_insert row j v); [exact Hrow | exact Hv |].
    intros _. right. exact Hnone.
  - apply (distinct_tags_insert row j v); [exact Hrow | exact Hv |].
    intros _. right. exact Hnone.
Qed.

Lemma run_distinct_tags ops : forall st st',
  table_ok st -> Forall distinct_tags (cache st) -> run ops st = Ok st' ->
  Forall distinct_tags (cache st').
Proof.
  induction ops as [|a ops IH]; intros st st' Hok Hd Hrun.
  - simpl in Hrun. inversion Hrun; subst. exact Hd.
  - rewrite run_cons in Hrun. destruct (step a st) as [st1| |] eqn:Hs; try discriminate.
    rewrite bind_Ok in Hrun.
    exact (IH _ _ (step_table_ok _ _ _ Hok Hs) (step_distinct_tags _ _ _ Hok Hd Hs) Hrun).
Qed.

Lemma init_distinct_tags s b E0 st :
  init_cache s b E0 = Ok st -> Forall distinct_tags (cache st).
Proof.
  intros Hinit.
  destruct (init_cache_counters _ _ _ _ Hinit) as [_ [_ [_ [_ [_ [_ Hc]]]]]].
  rewrite Hc. apply Forall_replicate.
  intros i j li lj Hi Hj Hv. apply lookup_replicate in Hi as [-> _]. discriminate.
Qed.

(** After any sequence of accesses no two valid lines of a set hold the
    same tag: a block is resident in at most one line. *)
Theorem tags_stay_distinct (s b E0 : Z) (ops : list access) (st : state) :
  reachable s b E0 ops st -> Forall distinct_tags (cache st).
Proof.
  intros [st0 [Hinit Hrun]].
  exact (run_distinct_tags ops st0 st (init_table_ok _ _ _ _ Hinit)
           (init_distinct_tags _ _ _ _ Hinit) Hrun).
Qed.

Lemma tags_stay_distinct_witness : Forall distinct_tags (cache (two_line_state 3)).
Proof.
  apply (tags_stay_distinct 0 0 2
           [mkAccess Load 0 0; mkAccess Load 1 0; mkAccess Load 1 0]).
  exists (mkState [[empty_line; empty_line]] 0 0 0 0 0 0 1 1 2). split; reflexivity.
Defined.

(** ** An access and its repetition *)

(** Whatever an access did, the next access to the same block hits: a
    load or a store of the same tag in the same set increments [hit] and
    leaves [miss] and both eviction counters alone; after the load
    [dirtyInCache] is unchanged too. *)
Theorem repeated_access_hits (a : access) (st st' : state) :
  table_ok st ->
  step a st = Ok st' ->
  (exists st'', load_cache (a_tag a) (a_set a) st' = Ok st'' /\
     hit st'' = incr (hit st') /\ miss st'' = miss st' /\
     eviction st'' = eviction st' /\ dirtyEvicted st'' = dirtyEvicted st' /\
     dirtyInCache st'' = dirtyInCache st') /\
  (exists st'', store_cache (a_tag a) (a_set a) st' = Ok st'' /\
     hit st'' = incr (hit st') /\ miss st'' = miss st' /\
     eviction st'' = eviction st' /\ dirtyEvicted st'' = dirtyEvicted st').
Proof.
  intros Hok Hstep.
  pose proof (step_table_ok _ _ _ Hok Hstep) as Hok'.
  destruct (step_shape _ _ _ Hok Hstep) as [row [i [l' [Hr [Hi [Hc [Hval [Htag _]]]]]]]].
  assert (row_at (cache st') (a_set a) = Ok (<[i := l']> row)) as Hr'
    by (rewrite Hc; eapply row_at_insert; exact Hr).
  pose proof (table_ok_row _ _ _ Hok' Hr') as Hlen'.
  assert (Exists (matches (a_tag a)) (<[i := l']> row)) as Hex.
  { apply Exists_exists. exists l'. split.
    - apply list_elem_of_lookup. exists i. apply list_lookup_insert_eq. exact Hi.
    - split; assumption. }
  destruct (Exists_first_match _ _ Hex) as [k Hk].
  destruct Hk as [[l [Hl Hm]] Hlow].
  assert (first_at (matches (a_tag a)) (<[i := l']> row) k) as Hk
    by (split; [exists l; split; assumption | exact Hlow]).
  split.
  - exists (hit_state Load (Z.to_nat (a_set a)) k (<[i := l']> row) l st').
    split; [|repeat split].
    apply (step_case_Ok (mkAccess Load (a_tag a) (a_set a)) st' _ _ Hr' Hlen').
    apply (case_hit (mkAccess Load (a_tag a) (a_set a))); assumption.
  - exists (hit_state Store (Z.to_nat (a_set a)) k (<[i := l']> row) l st').
    split; [|repeat split].
    apply (step_case_Ok (mkAccess Store (a_tag a) (a_set a)) st' _ _ Hr' Hlen').
    apply (case_hit (mkAccess Store (a_tag a) (a_set a))); assumption.
Qed.

Lemma repeated_access_hits_witness :
  (exists st'', load_cache 0 0 (same_tag_state Store 1) = Ok st'' /\
     hit st'' = incr (hit (same_tag_state Store 1)) /\
     miss st'' = miss (same_tag_state Store 1) /\
     eviction st'' = eviction (same_tag_state Store 1) /\
     dirtyEvicted st'' = dirtyEvicted (same_tag_state Store 1) /\
     dirtyInCache st'' = dirtyInCache (same_tag_state Store 1)) /\
  (exists st'', store_cache 0 0 (same_tag_state Store 1) = Ok st'' /\
     hit st'' = incr (hit (same_tag_state Store 1)) /\
     miss st'' = miss (same_tag_state Store 1) /\
     eviction st'' = eviction (same_tag_state Store 1) /\
     dirtyEvicted st'' = dirtyEvicted (same_tag_state Store 1)).
Proof.
  apply (repeated_access_hits (mkAccess Store 0 0) one_line_state).
  - repeat constructor.
  - reflexivity.
Defined.

(** ** The number of valid lines *)

Lemma valid_lines_of_row_insert row : forall i l l',
  row !! i = Some l ->
  valid_lines_of_row (<[i := l']> row)
  = valid_lines_of_row row - (if valid l =? 1 then 1 else 0)
    + (if valid l' =? 1 then 1 else 0).
Proof.
  induction row as [|x row IH]; intros [|i] l l' H; simpl in *; try discriminate.
  - inversion H; subst. lia.
  - rewrite (IH i l l' H). lia.
Qed.

Lemma valid_lines_insert c : forall si row row',
  c !! si = Some row ->
  valid_lines (<[si := row']> c)
  = valid_lines c - valid_lines_of_row row + valid_lines_of_row row'.
Proof.
  induction c as [|x c IH]; intros [|si] row row' H; simpl in *; try discriminate.
  - inversion H; subst. lia.
  - rewrite (IH si row row' H). lia.
Qed.

Lemma valid_lines_replace c si row i l l' :
  c !! si = Some row -> row !! i = Some l ->
  valid_lines (<[si := <[i := l']> row]> c)
  = valid_lines c - (if valid l =? 1 then 1 else 0) + (if valid l' =? 1 then 1 else 0).
Proof.
  intros Hr Hl. rewrite (valid_lines_insert c si row _ Hr).
  rewrite (valid_lines_of_row_insert row i l l' Hl). lia.
Qed.

Lemma valid_lines_of_row_bounds row : 0 <= valid_lines_of_row row <= Z.of_nat (length row).
Proof.
  induction row as [|l row IH]; simpl; [lia|]. destruct (valid l =? 1); lia.
Qed.

Lemma valid_lines_bounds c : 0 <= valid_lines c <= total_lines c.
Proof.
  induction c as [|row c IH]; simpl; [lia|].
  pose proof (valid_lines_of_row_bounds row). lia.
Qed.

Lemma valid_lines_replicate_empty n m :
  valid_lines (replicate n (replicate m empty_line)) = 0.
Proof.
  assert (valid_lines_of_row (replicate m empty_line) = 0) as Hrow
    by (induction m as [|m IHm]; simpl; [reflexivity | exact IHm]).
  induction n as [|n IH]; simpl; [reflexivity|]. rewrite Hrow, IH. reflexivity.
Qed.

Lemma step_occupied n a st st' :
  table_ok st -> occupied n st -> step a st = Ok st' -> occupied (n + 1) st'.
Proof.
  intros Htab [m [e [d [Hde [Hem [Hm [He [Hd [Hv Hok]]]]]]]]] Hstep.
  destruct (step_dirty_move _ _ _ Htab Hok Hstep) as [_ Hok'].
  apply (step_Ok_cases _ _ _ Htab) in Hstep as [row [Hr Hc]].
  apply row_at_Ok in Hr as [_ Hr].
  assert (Forall line_ok row) as Hrow_ok.
  { rewrite Forall_lookup in Hok. exact (Hok _ _ Hr). }
  rewrite Forall_lookup in Hrow_ok.
  destruct Hc as [i l Hi Hl | j v Hnone Hj Hvj | j v Hnone Hfull Hj Hvj Hlt].
  - destruct Hi as [[l0 [Hl0 [Hval Htag]]] _].
    assert (l0 = l) by congruence. subst l0.
    exists m, e, d. split; [lia|]. split; [lia|].
    split; [exact Hm|]. split; [exact He|]. split; [exact Hd|].
    split; [|exact Hok'].
    unfold hit_state; simpl. rewrite (valid_lines_replace _ _ _ _ _ _ Hr Hl).
    unfold touch; simpl. lia.
  - destruct Hj as [[v0 [Hv0 Hfree]] _].
    assert (v0 = v) by congruence. subst v0. unfold free in Hfree.
    exists (m + 1), e, d. split; [lia|]. split; [lia|].
    split; [simpl; rewrite Hm; apply incr_to_int|].
    split; [exact He|]. split; [exact Hd|].
    split; [|exact Hok'].
    unfold miss_state; simpl. rewrite (valid_lines_replace _ _ _ _ _ _ Hr Hvj).
    unfold fill; simpl. rewrite Hfree. simpl. lia.
  - assert (~ free v) as Hnf.
    { rewrite Forall_lookup in Hfull. exact (Hfull _ _ Hvj). }
    unfold free in Hnf.
    pose proof (Hrow_ok _ _ Hvj) as [[Hv0 _]|[Hv1 Hdv]]; [lia|].
    assert (valid_lines (cache (miss_state (a_kind a) true (a_tag a)
                                  (Z.to_nat (a_set a)) j row v st)) = m + 1 - (e + 1))
      as Hcount.
    { unfold miss_state; simpl. rewrite (valid_lines_replace _ _ _ _ _ _ Hr Hvj).
      unfold fill; simpl. rewrite Hv1. simpl. lia. }
    destruct Hdv as [Hdv|Hdv].
    + exists (m + 1), (e + 1), d. split; [lia|]. split; [lia|].
      split; [simpl; rewrite Hm; apply incr_to_int|].
      split; [simpl; rewrite He; apply incr_to_int|].
      split; [simpl; rewrite Hdv; exact Hd|].
      split; [exact Hcount | exact Hok'].
    + exists (m + 1), (e + 1), (d + 1). split; [lia|]. split; [lia|].
      split; [simpl; rewrite Hm; apply incr_to_int|].
      split; [simpl; rewrite He; apply incr_to_int|].
      split; [simpl; rewrite Hdv, Hd; apply incr_to_int|].
      split; [exact Hcount | exact Hok'].
Qed.

Lemma run_occupied ops : forall n st st',
  table_ok st -> occupied n st -> run ops st = Ok st' ->
  occupied (n + Z.of_nat (length ops)) st'.
Proof.
  induction ops as [|a ops IH]; intros n st st' Htab Ho Hrun.
  - simpl in Hrun. inversion Hrun; subst.
    replace (n + Z.of_nat (length (@nil access))) with n by (simpl; lia). exact Ho.
  - rewrite run_cons in Hrun. destruct (step a st) as [st1| |] eqn:Hs; try discriminate.
    rewrite bind_Ok in Hrun.
    replace (n + Z.of_nat (length (a :: ops))) with (n + 1 + Z.of_nat (length ops))
      by (simpl length; lia).
    exact (IH _ _ _ (step_table_ok _ _ _ Htab Hs) (step_occupied _ _ _ _ Htab Ho Hs) Hrun).
Qed.

Lemma init_occupied s b E0 st : init_cache s b E0 = Ok st -> occupied 0 st.
Proof.
  intros Hinit.
  destruct (init_cache_counters _ _ _ _ Hinit) as [_ [Hm [He [_ [Hd [_ Hc]]]]]].
  exists 0, 0, 0. split; [lia|]. split; [lia|].
  split; [rewrite Hm; reflexivity|]. split; [rewrite He; reflexivity|].
  split; [rewrite Hd; reflexivity|].
  split.
  - rewrite Hc, valid_lines_replicate_empty. reflexivity.
  - rewrite Hc. apply Forall_replicate, Forall_replicate. left. split; reflexivity.
Qed.

(** The lines in use are the misses that did not evict.  After a sequence
    of at most [INT_MAX] accesses, the number of valid lines of the table
    is [miss - eviction]; the counters are ordered,
    [0 <= dirtyEvicted <= eviction <= miss <= number of accesses]; and
    [miss - eviction] never exceeds the number of lines of the table. *)
Theorem valid_lines_are_misses_less_evictions
    (s b E0 : Z) (ops : list access) (st : state) :
  reachable s b E0 ops st ->
  Z.of_nat (length ops) <= INT_MAX ->
  valid_lines (cache st) = miss st - eviction st /\
  0 <= dirtyEvicted st <= eviction st /\
  eviction st <= miss st <= Z.of_nat (length ops) /\
  miss st - eviction st <= total_lines (cache st).
Proof.
  intros [st0 [Hinit Hrun]] Hlen.
  pose proof (run_occupied ops 0 st0 st (init_table_ok _ _ _ _ Hinit)
                (init_occupied _ _ _ _ Hinit) Hrun)
    as [m [e [d [Hde [Hem [Hm [He [Hd [Hv _]]]]]]]]].
  unfold INT_MAX in Hlen.
  rewrite to_int_small in Hm by (unfold INT_MIN, INT_MAX; lia).
  rewrite to_int_small in He by (unfold INT_MIN, INT_MAX; lia).
  rewrite to_int_small in Hd by (unfold INT_MIN, INT_MAX; lia).
  pose proof (valid_lines_bounds (cache st)).
  rewrite Hm, He, Hd. repeat split; lia.
Qed.

Lemma valid_lines_are_misses_less_evictions_witness :
  valid_lines (cache (two_line_state 3))
  = miss (two_line_state 3) - eviction (two_line_state 3) /\
  0 <= dirtyEvicted (two_line_state 3) <= eviction (two_line_state 3) /\
  eviction (two_line_state 3) <= miss (two_line_state 3) <= 3 /\
  miss (two_line_state 3) - eviction (two_line_state 3)
  <= total_lines (cache (two_line_state 3)).
Proof.
  apply (valid_lines_are_misses_less_evictions 0 0 2
           [mkAccess Load 0 0; mkAccess Load 1 0; mkAccess Load 1 0]).
  - exists (mkState [[empty_line; empty_line]] 0 0 0 0 0 0 1 1 2). split; reflexivity.
  - unfold INT_MAX. simpl. lia.
Defined.

(** ** The records of a trace *)

Lemma is_L_false c : c <> "L"%char -> is_L c = false.
Proof. intros H. unfold is_L. apply Ascii.eqb_neq. exact H. Qed.

Lemma is_S_false c : c <> "S"%char -> is_S c = false.
Proof. intros H. unfold is_S. apply Ascii.eqb_neq. exact H. Qed.

Lemma process_cons_Ok r rest s E0 b st tg si st1 :
  0 <= size r < 16 ->
  decode s b (Z.of_N (addr r)) = Ok (tg, si) ->
  (if is_L (action r) then load_cache tg si st
   else if is_S (action r) then store_cache tg si st
   else Exit InvalidAction) = Ok st1 ->
  process_trace_file (r :: rest) s E0 b st = process_trace_file rest s E0 b st1.
Proof.
  intros Hsz Hd Hst. simpl.
  pose proof (N2Z.is_nonneg (addr r)) as Hnn.
  destruct (Z.of_N (addr r) <? 0) eqn:Ha; [exfalso; lia|].
  destruct ((size r <? 0) || (size r >=? MAX_SIZE)) eqn:Hs;
    [exfalso; unfold MAX_SIZE in Hs; lia|].
  rewrite Hd. rewrite bind_Ok. rewrite Hst. rewrite bind_Ok. reflexivity.
Qed.

(** A record whose action is neither L nor S ends the run with "Invalid
    action", once the records before it were processed, when its size is
    within 0 .. 15 and its address decodes: the size test and the
    decomposition of the address come before the switch on the action. *)
Theorem invalid_action_is_fatal
    (pre post : list trace_line) (r : trace_line) (s E0 b tg si : Z) (st st' : state) :
  process_trace_file pre s E0 b st = Ok st' ->
  0 <= size r < 16 ->
  decode s b (Z.of_N (addr r)) = Ok (tg, si) ->
  action r <> "L"%char -> action r <> "S"%char ->
  process_trace_file (pre ++ r :: post) s E0 b st = Exit InvalidAction.
Proof.
  intros Hpre Hsz Hd HL HS.
  rewrite process_app, Hpre, bind_Ok. simpl.
  pose proof (N2Z.is_nonneg (addr r)) as Hnn.
  destruct (Z.of_N (addr r) <? 0) eqn:Ha; [exfalso; lia|].
  destruct ((size r <? 0) || (size r >=? MAX_SIZE)) eqn:Hs;
    [exfalso; unfold MAX_SIZE in Hs; lia|].
  rewrite Hd, bind_Ok, (is_L_false _ HL), (is_S_false _ HS). reflexivity.
Qed.

Lemma invalid_action_is_fatal_witness :
  process_trace_file ([mkTraceLine "L" 0 1] ++ mkTraceLine "M" 16 4 :: [mkTraceLine "S" 0 1])
                     0 1 0 one_line_state
  = Exit InvalidAction.
Proof.
  apply (invalid_action_is_fatal _ _ _ 0 1 0 16 0 one_line_state (same_tag_state Load 1)).
  - reflexivity.
  - simpl. lia.
  - reflexivity.
  - discriminate.
  - discriminate.
Defined.

(** When the processing of a trace ends with a diagnostic, the records
    before some record were all processed and that record is the cause:
    either its size is outside 0 .. 15 ("Size is out of range"), or its
    size is fine and its action is neither L nor S ("Invalid action").
    The diagnostic "Address ... is out of range" is never given: the
    address is an [unsigned long], which is never negative. *)
Theorem trace_exit_cause
    (trace : list trace_line) (s E0 b : Z) (st : state) (f : fatal) :
  process_trace_file trace s E0 b st = Exit f ->
  exists pre r post st',
    trace = pre ++ r :: post /\
    process_trace_file pre s E0 b st = Ok st' /\
    ((f = SizeOutOfRange /\ bad_size r) \/
     (f = InvalidAction /\ ~ bad_size r /\
      action r <> "L"%char /\ action r <> "S"%char)).
Proof.
  revert st. induction trace as [|r trace IH]; intros st H; [discriminate|].
  pose proof (N2Z.is_nonneg (addr r)) as Hnn.
  destruct (Z_lt_ge_dec (size r) 0) as [Hneg|Hnn0];
    [|destruct (Z_lt_ge_dec (size r) 16) as [Hlt|Hge]].
  - rewrite process_bad_size in H by (left; exact Hneg). inversion H; subst.
    exists [], r, trace, st. split; [reflexivity|]. split; [reflexivity|].
    left. split; [reflexivity | left; exact Hneg].
  - assert (~ bad_size r) as Hgood by (unfold bad_size; lia).
    destruct (decode s b (Z.of_N (addr r))) as [[tg si]|f'|] eqn:Hd.
    + destruct (if is_L (action r) then load_cache tg si st
                else if is_S (action r) then store_cache tg si st
                else Exit InvalidAction) as [st1|f'|] eqn:Hst.
      * rewrite (process_cons_Ok r trace s E0 b st tg si st1 ltac:(lia) Hd Hst) in H.
        destruct (IH _ H) as [pre [r' [post [st' [Heq [Hpre Hcause]]]]]].
        exists (r :: pre), r', post, st'. split; [rewrite Heq; reflexivity|].
        split; [|exact Hcause].
        rewrite (process_cons_Ok r pre s E0 b st tg si st1 ltac:(lia) Hd Hst). exact Hpre.
      * exists [], r, trace, st. split; [reflexivity|]. split; [reflexivity|].
        right.
        destruct (is_L (action r)) eqn:HL.
        { exfalso. exact (step_not_Exit (mkAccess Load tg si) st f' Hst). }
        destruct (is_S (action r)) eqn:HS.
        { exfalso. exact (step_not_Exit (mkAccess Store tg si) st f' Hst). }
        inversion Hst; subst f'.
        simpl in H. 
        destruct (Z.of_N (addr r) <? 0) eqn:Ha; [exfalso; lia|].
        destruct ((size r <? 0) || (size r >=? MAX_SIZE)) eqn:Hs;
          [exfalso; unfold MAX_SIZE in Hs; lia|].
        rewrite Hd, bind_Ok, HL, HS, bind_Exit in H. inversion H; subst f.
        split; [reflexivity|]. split; [exact Hgood|].
        split; intros Hc; rewrite Hc in *; discriminate.
      * exfalso. simpl in H.
        destruct (Z.of_N (addr r) <? 0) eqn:Ha; [lia|].
        destruct ((size r <? 0) || (size r >=? MAX_SIZE)) eqn:Hs;
          [unfold MAX_SIZE in Hs; lia|].
        rewrite Hd, bind_Ok, Hst, bind_Undefined in H. discriminate.
    + exfalso. exact (decode_not_Exit _ _ _ _ Hd).
    + exfalso. simpl in H.
      destruct (Z.of_N (addr r) <? 0) eqn:Ha; [lia|].
      destruct ((size r <? 0) || (size r >=? MAX_SIZE)) eqn:Hs;
        [unfold MAX_SIZE in Hs; lia|].
      rewrite Hd, bind_Undefined in H. discriminate.
  - rewrite process_bad_size in H by (right; lia). inversion H; subst.
    exists [], r, trace, st. split; [reflexivity|]. split; [reflexivity|].
    left. split; [reflexivity | right; lia].
Qed.

Lemma trace_exit_cause_witness :
  exists pre r post st',
    [mkTraceLine "L" 0 1; mkTraceLine "S" 1 16; mkTraceLine "M" 0 1]
    = pre ++ r :: post /\
    process_trace_file pre 0 1 0 one_line_state = Ok st' /\
    ((SizeOutOfRange = SizeOutOfRange /\ bad_size r) \/
     (SizeOutOfRange = InvalidAction /\ ~ bad_size r /\
      action r <> "L"%char /\ action r <> "S"%char)).
Proof.
  apply (trace_exit_cause
           [mkTraceLine "L" 0 1; mkTraceLine "S" 1 16; mkTraceLine "M" 0 1]
           0 1 0 one_line_state SizeOutOfRange).
  reflexivity.
Defined.

(** ** The decomposition of an address *)

Lemma to_ulong_to_long x : 0 <= x < 2 ^ 64 -> to_ulong (to_long x) = x.
Proof.
  unfold to_ulong, to_long, wrap_signed.
  change (2 ^ (64 - 1)) with 9223372036854775808.
  change (2 ^ 64) with 18446744073709551616. lia.
Qed.

Lemma to_long_inj x y :
  0 <= x < 2 ^ 64 -> 0 <= y < 2 ^ 64 -> to_long x = to_long y -> x = y.
Proof.
  intros Hx Hy H. rewrite <- (to_ulong_to_long x Hx), <- (to_ulong_to_long y Hy), H.
  reflexivity.
Qed.

Lemma shiftr_block s b a :
  0 <= s -> 0 <= b -> Z.shiftr a (s + b) = a / 2 ^ b / 2 ^ s.
Proof.
  intros Hs Hb. rewrite Z.shiftr_div_pow2 by lia.
  rewrite (Z.add_comm s b), Z.pow_add_r by lia.
  pose proof (Z.pow_pos_nonneg 2 b ltac:(lia) Hb).
  pose proof (Z.pow_pos_nonneg 2 s ltac:(lia) Hs).
  symmetry. apply Z.div_div; lia.
Qed.

Lemma div_pow2_range a n : 0 <= n -> 0 <= a < 2 ^ 64 -> 0 <= a / 2 ^ n < 2 ^ 64.
Proof.
  intros Hn Ha. pose proof (Z.pow_pos_nonneg 2 n ltac:(lia) Hn) as Hp. split.
  - apply Z.div_pos; lia.
  - apply Z.div_lt_upper_bound; [lia|]. nia.
Qed.

Lemma decode_block s b a :
  0 <= s -> 0 <= b -> s + b <= 31 -> 0 <= a < 2 ^ 64 ->
  decode s b a = Ok (to_long (a / 2 ^ b / 2 ^ s), (a / 2 ^ b) mod 2 ^ s).
Proof.
  intros Hs Hb Hsb Ha. rewrite decode_narrow by assumption.
  rewrite shiftr_block by assumption. rewrite (Z.shiftr_div_pow2 a b) by lia.
  reflexivity.
Qed.

(** For [s + b <= 31] the decomposition loses nothing but the offset
    within the block: the set index lies within 0 .. 2^s - 1, the address
    is tag * 2^(s+b) + set * 2^b + offset (the tag read as
    [unsigned long]), and another address has the same tag and set exactly
    when it lies in the same block of 2^b bytes. *)
Theorem decode_recomposes (s b a : Z) :
  0 <= s -> 0 <= b -> s + b <= 31 -> 0 <= a < 2 ^ 64 ->
  exists tg si,
    decode s b a = Ok (tg, si) /\
    0 <= si < 2 ^ s /\
    a = to_ulong tg * 2 ^ (s + b) + si * 2 ^ b + a mod 2 ^ b /\
    (forall a', 0 <= a' < 2 ^ 64 ->
       (decode s b a' = Ok (tg, si) <-> a' / 2 ^ b = a / 2 ^ b)).
Proof.
  intros Hs Hb Hsb Ha.
  pose proof (Z.pow_pos_nonneg 2 b ltac:(lia) Hb) as Hpb.
  pose proof (Z.pow_pos_nonneg 2 s ltac:(lia) Hs) as Hps.
  pose proof (div_pow2_range a b Hb Ha) as Hq.
  pose proof (div_pow2_range (a / 2 ^ b) s Hs Hq) as Hx.
  exists (to_long (a / 2 ^ b / 2 ^ s)), ((a / 2 ^ b) mod 2 ^ s).
  split; [apply decode_block; assumption|].
  split; [apply Z.mod_pos_bound; lia|].
  split.
  - rewrite (to_ulong_to_long _ Hx), Z.pow_add_r by lia.
    pose proof (Z.div_mod a (2 ^ b) ltac:(lia)) as Ea.
    pose proof (Z.div_mod (a / 2 ^ b) (2 ^ s) ltac:(lia)) as Eq.
    remember (a mod 2 ^ b) as r eqn:Er. remember (a / 2 ^ b) as q eqn:Eq'.
    remember (q mod 2 ^ s) as y eqn:Ey. remember (q / 2 ^ s) as x eqn:Ex.
    rewrite Ea, Eq. ring.
  - intros a' Ha'.
    pose proof (div_pow2_range a' b Hb Ha') as Hq'.
    pose proof (div_pow2_range (a' / 2 ^ b) s Hs Hq') as Hx'.
    rewrite (decode_block s b a') by assumption. split.
    + intros H. inversion H as [[Ht Hsi]].
      apply to_long_inj in Ht; [|assumption|assumption].
      rewrite (Z.div_mod (a' / 2 ^ b) (2 ^ s)), (Z.div_mod (a / 2 ^ b) (2 ^ s)) by lia.
      rewrite Ht, Hsi. reflexivity.
    + intros H. rewrite H. reflexivity.
Qed.

Lemma decode_recomposes_witness :
  exists tg si,
    decode 2 4 1000 = Ok (tg, si) /\
    0 <= si < 2 ^ 2 /\
    1000 = to_ulong tg * 2 ^ (2 + 4) + si * 2 ^ 4 + 1000 mod 2 ^ 4 /\
    (forall a', 0 <= a' < 2 ^ 64 ->
       (decode 2 4 a' = Ok (tg, si) <-> a' / 2 ^ 4 = 1000 / 2 ^ 4)).
Proof.
  apply (decode_recomposes 2 4 1000); simpl; lia.
Defined.

(** ** Runs that stay defined *)

Lemma step_safe n a st row :
  table_ok st -> 1 <= E st ->
  row_at (cache st) (a_set a) = Ok row ->
  stamped_by n row -> Forall line_ok row -> n < 9999999 ->
  exists st', step a st = Ok st'.
Proof.
  intros Htab HE Hr Hst Hok Hn.
  pose proof (table_ok_row _ _ _ Htab Hr) as Hlen.
  destruct (find_matched_from_spec row 0 (a_tag a) ltac:(lia)) as [[_ Hnone]|[i [_ Hi]]].
  - destruct (find_empty_from_spec row 0 ltac:(lia)) as [[_ Hfull]|[j [_ Hj]]].
    + destruct row as [|l0 row0]; [simpl in Hlen; lia|].
      assert (valid l0 = 1) as Hv0.
      { inversion Hok as [|? ? Hl0 _]; subst. inversion Hfull as [|? ? Hnf _]; subst.
        unfold free in Hnf. destruct Hl0 as [[H0 _]|[H1 _]]; [contradiction | exact H1]. }
      destruct (Hst 0%nat l0 eq_refl Hv0) as [k [Hk Hts]].
      rewrite to_int_small in Hts by (unfold INT_MIN, INT_MAX; lia).
      assert (Exists (fun l => timeStamp l < 9999999) (l0 :: row0)) as Hex
        by (apply Exists_cons_hd; lia).
      destruct (find_LRU_below_sentinel _ Hex) as [j [_ Hj]].
      pose proof Hj as [v [Hv Hmin]].
      destruct (Hmin 0%nat l0 eq_refl) as [Hle _].
      eexists. apply (step_case_Ok a st _ _ Hr Hlen).
      apply (case_evict a st _ j v); [exact Hnone | exact Hfull | exact Hj | exact Hv | lia].
    + pose proof Hj as [[v [Hv _]] _].
      eexists. apply (step_case_Ok a st _ _ Hr Hlen).
      apply (case_fill a st _ j v); assumption.
  - pose proof Hi as [[l [Hl _]] _].
    eexists. apply (step_case_Ok a st _ _ Hr Hlen).
    apply (case_hit a st _ i l); assumption.
Qed.

Lemma step_safe_state s E0 n a st st' :
  0 <= n -> n + 1 < 4294967296 ->
  safe_state s E0 n st -> step a st = Ok st' -> safe_state s E0 (n + 1) st'.
Proof.
  intros Hn0 Hn [Htab [HE [Hlen [Hst Hok]]]] Hstep.
  destruct (step_config _ _ _ Htab Hstep) as [_ [_ HE']].
  destruct (step_shape _ _ _ Htab Hstep) as [row [i [l' [_ [_ [Hc _]]]]]].
  split; [exact (step_table_ok _ _ _ Htab Hstep)|].
  split; [congruence|].
  split; [rewrite Hc, length_insert; exact Hlen|].
  split; [exact (step_stamps_ok _ _ _ _ Hn0 Hn Htab Hst Hstep)|].
  exact (proj2 (step_dirty_move _ _ _ Htab Hok Hstep)).
Qed.

Lemma process_safe s b E0 trace : forall n st,
  0 <= s -> 0 <= b -> s + b <= 31 -> 1 <= E0 ->
  Forall well_formed_record trace ->
  0 <= n -> n + Z.of_nat (length trace) <= 9999999 ->
  safe_state s E0 n st ->
  exists st', process_trace_file trace s E0 b st = Ok st'.
Proof.
  induction trace as [|r trace IH]; intros n st Hs Hb Hsb HE0 Hwf Hn0 Hn Hsafe.
  - exists st. reflexivity.
  - inversion Hwf as [|? ? [Hsz [Haddr Hact]] Hrest]; subst.
    simpl length in Hn.
    pose proof Hsafe as [Htab [HE [Hlen [[_ Hst] Hok]]]].
    pose proof (N2Z.is_nonneg (addr r)) as Hnn.
    pose proof (decode_block s b (Z.of_N (addr r)) Hs Hb Hsb ltac:(lia)) as Hd.
    set (tg := to_long (Z.of_N (addr r) / 2 ^ b / 2 ^ s)) in *.
    set (si := (Z.of_N (addr r) / 2 ^ b) mod 2 ^ s) in *.
    assert (0 <= si < 2 ^ s) as Hsi.
    { apply Z.mod_pos_bound. apply Z.pow_pos_nonneg; lia. }
    destruct (lookup_lt_is_Some_2 (cache st) (Z.to_nat si) ltac:(lia)) as [row Hrow].
    assert (row_at (cache st) si = Ok row) as Hr by (apply row_at_Ok; split; [lia | exact Hrow]).
    assert (forall k, exists st1, step (mkAccess k tg si) st = Ok st1) as Hstep.
    { intros k. apply (step_safe n (mkAccess k tg si) st row).
      - exact Htab.
      - lia.
      - exact Hr.
      - rewrite Forall_lookup in Hst. exact (proj1 (Hst _ _ Hrow)).
      - rewrite Forall_lookup in Hok. exact (Hok _ _ Hrow).
      - lia. }
    assert (exists st1,
              (if is_L (action r) then load_cache tg si st
               else if is_S (action r) then store_cache tg si st
               else Exit InvalidAction) = Ok st1 /\
              exists k, step (mkAccess k tg si) st = Ok st1) as [st1 [Hst1 [k Hk]]].
    { destruct Hact as [Ha|Ha]; rewrite Ha.
      - destruct (Hstep Load) as [st1 H1]. exists st1. split; [exact H1 | exists Load; exact H1].
      - destruct (Hstep Store) as [st1 H1]. exists st1. split; [exact H1 | exists Store; exact H1]. }
    rewrite (process_cons_Ok r trace s E0 b st tg si st1 Hsz Hd Hst1).
    apply (IH (n + 1) st1); try assumption; try lia.
    apply (step_safe_state s E0 n (mkAccess k tg si) st st1); [lia | lia | exact Hsafe | exact Hk].
Qed.

Lemma init_safe_state s b E0 :
  0 <= s <= 30 -> 0 <= b <= 31 ->
  exists st, init_cache s b E0 = Ok st /\ safe_state s E0 0 st.
Proof.
  intros Hs Hb.
  destruct (init_cache s b E0) as [st| |] eqn:Hinit.
  - exists st. split; [reflexivity|].
    split; [exact (init_table_ok _ _ _ _ Hinit)|].
    pose proof (init_stamps_ok _ _ _ _ Hinit) as Hst.
    pose proof (init_dirty_counted _ _ _ _ Hinit) as [_ Hok].
    unfold init_cache, shl_int in Hinit.
    destruct ((0 <=? s) && (s <? 32)); simpl in Hinit; [|discriminate].
    destruct ((0 <=? b) && (b <? 32)); simpl in Hinit; [|discriminate].
    inversion Hinit as [Heq]. rewrite <- Heq in *. clear Heq Hinit.
    split; [reflexivity|].
    split; [|split; [exact Hst | exact Hok]].
    cbn [cache]. rewrite length_replicate, Z.mul_1_l.
    pose proof (pow2_le_30 s Hs).
    rewrite to_int_small by (unfold INT_MIN, INT_MAX; lia). lia.
  - exfalso. unfold init_cache, shl_int in Hinit.
    destruct ((0 <=? s) && (s <? 32)) eqn:H1; [|lia].
    destruct ((0 <=? b) && (b <? 32)) eqn:H2; [|lia].
    simpl in Hinit. discriminate.
  - exfalso. unfold init_cache, shl_int in Hinit.
    destruct ((0 <=? s) && (s <? 32)) eqn:H1; [|lia].
    destruct ((0 <=? b) && (b <? 32)) eqn:H2; [|lia].
    simpl in Hinit. discriminate.
Qed.

(** A run on a well-formed input ends with the summary.  With [s] up to
    30, [s + b] up to 31 and at least one line per set, a trace of at most
    9999999 records, each with the action L or S and a size within
    0 .. 15, is processed to its end: no diagnostic, no access outside
    the table, no shift beyond the width of an [int]. *)
Theorem short_traces_run_to_the_summary (s b E0 : Z) (trace : list trace_line) :
  0 <= s <= 30 -> 0 <= b -> s + b <= 31 -> 1 <= E0 <= INT_MAX ->
  Forall well_formed_record trace ->
  Z.of_nat (length trace) <= 9999999 ->
  exists st,
    init_cache s b E0 ≫= process_trace_file trace s E0 b = Ok st /\
    main s b E0 trace = Ok (summary st).
Proof.
  intros Hs Hb Hsb HE Hwf Hlen.
  destruct (init_safe_state s b E0 Hs ltac:(lia)) as [st0 [Hinit Hsafe]].
  destruct (process_safe s b E0 trace 0 st0 ltac:(lia) Hb Hsb ltac:(lia) Hwf ltac:(lia)
              ltac:(lia) Hsafe) as [st Hrun].
  exists st. unfold main. rewrite Hinit, !bind_Ok, Hrun.
  split; [reflexivity|].
  unfold checkValidInput, add_int.
  rewrite to_int_small by (unfold INT_MIN, INT_MAX; lia).
  destruct ((s <? 0) || (b <? 0) || (E0 <=? 0)) eqn:H1; [exfalso; lia|].
  destruct (s + b >? 64) eqn:H2; [exfalso; lia|].
  rewrite !bind_Ok. reflexivity.
Qed.

Lemma short_traces_run_to_the_summary_witness :
  exists st,
    init_cache 1 2 2
      ≫= process_trace_file [mkTraceLine "L" 0 1; mkTraceLine "S" 4 2; mkTraceLine "L" 16 8]
                            1 2 2 = Ok st /\
    main 1 2 2 [mkTraceLine "L" 0 1; mkTraceLine "S" 4 2; mkTraceLine "L" 16 8]
    = Ok (summary st).
Proof.
  apply (short_traces_run_to_the_summary 1 2 2
           [mkTraceLine "L" 0 1; mkTraceLine "S" 4 2; mkTraceLine "L" 16 8]).
  - lia.
  - lia.
  - lia.
  - unfold INT_MAX. lia.
  - repeat constructor; simpl; lia.
  - simpl. lia.
Defined.

(** ** The statistics of a run *)

(** When [main] reaches the summary of a trace of at most [INT_MAX]
    records, every record was counted once, as a hit or as a miss:
    hits + misses is the number of records; and the evictions are at most
    the misses, the reported dirty evictions are those of at most
    [evictions] lines. *)
Theorem main_counts_every_record (s b E0 : Z) (trace : list trace_line)
    (stats : csim_stats_t) :
  main s b E0 trace = Ok stats ->
  Z.of_nat (length trace) <= INT_MAX ->
  hits stats + misses stats = Z.of_nat (length trace) /\
  0 <= evictions stats <= misses stats /\
  exists d, 0 <= d <= evictions stats /\
    dirty_evictions stats = to_ulong (mul_int d (to_int (1 * 2 ^ b))).
Proof.
  intros Hmain Hlen. unfold main in Hmain.
  destruct (checkValidInput s b E0) as [[]| |]; try discriminate.
  rewrite bind_Ok in Hmain.
  destruct (init_cache s b E0) as [st0| |] eqn:Hinit; try discriminate.
  rewrite bind_Ok in Hmain.
  destruct (process_trace_file trace s E0 b st0) as [st| |] eqn:Hrun; try discriminate.
  rewrite bind_Ok in Hmain. inversion Hmain; subst stats. clear Hmain.
  destruct (process_trace_file_runs _ _ _ _ _ _ Hrun) as [ops [Hops Hr]].
  pose proof (run_counted ops 0 st0 st (init_table_ok _ _ _ _ Hinit)) as Hcount.
  pose proof (run_occupied ops 0 st0 st (init_table_ok _ _ _ _ Hinit)
                (init_occupied _ _ _ _ Hinit) Hr)
    as [m [e [d [Hde [Hem [Hm [He [Hd _]]]]]]]].
  destruct (init_cache_counters _ _ _ _ Hinit) as [Hh0 [Hm0 [_ [_ [_ [Ht0 _]]]]]].
  destruct Hcount as [h [m' [Hh [Hm' [Hsum [Hhit [Hmiss _]]]]]]].
  { exists 0, 0. rewrite Hh0, Hm0, Ht0. repeat split; try lia; reflexivity. }
  { exact Hr. }
  assert (B st = to_int (1 * 2 ^ b)) as HB.
  { assert (B st = B st0) as HBeq.
    { clear - Hr Hinit. pose proof (init_table_ok _ _ _ _ Hinit) as Htab. clear Hinit.
      revert st0 Htab Hr. induction ops as [|a ops IH]; intros st0 Htab Hr.
      - simpl in Hr. inversion Hr; reflexivity.
      - rewrite run_cons in Hr. destruct (step a st0) as [st1| |] eqn:Hs; try discriminate.
        rewrite bind_Ok in Hr.
        rewrite (IH st1 (step_table_ok _ _ _ Htab Hs) Hr).
        exact (proj1 (proj2 (step_config _ _ _ Htab Hs))). }
    rewrite HBeq. clear - Hinit. unfold init_cache, shl_int in Hinit.
    destruct ((0 <=? s) && (s <? 32)); simpl in Hinit; [|discriminate].
    destruct ((0 <=? b) && (b <? 32)); simpl in Hinit; [|discriminate].
    inversion Hinit. reflexivity. }
  rewrite Hops in *. unfold INT_MAX in Hlen.
  rewrite to_int_small in Hhit, Hmiss, Hm, He, Hd by (unfold INT_MIN, INT_MAX; lia).
  unfold summary; simpl.
  rewrite Hhit, Hmiss, He, Hd, HB.
  rewrite !to_ulong_small by lia.
  split; [lia|]. split; [lia|].
  exists d. split; [lia | reflexivity].
Qed.

Lemma main_counts_every_record_witness :
  hits (mkStats 1 2 1 0 0) + misses (mkStats 1 2 1 0 0) = 3 /\
  0 <= evictions (mkStats 1 2 1 0 0) <= misses (mkStats 1 2 1 0 0) /\
  exists d, 0 <= d <= evictions (mkStats 1 2 1 0 0) /\
    dirty_evictions (mkStats 1 2 1 0 0) = to_ulong (mul_int d (to_int (1 * 2 ^ 0))).
Proof.
  apply (main_counts_every_record 0 0 1
           [mkTraceLine "L" 0 1; mkTraceLine "L" 1 1; mkTraceLine "L" 1 1]).
  - reflexivity.
  - unfold INT_MAX. simpl. lia.
Defined.

(** ** Traces that only load *)

Lemma step_clean a st st' :
  table_ok st -> clean_state st -> a_kind a = Load -> step a st = Ok st' ->
  clean_state st'.
Proof.
  intros Htab [Hd [He Hc]] Hk Hstep.
  apply (step_Ok_cases _ _ _ Htab) in Hstep as [row [Hr Hcase]].
  apply row_at_Ok in Hr as [_ Hr].
  assert (Forall (fun l => dirty l = 0) row) as Hrow
    by (rewrite Forall_lookup in Hc; exact (Hc _ _ Hr)).
  rewrite Forall_lookup in Hrow.
  destruct Hcase as [i l Hi Hl | j v Hnone Hj Hv | j v Hnone Hfull Hj Hv Hlt];
    rewrite Hk; unfold clean_state, hit_state, miss_state; simpl.
  - split; [exact Hd|]. split; [exact He|].
    apply Forall_insert; [exact Hc|]. apply Forall_insert; [|exact (Hrow _ _ Hl)].
    rewrite Forall_lookup. exact Hrow.
  - split; [exact Hd|]. split; [exact He|].
    apply Forall_insert; [exact Hc|]. apply Forall_insert; [|reflexivity].
    rewrite Forall_lookup. exact Hrow.
  - rewrite (Hrow _ _ Hv). simpl.
    split; [exact Hd|]. split; [exact He|].
    apply Forall_insert; [exact Hc|]. apply Forall_insert; [|reflexivity].
    rewrite Forall_lookup. exact Hrow.
Qed.

Lemma process_loads_clean s E0 b trace : forall st st',
  table_ok st -> clean_state st ->
  Forall (fun r => action r = "L"%char) trace ->
  process_trace_file trace s E0 b st = Ok st' -> clean_state st'.
Proof.
  induction trace as [|r trace IH]; intros st st' Htab Hclean Hall H.
  - inversion H; subst. exact Hclean.
  - inversion Hall as [|? ? Hact Hrest]; subst. simpl in H.
    destruct (Z.of_N (addr r) <? 0); [discriminate|].
    destruct ((size r <? 0) || (size r >=? MAX_SIZE)); [discriminate|].
    destruct (decode s b (Z.of_N (addr r))) as [[tg si]| |]; try discriminate.
    rewrite bind_Ok in H. rewrite Hact in H.
    change (is_L "L") with true in H. cbv iota in H.
    destruct (load_cache tg si st) as [st1| |] eqn:Hs; try discriminate.
    rewrite bind_Ok in H.
    change (load_cache tg si st) with (step (mkAccess Load tg si) st) in Hs.
    apply (IH st1 st'); [| | exact Hrest | exact H].
    + exact (step_table_ok _ _ _ Htab Hs).
    + exact (step_clean (mkAccess Load tg si) _ _ Htab Hclean eq_refl Hs).
Qed.

(** A trace of loads leaves nothing dirty: when every record has the
    action L and [main] reaches the summary, the reported dirty bytes and
    dirty evictions are both 0. *)
Theorem loads_leave_nothing_dirty (s b E0 : Z) (trace : list trace_line)
    (stats : csim_stats_t) :
  Forall (fun r => action r = "L"%char) trace ->
  main s b E0 trace = Ok stats ->
  dirty_bytes stats = 0 /\ dirty_evictions stats = 0.
Proof.
  intros Hall Hmain. unfold main in Hmain.
  destruct (checkValidInput s b E0) as [[]| |]; try discriminate.
  rewrite bind_Ok in Hmain.
  destruct (init_cache s b E0) as [st0| |] eqn:Hinit; try discriminate.
  rewrite bind_Ok in Hmain.
  destruct (process_trace_file trace s E0 b st0) as [st| |] eqn:Hrun; try discriminate.
  rewrite bind_Ok in Hmain. inversion Hmain; subst stats.
  destruct (init_cache_counters _ _ _ _ Hinit) as [_ [_ [_ [Hd [He [_ Hc]]]]]].
  assert (clean_state st0) as Hclean0.
  { split; [exact Hd|]. split; [exact He|]. rewrite Hc.
    apply Forall_replicate, Forall_replicate. reflexivity. }
  destruct (process_loads_clean _ _ _ _ _ _ (init_table_ok _ _ _ _ Hinit) Hclean0 Hall Hrun)
    as [Hd' [He' _]].
  unfold summary; simpl. rewrite Hd', He'. unfold mul_int. rewrite Z.mul_0_l.
  split; reflexivity.
Qed.

Lemma loads_leave_nothing_dirty_witness :
  dirty_bytes (mkStats 0 2 1 0 0) = 0 /\ dirty_evictions (mkStats 0 2 1 0 0) = 0.
Proof.
  apply (loads_leave_nothing_dirty 0 0 1 [mkTraceLine "L" 0 1; mkTraceLine "L" 1 1]).
  - repeat constructor.
  - reflexivity.
Defined.

(** ** The working set of a set *)

Lemma run_config ops : forall st st',
  table_ok st -> run ops st = Ok st' ->
  S_ st' = S_ st /\ B st' = B st /\ E st' = E st.
Proof.
  induction ops as [|a ops IH]; intros st st' Htab Hrun.
  - simpl in Hrun. inversion Hrun; subst. repeat split.
  - rewrite run_cons in Hrun. destruct (step a st) as [st1| |] eqn:Hs; try discriminate.
    rewrite bind_Ok in Hrun.
    destruct (IH _ _ (step_table_ok _ _ _ Htab Hs) Hrun) as [H1 [H2 H3]].
    destruct (step_config _ _ _ Htab Hs) as [H4 [H5 H6]].
    repeat split; congruence.
Qed.

Lemma init_cache_E s b E0 st : init_cache s b E0 = Ok st -> E st = E0.
Proof.
  unfold init_cache, shl_int.
  destruct ((0 <=? s) && (s <? 32)); simpl; [|discriminate].
  destruct ((0 <=? b) && (b <? 32)); simpl; [|discriminate].
  intros H. inversion H. reflexivity.
Qed.

(** A row of valid lines with distinct tags, all among [L] and none of
    them [Y], is shorter than [L] when [Y] is in [L]. *)
Lemma row_tags_pigeonhole row (L : list Z) Y :
  distinct_tags row -> Forall (fun l => valid l = 1) row ->
  (forall i l, row !! i = Some l -> tag l ∈ L) ->
  Forall (fun l => ~ matches Y l) row ->
  Y ∈ L -> NoDup L -> (length row < length L)%nat.
Proof.
  intros Hd Hv Hin Hnone HY HL.
  assert (NoDup (Y :: (tag <$> row))) as Hnd.
  { apply NoDup_cons_2.
    - intros Hel. apply list_elem_of_fmap in Hel as [l [-> Hl]].
      rewrite Forall_forall in Hnone, Hv.
      apply (Hnone l Hl). split; [exact (Hv l Hl) | reflexivity].
    - apply NoDup_alt. intros i j x Hi Hj.
      rewrite list_lookup_fmap in Hi, Hj.
      destruct (row !! i) as [li|] eqn:Eli; [|discriminate].
      destruct (row !! j) as [lj|] eqn:Elj; [|discriminate].
      simpl in Hi, Hj. inversion Hi; inversion Hj; subst.
      rewrite Forall_lookup in Hv.
      apply (Hd i j li lj Eli Elj (Hv _ _ Eli) (Hv _ _ Elj)). congruence. }
  assert ((Y :: (tag <$> row)) ⊆+ L) as Hsub.
  { apply NoDup_submseteq; [exact Hnd|]. intros x Hx.
    apply elem_of_cons in Hx as [->|Hx]; [exact HY|].
    apply list_elem_of_fmap in Hx as [l [-> Hl]].
    apply list_elem_of_lookup in Hl as [i Hi]. exact (Hin _ _ Hi). }
  apply submseteq_length in Hsub. simpl in Hsub. rewrite length_fmap in Hsub. lia.
Qed.

Lemma keeps_recent_insert si X t0 L st st' row j l' iX lX :
  row_at (cache st) si = Ok row ->
  cache st' = <[Z.to_nat si := <[j := l']> row]> (cache st) ->
  row !! iX = Some lX -> valid lX = 1 -> tag lX = X -> t0 <= timeStamp lX ->
  (forall i l, row !! i = Some l -> valid l = 1 -> t0 <= timeStamp l -> tag l ∈ L) ->
  valid l' = 1 -> tag l' ∈ L -> t0 <= timeStamp l' ->
  (j = iX -> tag l' = X) ->
  keeps_recent si X t0 L st'.
Proof.
  intros Hr Hc HiX HvX HtX HsX Hin Hv' Ht' Hs' Hj.
  exists (<[j := l']> row). split; [rewrite Hc; eapply row_at_insert; exact Hr|].
  split.
  - destruct (decide (j = iX)) as [Heq|Hne].
    + exists iX, l'. split.
      * rewrite Heq. apply list_lookup_insert_eq. eapply lookup_lt_Some; exact HiX.
      * split; [exact Hv'|]. split; [exact (Hj Heq) | exact Hs'].
    + exists iX, lX. split; [rewrite list_lookup_insert_ne by exact Hne; exact HiX|].
      split; [exact HvX|]. split; [exact HtX | exact HsX].
  - intros i l Hl Hv Hs.
    apply list_lookup_insert_Some in Hl as [[_ [<- _]]|[_ Hl]].
    + exact Ht'.
    + exact (Hin i l Hl Hv Hs).
Qed.

Lemma step_keeps_recent si X t0 L a st st' :
  table_ok st -> Forall (Forall line_ok) (cache st) -> Forall distinct_tags (cache st) ->
  NoDup L -> (length L <= Z.to_nat (E st))%nat ->
  0 <= t0 <= time st -> time st < INT_MAX ->
  (a_set a = si -> a_tag a ∈ L) ->
  keeps_recent si X t0 L st ->
  step a st = Ok st' ->
  keeps_recent si X t0 L st'.
Proof.
  intros Htab Hok Hdist HL Hlen Ht Htmax Ha
         [row [Hr [[iX [lX [HiX [HvX [HtX HsX]]]]] Hin]]] Hstep.
  assert (incr (time st) = time st + 1) as Hincr
    by (apply incr_exact; unfold INT_MIN; lia).
  destruct (Z.eq_dec (a_set a) si) as [Heq|Hne].
  - specialize (Ha Heq).
    apply (step_Ok_cases _ _ _ Htab) in Hstep as [row' [Hr' Hcase]].
    rewrite Heq, Hr in Hr'. inversion Hr'; subst row'. clear Hr'.
    pose proof (table_ok_row _ _ _ Htab Hr) as Hrowlen.
    pose proof Hr as Hr0. apply row_at_Ok in Hr0 as [Hsi Hr0].
    assert (Forall line_ok row) as Hrok
      by (rewrite Forall_lookup in Hok; exact (Hok _ _ Hr0)).
    assert (distinct_tags row) as Hrd
      by (rewrite Forall_lookup in Hdist; exact (Hdist _ _ Hr0)).
    destruct Hcase as [i l Hi Hl | j v Hnone Hj Hv | j v Hnone Hfull Hj Hv Hlt].
    + destruct Hi as [[l0 [Hl0 [Hval Htag]]] _].
      assert (l0 = l) by congruence. subst l0.
      apply (keeps_recent_insert si X t0 L st _ row i
               (touch (a_kind a) (incr (time st)) l) iX lX); try assumption.
      * simpl. rewrite Heq. reflexivity.
      * simpl. rewrite Htag. exact Ha.
      * simpl. lia.
      * intros Hij. simpl. subst i. congruence.
    + destruct Hj as [[v0 [Hv0 Hfree]] _].
      assert (v0 = v) by congruence. subst v0. unfold free in Hfree.
      apply (keeps_recent_insert si X t0 L st _ row j
               (fill (a_kind a) (a_tag a) (incr (time st))) iX lX); try assumption.
      * simpl. rewrite Heq. reflexivity.
      * reflexivity.
      * simpl. lia.
      * intros Hij. exfalso. subst j. assert (v = lX) by congruence. subst v. lia.
    + apply (keeps_recent_insert si X t0 L st _ row j
               (fill (a_kind a) (a_tag a) (incr (time st))) iX lX); try assumption.
      * simpl. rewrite Heq. reflexivity.
      * reflexivity.
      * simpl. lia.
      * intros Hij. exfalso. subst j. assert (v = lX) by congruence. subst v.
        destruct Hj as [l0 [Hl0 Hmin]]. assert (l0 = lX) by congruence. subst l0.
        assert (Forall (fun l => valid l = 1) row) as Hallv.
        { rewrite Forall_lookup. intros i l Hl.
          rewrite Forall_lookup in Hfull, Hrok.
          pose proof (Hfull _ _ Hl) as Hnf. unfold free in Hnf.
          destruct (Hrok _ _ Hl) as [[H0 _]|[H1 _]]; [contradiction | exact H1]. }
        assert (length row < length L)%nat as Hshort.
        { apply (row_tags_pigeonhole row L (a_tag a)); try assumption.
          intros i l Hl. rewrite Forall_lookup in Hallv.
          apply (Hin i l Hl (Hallv _ _ Hl)).
          destruct (Hmin i l Hl) as [Hle _]. lia. }
        lia.
  - destruct (step_shape _ _ _ Htab Hstep) as [row' [i [l' [Hr' [_ [Hc _]]]]]].
    apply row_at_Ok in Hr' as [Hs' _]. pose proof Hr as Hr0.
    apply row_at_Ok in Hr0 as [Hsi Hr0].
    exists row. split.
    + apply row_at_Ok. split; [exact Hsi|].
      rewrite Hc, list_lookup_insert_ne by lia. exact Hr0.
    + split; [exists iX, lX; repeat split; assumption | exact Hin].
Qed.

Lemma run_keeps_recent si X t0 L mid : forall st st',
  table_ok st -> Forall (Forall line_ok) (cache st) -> Forall distinct_tags (cache st) ->
  NoDup L -> (length L <= Z.to_nat (E st))%nat ->
  0 <= t0 <= time st -> time st + Z.of_nat (length mid) <= INT_MAX ->
  (forall a', a' ∈ mid -> a_set a' = si -> a_tag a' ∈ L) ->
  keeps_recent si X t0 L st ->
  run mid st = Ok st' ->
  keeps_recent si X t0 L st' /\ table_ok st'.
Proof.
  induction mid as [|a mid IH]; intros st st' Htab Hok Hdist HL Hlen Ht Htmax Hmid Hk Hrun.
  - simpl in Hrun. inversion Hrun; subst. split; assumption.
  - rewrite run_cons in Hrun. destruct (step a st) as [st1| |] eqn:Hs; try discriminate.
    rewrite bind_Ok in Hrun. simpl length in Htmax.
    assert (time st1 = time st + 1) as Ht1.
    { rewrite (proj1 (step_counters _ _ _ Htab Hs)).
      apply incr_exact. unfold INT_MIN. lia. }
    apply (IH st1 st').
    + exact (step_table_ok _ _ _ Htab Hs).
    + exact (proj2 (step_dirty_move _ _ _ Htab Hok Hs)).
    + exact (step_distinct_tags _ _ _ Htab Hdist Hs).
    + exact HL.
    + rewrite (proj2 (proj2 (step_config _ _ _ Htab Hs))). exact Hlen.
    + lia.
    + lia.
    + intros a' Ha'. apply Hmid. apply list_elem_of_further. exact Ha'.
    + apply (step_keeps_recent si X t0 L a st st1); try assumption.
      * lia.
      * apply Hmid. apply list_elem_of_here.
    + exact Hrun.
Qed.

Lemma resident_hits k tg si st row :
  table_ok st -> row_at (cache st) si = Ok row -> Exists (matches tg) row ->
  exists st', step (mkAccess k tg si) st = Ok st' /\
    hit st' = incr (hit st) /\ miss st' = miss st /\ eviction st' = eviction st.
Proof.
  intros Htab Hr Hex.
  destruct (Exists_first_match _ _ Hex) as [i Hi].
  pose proof Hi as [[l [Hl _]] _].
  exists (hit_state k (Z.to_nat si) i row l st). split; [|repeat split].
  apply (step_case_Ok (mkAccess k tg si) st _ row Hr (table_ok_row _ _ _ Htab Hr)).
  apply (case_hit (mkAccess k tg si)); assumption.
Qed.

(** A working set that fits is never evicted.  Take a state reached by
    [pre], an access [a], and further accesses [mid] (to any sets), fewer
    than [INT_MAX] in all.  If the accesses of [a] and of [mid] to the set
    of [a] use at most [E] different tags (those of the duplicate-free list
    [L]), the block of [a] is still resident at the end: a load or a store
    of it hits there. *)
Theorem lru_keeps_the_working_set
    (s b E0 : Z) (pre mid : list access) (a : access) (L : list Z) (st0 st2 : state) :
  reachable s b E0 pre st0 ->
  run (a :: mid) st0 = Ok st2 ->
  Z.of_nat (length pre + length mid) < INT_MAX ->
  NoDup L -> (length L <= Z.to_nat E0)%nat ->
  a_tag a ∈ L ->
  (forall a', a' ∈ mid -> a_set a' = a_set a -> a_tag a' ∈ L) ->
  forall k, exists st3,
    step (mkAccess k (a_tag a) (a_set a)) st2 = Ok st3 /\
    hit st3 = incr (hit st2) /\ miss st3 = miss st2 /\ eviction st3 = eviction st2.
Proof.
  intros Hreach Hrun Hlen HL HLlen Ha Hmid k.
  pose proof (reachable_table_ok _ _ _ _ _ Hreach) as Htab.
  pose proof (reachable_dirty_counted _ _ _ _ _ Hreach) as [_ Hok].
  pose proof (reachable_counted _ _ _ _ _ Hreach) as [h [m [_ [_ [_ [_ [_ Htime]]]]]]].
  destruct Hreach as [sti [Hinit Hpre]].
  pose proof (run_distinct_tags pre sti st0 (init_table_ok _ _ _ _ Hinit)
                (init_distinct_tags _ _ _ _ Hinit) Hpre) as Hdist.
  assert (E st0 = E0) as HE.
  { rewrite (proj2 (proj2 (run_config pre sti st0 (init_table_ok _ _ _ _ Hinit) Hpre))).
    exact (init_cache_E _ _ _ _ Hinit). }
  unfold INT_MAX in Hlen.
  pose proof (run_stamps_ok pre 0 sti st0 ltac:(lia) ltac:(lia)
                (init_table_ok _ _ _ _ Hinit) (init_stamps_ok _ _ _ _ Hinit) Hpre)
    as [_ Hstamps].
  rewrite Z.add_0_l in Hstamps.
  rewrite to_int_small in Htime by (unfold INT_MIN, INT_MAX; lia).
  rewrite run_cons in Hrun. destruct (step a st0) as [st1| |] eqn:Hs; try discriminate.
  rewrite bind_Ok in Hrun.
  destruct (step_shape _ _ _ Htab Hs) as [row [i [l' [Hr [Hi [Hc [Hv' [Ht' [Hs' Htime1]]]]]]]]].
  rewrite Htime, incr_exact in Htime1 by (unfold INT_MIN, INT_MAX; lia).
  assert (keeps_recent (a_set a) (a_tag a) (time st1) L st1) as Hk1.
  { exists (<[i := l']> row). split; [rewrite Hc; eapply row_at_insert; exact Hr|].
    split.
    - exists i, l'. split; [apply list_lookup_insert_eq; exact Hi|].
      split; [exact Hv'|]. split; [exact Ht' | lia].
    - intros i0 l Hl Hv Hts.
      apply list_lookup_insert_Some in Hl as [[_ [<- _]]|[_ Hl]].
      + rewrite Ht'. exact Ha.
      + exfalso. apply row_at_Ok in Hr as [_ Hr].
        rewrite Forall_lookup in Hstamps.
        destruct (Hstamps _ _ Hr) as [Hst _].
        destruct (Hst i0 l Hl Hv) as [n [Hn Hts']].
        rewrite to_int_small in Hts' by (unfold INT_MIN, INT_MAX; lia). lia. }
  destruct (run_keeps_recent (a_set a) (a_tag a) (time st1) L mid st1 st2)
    as [[row2 [Hr2 [[iX [lX [HiX [HvX [HtX _]]]]] _]]] Htab2].
  - exact (step_table_ok _ _ _ Htab Hs).
  - exact (proj2 (step_dirty_move _ _ _ Htab Hok Hs)).
  - exact (step_distinct_tags _ _ _ Htab Hdist Hs).
  - exact HL.
  - rewrite (proj2 (proj2 (step_config _ _ _ Htab Hs))), HE. exact HLlen.
  - lia.
  - unfold INT_MAX. lia.
  - exact Hmid.
  - exact Hk1.
  - exact Hrun.
  - apply (resident_hits k (a_tag a) (a_set a) st2 row2 Htab2 Hr2).
    apply Exists_exists. exists lX. split.
    + apply list_elem_of_lookup. exists iX. exact HiX.
    + split; assumption.
Qed.

Lemma lru_keeps_the_working_set_witness :
  exists st3,
    step (mkAccess Store 0 0) (two_line_state 3) = Ok st3 /\
    hit st3 = incr (hit (two_line_state 3)) /\
    miss st3 = miss (two_line_state 3) /\
    eviction st3 = eviction (two_line_state 3).
Proof.
  apply (fun H1 H2 H3 H4 H5 H6 H7 =>
           lru_keeps_the_working_set 0 0 2 [] [mkAccess Load 1 0; mkAccess Load 1 0]
             (mkAccess Load 0 0) [0; 1]
             (mkState [[empty_line; empty_line]] 0 0 0 0 0 0 1 1 2) (two_line_state 3)
             H1 H2 H3 H4 H5 H6 H7 Store).
  - exists (mkState [[empty_line; empty_line]] 0 0 0 0 0 0 1 1 2). split; reflexivity.
  - reflexivity.
  - unfold INT_MAX. simpl. lia.
  - apply NoDup_cons_2; [|apply NoDup_singleton].
    intros H. apply list_elem_of_singleton in H. discriminate.
  - simpl. lia.
  - apply list_elem_of_here.
  - intros a' Ha' _.
    apply elem_of_cons in Ha' as [->|Ha'];
      [apply list_elem_of_further, list_elem_of_here|].
    apply elem_of_cons in Ha' as [->|Ha'];
      [apply list_elem_of_further, list_elem_of_here|].
    inversion Ha'.
Defined.
